(** * Blog backend (app.py): data model and request handlers

    A shallow embedding of the Flask / SQLAlchemy service in [app.py]:
    the four tables, the session with its commit and rollback, the media
    helpers and the request handlers, followed by the properties of the
    handlers.  Tables are finite maps from the primary key to the row.
    Handlers are computations in a state-and-exception monad, because the
    source mixes database effects with [try] / [except]. *)

From Stdlib Require Import ZArith Ascii.
From Stdlib Require String.
From stdpp Require Import base option list gmap strings sorting pretty.

Local Open Scope Z_scope.

(** ** Rows of the four tables (the primary key [id] is the key of the table) *)

Module User.
Record t := mk { username : string; password : string }.
End User.

Module Post.
Record t := mk {
  title : string;
  content : string;
  image_url : option string;
  user_id : Z;
  created_at : Z;
  updated_at : Z }.
End Post.

Module PostImage.
Record t := mk { url : string; post_id : Z }.
End PostImage.

Module Comment.
Record t := mk { text : string; user_id : Z; post_id : Z; created_at : Z }.
End Comment.

#[global] Instance User_eq_dec : EqDecision User.t.
Proof. solve_decision. Defined.
#[global] Instance Post_eq_dec : EqDecision Post.t.
Proof. solve_decision. Defined.
#[global] Instance PostImage_eq_dec : EqDecision PostImage.t.
Proof. solve_decision. Defined.
#[global] Instance Comment_eq_dec : EqDecision Comment.t.
Proof. solve_decision. Defined.

Record Store := mkStore {
  users : gmap Z User.t;
  posts : gmap Z Post.t;
  post_images : gmap Z PostImage.t;
  comments : gmap Z Comment.t }.

#[global] Instance Store_eq_dec : EqDecision Store.
Proof. solve_decision. Defined.

Definition empty_store : Store := mkStore ∅ ∅ ∅ ∅.

(** ** Exceptions, responses, requests *)

Inductive Exn :=
  | NotFound                       (* werkzeug.exceptions.NotFound, raised by get_or_404 *)
  | KeyError (key : string)
  | AttributeError
  | JSONDecodeError
  | ArgumentError                  (* sqlalchemy: in_() on something that is no list *)
  | OverflowError                  (* sqlite3: Python int too large to convert to SQLite INTEGER *)
  | UploadError (msg : string)     (* cloudinary upload or file.save failed *)
  | DatabaseError (msg : string).  (* raised by the storage backend at commit *)

#[global] Instance Exn_eq_dec : EqDecision Exn.
Proof. solve_decision. Defined.

(** What the handlers print. *)
Inductive Event :=
  | PrintDeleted (n : nat)           (* "成功删除旧图数量: n" *)
  | PrintGalleryFailed (e : Exn).    (* "解析或删除画廊图片失败: e" *)

#[global] Instance Event_eq_dec : EqDecision Event.
Proof. solve_decision. Defined.

Record CommentDict := mkCommentDict {
  cd_id : Z; cd_text : string; cd_user_id : Z; cd_author : string; cd_created_at : Z }.

Record PostDict := mkPostDict {
  pd_id : Z; pd_title : string; pd_content : string; pd_image_url : option string;
  pd_author : string; pd_user_id : Z; pd_created_at : Z; pd_updated_at : Z;
  pd_images : list (Z * string);
  pd_comments : option (list CommentDict) }.

Inductive Body :=
  | Message (m : string)
  | ErrorOf (e : Exn)                          (* {"error": str(e)} *)
  | ServerError (e : Exn)                      (* {"message": "Server Error: ..."} *)
  | LoginOk (user_id : Z) (username : string)
  | PostList (ps : list PostDict)
  | PostDetail (p : PostDict)
  | Unhandled (e : Exn).                       (* Flask's page for an uncaught exception *)

Record Response := mkResponse { status : Z; body : Body }.

(** werkzeug's FileStorage: its truth value is that of its filename. *)
Record FileStorage := mkFile { filename : string; data : string }.

Record Request := mkRequest {
  args : gmap string string;             (* request.args  *)
  form : gmap string string;             (* request.form  *)
  files : list (string * FileStorage);   (* request.files, a MultiDict *)
  json : gmap string string }.           (* request.json  *)

(** The values [json.loads] can return (numbers are integers here). *)
#[warnings="-register-all"]
Inductive Json :=
  | JNull
  | JBool (b : bool)
  | JNum (z : Z)
  | JStr (s : string)
  | JArr (l : list Json)
  | JObj (l : list (string * Json)).

(** ** Library functions and the outside world

    The library functions the handlers call are parameters of the model
    ([None] stands for the exception the function raises). *)
Record Lib := mkLib {
  json_loads : string → option Json;                      (* json.loads *)
  py_int : string → option Z;                             (* int(str), None on ValueError *)
  generate_password_hash : string → string → string;      (* salt, password *)
  check_password_hash : string → string → bool;           (* pwhash, password *)
  secure_filename : string → string;
  strftime : Z → string }.                                (* '%Y%m%d%H%M%S%f' *)

(** What the environment answers during one request. *)
Record Env := mkEnv {
  CLOUDINARY_CLOUD_NAME : option string;                  (* os.getenv *)
  cloudinary_upload : FileStorage → Exn + string;         (* ...upload(file)['secure_url'] *)
  file_save : string → option Exn;                        (* file.save(path) *)
  now : nat → Z;                                          (* the n-th reading of the clock *)
  gen_salt : string;                                      (* entropy of generate_password_hash *)
  in_other : Json → Exn + list Z;                         (* see [in_ids] *)
  commit_error : option Exn }.                            (* what the backend raises at commit *)

(** ** State and the handler monad *)

Record State := mkState {
  db : Store;                 (* committed rows *)
  session : Store;            (* db.session: the rows as this request sees them *)
  disk : gset string;         (* files under app.root_path *)
  ticks : nat;                (* clock readings so far *)
  stdout : list Event;        (* newest first *)
  raised : list Exn }.        (* every exception raised so far, newest first *)

Definition M (A : Type) : Type := State → (Exn + A) * State.

Definition ret {A} (a : A) : M A := λ s, (inr a, s).

Definition bind {A B} (m : M A) (k : A → M B) : M B :=
  λ s, match m s with
       | (inl e, s') => (inl e, s')
       | (inr a, s') => k a s'
       end.

Definition raise {A} (e : Exn) : M A :=
  λ s, (inl e, mkState (db s) (session s) (disk s) (ticks s) (stdout s) (e :: raised s)).

(** [try: m except Exception as e: h e] *)
Definition try_except {A} (m : M A) (h : Exn → M A) : M A :=
  λ s, match m s with
       | (inl e, s') => h e s'
       | (inr a, s') => (inr a, s')
       end.

Declare Scope handler_scope.
Delimit Scope handler_scope with handler.
Notation "x <- m ;; k" := (bind m (λ x, k))
  (at level 100, m at next level, right associativity) : handler_scope.
Notation "m ;; k" := (bind m (λ _, k))
  (at level 100, right associativity) : handler_scope.
Local Open Scope handler_scope.

Definition get_session : M Store := λ s, (inr (session s), s).

Definition set_session (f : Store → Store) : M unit :=
  λ s, (inr (), mkState (db s) (f (session s)) (disk s) (ticks s) (stdout s) (raised s)).

Definition set_disk (f : gset string → gset string) : M unit :=
  λ s, (inr (), mkState (db s) (session s) (f (disk s)) (ticks s) (stdout s) (raised s)).

Definition print (ev : Event) : M unit :=
  λ s, (inr (), mkState (db s) (session s) (disk s) (ticks s) (ev :: stdout s) (raised s)).

(** for x in l: f x *)
Fixpoint for_each {A} (l : list A) (f : A → M unit) : M unit :=
  match l with
  | [] => ret ()
  | x :: l' => f x ;; for_each l' f
  end.

(** ** Helpers of app.py and the session *)

(** [url.lstrip('/')] *)
Fixpoint lstrip_slash (s : string) : string :=
  match s with
  | String c s' => if Ascii.eqb c "/" then lstrip_slash s' else s
  | EmptyString => s
  end.

(** Python truth value of a string, and of [os.getenv(...)]. *)
Definition truthy (s : string) : bool := bool_decide (s ≠ "").

Definition getenv_truthy (v : option string) : bool :=
  match v with Some s => truthy s | None => false end.

(** Python truth value of a decoded JSON document. *)
Definition json_truthy (v : Json) : bool :=
  match v with
  | JNull => false
  | JBool b => b
  | JNum z => bool_decide (z ≠ 0)
  | JStr s => truthy s
  | JArr l => bool_decide (l ≠ [])
  | JObj l => bool_decide (l ≠ [])
  end.

(** The integers a 64-bit INTEGER column can hold.  SQLite's driver
    refuses to bind any other integer as a query parameter
    ([OverflowError]); PostgreSQL's sends it as a numeric literal. *)
Definition int64 (z : Z) : bool := bool_decide (- 2 ^ 63 ≤ z < 2 ^ 63).

(** [PostImage.id.in_(v)], as the query then uses it: the ids the IN list
    matches, or the exception.  A list of 64-bit integers matches those
    integers; a number, a string, a boolean or null is no list and
    SQLAlchemy raises.  What an object, a list with an element that is no
    integer, or a list with an integer outside 64 bits matches depends on
    the SQLAlchemy version and on the backend (PostgreSQL raises on the
    first two, SQLite compares by affinity and raises [OverflowError] on
    the third): the environment answers. *)
Definition in_ids (E : Env) (v : Json) : Exn + list Z :=
  match v with
  | JArr l =>
      match mapM (λ x, match x with JNum z => Some z | _ => None end) l with
      | Some ids => if forallb int64 ids then inr ids else in_other E v
      | None => in_other E v
      end
  | JObj _ => in_other E v
  | _ => inl ArgumentError
  end.

(** The next primary key: one more than the largest key among the committed
    rows and the rows of the session (rows deleted in the session are
    deleted in the database only after the inserts of the same flush). *)
Definition max_key {A} (m : gmap Z A) : Z := foldr Z.max 0 (map_to_list m).*1.

Definition next_id {A} (committed pending : gmap Z A) : Z :=
  1 + Z.max (max_key committed) (max_key pending).

(** Rows in the order of their ids. *)
Definition key_le {A} : relation (Z * A) := λ a b, a.1 ≤ b.1.

#[global] Instance key_le_dec {A} (a b : Z * A) : Decision (key_le a b) :=
  decide (a.1 ≤ b.1).

Definition by_id {A} (m : gmap Z A) : list (Z * A) :=
  merge_sort key_le (map_to_list m).

(** [post.images] and [post.comments]: the rows of the child tables that
    belong to one post.  The relationships declare no order, so the order
    in which the backend returns the rows is its own; the model lists them
    by id, and what is proved about these rows is their membership. *)
Definition images_of (st : Store) (pid : Z) : list (Z * PostImage.t) :=
  by_id (filter (λ kv, PostImage.post_id kv.2 = pid) (post_images st)).

Definition comments_of (st : Store) (pid : Z) : list (Z * Comment.t) :=
  by_id (filter (λ kv, Comment.post_id kv.2 = pid) (comments st)).

(** [Comment.to_dict] *)
Definition comment_to_dict (st : Store) (kc : Z * Comment.t) : CommentDict :=
  let c := kc.2 in
  mkCommentDict kc.1 (Comment.text c) (Comment.user_id c)
    (match users st !! Comment.user_id c with
     | Some u => User.username u
     | None => "Anonymous"
     end)
    (Comment.created_at c).

(** [Post.to_dict] *)
Definition to_dict (st : Store) (include_comments : bool) (kp : Z * Post.t) : PostDict :=
  let p := kp.2 in
  mkPostDict kp.1 (Post.title p) (Post.content p) (Post.image_url p)
    (match users st !! Post.user_id p with
     | Some u => User.username u
     | None => "Unknown"
     end)
    (Post.user_id p) (Post.created_at p) (Post.updated_at p)
    ((λ ki, (ki.1, PostImage.url ki.2)) <$> images_of st kp.1)
    (if include_comments then Some (comment_to_dict st <$> comments_of st kp.1) else None).

(** [db.session.delete(post)]: the relationships [images] and [comments]
    carry cascade="all, delete-orphan", so the children go with the post. *)
Definition delete_post_cascade (pid : Z) (st : Store) : Store :=
  mkStore (users st)
    (delete pid (posts st))
    (filter (λ kv, PostImage.post_id kv.2 ≠ pid) (post_images st))
    (filter (λ kv, Comment.post_id kv.2 ≠ pid) (comments st)).

Definition delete_image (iid : Z) (st : Store) : Store :=
  mkStore (users st) (posts st) (delete iid (post_images st)) (comments st).

Definition delete_comment_row (cid : Z) (st : Store) : Store :=
  mkStore (users st) (posts st) (post_images st) (delete cid (comments st)).

Definition put_image (iid : Z) (i : PostImage.t) (st : Store) : Store :=
  mkStore (users st) (posts st) (<[iid := i]> (post_images st)) (comments st).

Definition put_user (uid : Z) (u : User.t) (st : Store) : Store :=
  mkStore (<[uid := u]> (users st)) (posts st) (post_images st) (comments st).

(** [onupdate] of [Post.updated_at]: a post row that the flush finds
    changed gets the current time. *)
Definition touch (t : Z) (committed : gmap Z Post.t) (k : Z) (p : Post.t) : Post.t :=
  match committed !! k with
  | Some p0 =>
      if decide (p = p0) then p
      else Post.mk (Post.title p) (Post.content p) (Post.image_url p)
                   (Post.user_id p) (Post.created_at p) t
  | None => p
  end.

Definition flushed (t : Z) (committed pending : Store) : Store :=
  mkStore (users pending)
    (map_imap (λ k p, Some (touch t (posts committed) k p)) (posts pending))
    (post_images pending) (comments pending).

(** ** Case-insensitive LIKE

    [col.ilike(pattern)] is [lower(col) LIKE lower(pattern)].  In a LIKE
    pattern [%] matches any run of characters and [_] any one character;
    no escape character is declared by the query.  Strings are byte
    strings and [lower] folds the ASCII letters. *)

Definition lower_ascii (c : ascii) : ascii :=
  let n := Ascii.nat_of_ascii c in
  if ((65 <=? n) && (n <=? 90))%nat then Ascii.ascii_of_nat (n + 32) else c.

Fixpoint lower (s : string) : string :=
  match s with
  | EmptyString => EmptyString
  | String c s' => String (lower_ascii c) (lower s')
  end.

Fixpoint like (pat : string) : string → bool :=
  match pat with
  | EmptyString => λ s, match s with EmptyString => true | String _ _ => false end
  | String c pat' =>
      if Ascii.eqb c "%" then
        fix skip (s : string) : bool :=
          like pat' s || match s with EmptyString => false | String _ s' => skip s' end
      else if Ascii.eqb c "_" then
        λ s, match s with EmptyString => false | String _ s' => like pat' s' end
      else
        λ s, match s with
             | EmptyString => false
             | String d s' => Ascii.eqb c d && like pat' s'
             end
  end.

Definition ilike (col pattern : string) : bool := like (lower pattern) (lower col).

(** [ORDER BY created_at DESC] *)
Definition newest_first : relation (Z * Post.t) :=
  λ a b, Post.created_at b.2 ≤ Post.created_at a.2.

#[global] Instance newest_first_dec (a b : Z * Post.t) : Decision (newest_first a b) :=
  decide (Post.created_at b.2 ≤ Post.created_at a.2).

(** ** Requests *)

(** [d.get(key, type=int)] of a werkzeug MultiDict. *)
Definition get_int (L : Lib) (d : gmap string string) (key : string) : option Z :=
  match d !! key with
  | Some v => py_int L v
  | None => None
  end.

(** [request.files.getlist(key)], [key in request.files], [request.files[key]] *)
Definition files_getlist (fs : list (string * FileStorage)) (key : string) : list FileStorage :=
  (filter (λ kv, kv.1 = key) fs).*2.

Definition files_get (fs : list (string * FileStorage)) (key : string) : option FileStorage :=
  head (files_getlist fs key).

(** The attribute writes of update_post. *)
Definition set_title (v : string) (p : Post.t) : Post.t :=
  Post.mk v (Post.content p) (Post.image_url p) (Post.user_id p)
          (Post.created_at p) (Post.updated_at p).

Definition set_content (v : string) (p : Post.t) : Post.t :=
  Post.mk (Post.title p) v (Post.image_url p) (Post.user_id p)
          (Post.created_at p) (Post.updated_at p).

Definition set_image_url (v : option string) (p : Post.t) : Post.t :=
  Post.mk (Post.title p) (Post.content p) v (Post.user_id p)
          (Post.created_at p) (Post.updated_at p).

Definition modify_post (pid : Z) (f : Post.t → Post.t) : M unit :=
  set_session (λ st, mkStore (users st) (alter f pid (posts st)) (post_images st) (comments st)).

(** [User.query.filter_by(username=name).first()] *)
Definition find_user (st : Store) (name : string) : option (Z * User.t) :=
  head (by_id (filter (λ kv, User.username kv.2 = name) (users st))).

(** [data[key]] on the decoded JSON body *)
Definition json_get (data : gmap string string) (key : string) : M string :=
  match data !! key with
  | Some v => ret v
  | None => raise (KeyError key)
  end.

(** ** The handlers *)

Section Handlers.
Context (L : Lib) (E : Env).

(** [datetime.now()] *)
Definition read_clock : M Z :=
  λ s, (inr (now E (ticks s)),
        mkState (db s) (session s) (disk s) (S (ticks s)) (stdout s) (raised s)).

(** [Model.query.get_or_404(ident)].  The rows have ids that the backend
    can hold; the lookup of an id outside 64 bits, which SQLite's driver
    refuses with [OverflowError] before any row is looked for, is not
    modelled, and what is proved about ids without a row is proved for
    ids within 64 bits (see [int64]). *)
Definition get_or_404 {A} (table : Store → gmap Z A) (ident : Z) : M A :=
  st <- get_session ;;
  match table st !! ident with
  | Some row => ret row
  | None => raise NotFound
  end.

(** [db.session.commit()]: on success the rows of the session become the
    committed rows; on failure nothing is written. *)
Definition commit : M unit :=
  λ s, match commit_error E with
       | Some e => raise e s
       | None =>
           let st := flushed (now E (ticks s)) (db s) (session s) in
           (inr (), mkState st st (disk s) (S (ticks s)) (stdout s) (raised s))
       end.

(** [db.session.rollback()] *)
Definition rollback : M unit :=
  λ s, (inr (), mkState (db s) (db s) (disk s) (ticks s) (stdout s) (raised s)).

(** [db.session.add(PostImage(...))], [db.session.add(User(...))] *)
Definition add_image (i : PostImage.t) : M unit :=
  λ s, set_session
         (put_image (next_id (post_images (db s)) (post_images (session s))) i) s.

Definition add_user (u : User.t) : M unit :=
  λ s, set_session (put_user (next_id (users (db s)) (users (session s))) u) s.

(** [remove_physical_file(url)].  The disk of the model always lets go of
    a file: a failure of [os.remove], which the source catches and prints
    and after which the file is still there, is not modelled. *)
Definition remove_physical_file (url : string) : M unit :=
  if negb (truthy url) || String.prefix "http" url then ret ()
  else set_disk (λ d, d ∖ {[ lstrip_slash url ]}).

(** [smart_upload(file)] *)
Definition smart_upload (file : FileStorage) : M (option string) :=
  if negb (truthy (filename file)) then ret None
  else if getenv_truthy (CLOUDINARY_CLOUD_NAME E) then
    match cloudinary_upload E file with
    | inl e => raise e
    | inr secure_url => ret (Some secure_url)
    end
  else
    t <- read_clock ;;
    let name := strftime L t +:+ "_" +:+ secure_filename L (filename file) in
    match file_save E ("static/uploads/" +:+ name) with
    | Some e => raise e
    | None =>
        set_disk (λ d, {[ "static/uploads/" +:+ name ]} ∪ d) ;;
        ret (Some ("/static/uploads/" +:+ name))
    end.

(** POST /api/register *)
Definition register (req : Request) : M Response :=
  username <- json_get (json req) "username" ;;
  st <- get_session ;;
  if bool_decide (is_Some (find_user st username)) then
    ret (mkResponse 400 (Message "User already exists"))
  else
    password <- json_get (json req) "password" ;;
    let hashed_password := generate_password_hash L (gen_salt E) password in
    add_user (User.mk username hashed_password) ;;
    commit ;;
    ret (mkResponse 201 (Message "Registration successful")).

(** POST /api/login *)
Definition login (req : Request) : M Response :=
  username <- json_get (json req) "username" ;;
  st <- get_session ;;
  match find_user st username with
  | Some (uid, user) =>
      password <- json_get (json req) "password" ;;
      if check_password_hash L (User.password user) password then
        ret (mkResponse 200 (LoginOk uid (User.username user)))
      else ret (mkResponse 401 (Message "Invalid credentials"))
  | None => ret (mkResponse 401 (Message "Invalid credentials"))
  end.

(** GET /api/posts *)
Definition get_posts (req : Request) : M Response :=
  let search_query := default "" (args req !! "q") in
  st <- get_session ;;
  let query := map_to_list (posts st) in
  let query :=
    if truthy search_query then
      filter (λ kp, ilike (Post.title kp.2) ("%" +:+ search_query +:+ "%")
                    || ilike (Post.content kp.2) ("%" +:+ search_query +:+ "%")) query
    else query in
  let posts := merge_sort newest_first query in
  ret (mkResponse 200 (PostList (to_dict st false <$> posts))).

(** GET /api/posts/<post_id> *)
Definition get_post_detail (post_id : Z) : M Response :=
  try_except
    (post <- get_or_404 posts post_id ;;
     st <- get_session ;;
     ret (mkResponse 200 (PostDetail (to_dict st true (post_id, post)))))
    (λ e, ret (mkResponse 500 (ErrorOf e))).

(** DELETE /api/posts/<post_id> *)
Definition delete_post (post_id : Z) (req : Request) : M Response :=
  post <- get_or_404 posts post_id ;;
  let user_id := get_int L (args req) "user_id" in
  if bool_decide (user_id ≠ Some (Post.user_id post)) then
    ret (mkResponse 403 (Message "Permission denied"))
  else
    set_session (delete_post_cascade post_id) ;;
    commit ;;
    ret (mkResponse 200 (Message "Deleted")).

(** DELETE /api/comments/<comment_id> *)
Definition delete_comment (comment_id : Z) (req : Request) : M Response :=
  comment <- get_or_404 comments comment_id ;;
  let user_id := get_int L (args req) "user_id" in
  st <- get_session ;;
  (* comment.post is None when the parent row is missing *)
  post <- match posts st !! Comment.post_id comment with
          | Some p => ret p
          | None => raise AttributeError
          end ;;
  if bool_decide (user_id ∈ [Some (Comment.user_id comment); Some (Post.user_id post)]) then
    set_session (delete_comment_row comment_id) ;;
    commit ;;
    ret (mkResponse 200 (Message "Deleted"))
  else ret (mkResponse 403 (Message "Denied")).

(** Step 3 of update_post, the body of its inner [try]: decode
    [delete_image_ids], select the images of this post among them,
    remove their files and delete the rows.  The SELECT first flushes the
    changes the session holds.  That flush is not modelled: a backend that
    accepts it writes what the commit would write; a backend that refuses
    it fails this step before any file is removed, where the model fails
    at the commit, after the files are removed.  What is proved about the
    files this step removes is therefore proved for requests that have
    changed nothing before it. *)
Definition remove_gallery_images (post_id : Z) (removed_ids_json : string) : M unit :=
  match json_loads L removed_ids_json with
  | None => raise JSONDecodeError
  | Some delete_image_ids =>
      if json_truthy delete_image_ids then
        match in_ids E delete_image_ids with
        | inl e => raise e
        | inr ids =>
            st <- get_session ;;
            let images_to_del :=
              by_id (filter (λ kv, kv.1 ∈ ids ∧ PostImage.post_id kv.2 = post_id)
                            (post_images st)) in
            for_each images_to_del (λ img,
              remove_physical_file (PostImage.url img.2) ;;
              set_session (delete_image img.1)) ;;
            print (PrintDeleted (length images_to_del))
        end
      else ret ()
  end.

(** Step 4 of update_post: store each file of [images] and add a row for
    each URL obtained. *)
Definition append_gallery_images (post_id : Z) (gallery_files : list FileStorage) : M unit :=
  for_each gallery_files (λ file,
    new_url <- smart_upload file ;;
    match new_url with
    | Some u => if truthy u then add_image (PostImage.mk u post_id) else ret ()
    | None => ret ()
    end).

(** PUT /api/posts/<post_id> *)
Definition update_post (post_id : Z) (req : Request) : M Response :=
  post <- get_or_404 posts post_id ;;
  let user_id_from_client := get_int L (form req) "user_id" in
  if bool_decide (user_id_from_client ≠ Some (Post.user_id post)) then
    ret (mkResponse 403 (Message "Permission denied"))
  else
    modify_post post_id (set_title (default (Post.title post) (form req !! "title"))) ;;
    modify_post post_id (set_content (default (Post.content post) (form req !! "content"))) ;;
    (if bool_decide (form req !! "delete_cover" = Some "true") then
       modify_post post_id (set_image_url None)
     else ret ()) ;;
    match files_get (files req) "image" with
    | Some file =>
        if truthy (filename file) then
          url <- smart_upload file ;;
          modify_post post_id (set_image_url url)
        else ret ()
    | None => ret ()
    end ;;
    try_except
      (remove_gallery_images post_id (default "[]" (form req !! "delete_image_ids")))
      (λ e, print (PrintGalleryFailed e)) ;;
    append_gallery_images post_id (files_getlist (files req) "images") ;;
    try_except
      (commit ;; ret (mkResponse 200 (Message "Update successful")))
      (λ e, rollback ;; ret (mkResponse 500 (ServerError e))).

(** ** Serving one request

    A request starts with a fresh session on the committed rows.  An
    exception that leaves the handler is turned into a response by Flask:
    the status of an HTTP exception, 500 for any other.  When the request
    ends the session is removed, so what was not committed is gone. *)
Definition start (d : Store) (fs : gset string) : State := mkState d d fs 0 [] [].

Definition teardown (s : State) : State :=
  mkState (db s) (db s) (disk s) (ticks s) (stdout s) (raised s).

Definition serve (h : M Response) (d : Store) (fs : gset string) : Response * State :=
  match h (start d fs) with
  | (inr r, s) => (r, teardown s)
  | (inl NotFound, s) => (mkResponse 404 (Unhandled NotFound), teardown s)
  | (inl e, s) => (mkResponse 500 (Unhandled e), teardown s)
  end.

End Handlers.

(** ** A concrete library, environment and database for the examples

    Stand-ins for the library functions: they agree with the real ones on
    the texts the examples use (a text such as [oops] is no JSON document
    and no integer), and make no claim beyond them. *)
Module Demo.

Definition digit (c : ascii) : option Z :=
  let n := Ascii.nat_of_ascii c in
  if ((48 <=? n) && (n <=? 57))%nat then Some (Z.of_nat n - 48) else None.

Fixpoint digits (acc : Z) (s : string) : option Z :=
  match s with
  | EmptyString => Some acc
  | String c s' => d ← digit c; digits (10 * acc + d) s'
  end.

Definition decimal (s : string) : option Z :=
  if decide (s = "") then None else digits 0 s.

Fixpoint split_commas (s : string) : list string :=
  match s with
  | EmptyString => [EmptyString]
  | String c s' =>
      if Ascii.eqb c "," then EmptyString :: split_commas s'
      else match split_commas s' with
           | w :: ws => String c w :: ws
           | [] => [String c EmptyString]
           end
  end.

Fixpoint unsnoc (s : string) : option (string * ascii) :=
  match s with
  | EmptyString => None
  | String c EmptyString => Some (EmptyString, c)
  | String c s' => '(t, l) ← unsnoc s'; Some (String c t, l)
  end.

(** Decodes [[]], [[1,2]] and the like; every other text is undecodable. *)
Definition json_loads (s : string) : option Json :=
  match s with
  | String c rest =>
      if Ascii.eqb c "[" then
        '(inner, l) ← unsnoc rest;
        if Ascii.eqb l "]" then
          if decide (inner = "") then Some (JArr [])
          else ids ← mapM decimal (split_commas inner); Some (JArr (JNum <$> ids))
        else None
      else None
  | EmptyString => None
  end.

Definition py_int (s : string) : option Z :=
  match s with
  | String c rest => if Ascii.eqb c "-" then Z.opp <$> decimal rest else decimal s
  | EmptyString => None
  end.

Definition generate_password_hash (salt password : string) : string :=
  "toy$" +:+ salt +:+ "$" +:+ password +:+ salt.

Definition check_password_hash (pwhash password : string) : bool :=
  bool_decide (pwhash = generate_password_hash "NaCl" password).

Definition lib : Lib :=
  mkLib json_loads py_int generate_password_hash check_password_hash (λ s, s) pretty.

(** Local uploads, a working disk and a backend that accepts commits. *)
Definition env : Env :=
  mkEnv None (λ _, inl (UploadError "no cloud")) (λ _, None) (λ n, 1000 + Z.of_nat n)
        "NaCl" (λ _, inl ArgumentError) None.

(** The same environment with a backend that refuses the commit. *)
Definition env_down : Env :=
  mkEnv None (λ _, inl (UploadError "no cloud")) (λ _, None) (λ n, 1000 + Z.of_nat n)
        "NaCl" (λ _, inl ArgumentError) (Some (DatabaseError "connection lost")).

Definition alice : User.t := User.mk "alice" (generate_password_hash "NaCl" "wonderland").
Definition bob : User.t := User.mk "bob" (generate_password_hash "NaCl" "builder").

Definition paris : Post.t := Post.mk "Paris" "A week in France" (Some "/static/uploads/p.jpg") 1 10 10.
Definition rome : Post.t := Post.mk "Rome" "Pizza and ruins" None 2 20 20.

Definition store : Store :=
  mkStore {[ 1 := alice; 2 := bob ]}
          {[ 1 := paris; 2 := rome ]}
          {[ 1 := PostImage.mk "/static/uploads/a.jpg" 1;
             2 := PostImage.mk "/static/uploads/b.jpg" 1;
             3 := PostImage.mk "https://cdn.example/c.jpg" 2 ]}
          {[ 1 := Comment.mk "Nice" 2 1 11;
             2 := Comment.mk "Thanks" 1 1 12;
             3 := Comment.mk "Yum" 1 2 21 ]}.

Definition files_on_disk : gset string :=
  {[ "static/uploads/a.jpg"; "static/uploads/b.jpg"; "static/uploads/p.jpg" ]}.

Definition request (args form : list (string * string))
    (files : list (string * FileStorage)) (json : list (string * string)) : Request :=
  mkRequest (list_to_map args) (list_to_map form) files (list_to_map json).

End Demo.

(** * Notions used by the properties *)

(** ** What the specification calls a case-insensitive substring match *)

Fixpoint starts_with (t s : string) : bool :=
  match t with
  | EmptyString => true
  | String c t' =>
      match s with
      | EmptyString => false
      | String d s' => Ascii.eqb c d && starts_with t' s'
      end
  end.

Fixpoint contains (t s : string) : bool :=
  starts_with t s
  || match s with EmptyString => false | String _ s' => contains t s' end.

Definition spec_contains_ci (term text : string) : bool :=
  contains (lower term) (lower text).



(** ** The post rows update_post has in its session before the commit *)

(** After steps 1 and 2 (title, content, delete_cover). *)
Definition staged_posts (d : Store) (post_id : Z) (req : Request) (post : Post.t)
    : gmap Z Post.t :=
  let ps := alter (set_title (default (Post.title post) (form req !! "title")))
                  post_id (posts d) in
  let ps := alter (set_content (default (Post.content post) (form req !! "content")))
                  post_id ps in
  if bool_decide (form req !! "delete_cover" = Some "true")
  then alter (set_image_url None) post_id ps else ps.

(** After the new cover, if the request carries one with a file name:
    [smart_upload] returned [url] for it and [url] was written last. *)
Definition staged_with_cover (L : Lib) (E : Env) (d : Store) (fs : gset string)
    (post_id : Z) (req : Request) (post : Post.t) (ps : gmap Z Post.t) : Prop :=
  match files_get (files req) "image" with
  | Some file =>
      if truthy (filename file) then
        ∃ url, (smart_upload L E file (start d fs)).1 = inr url
               ∧ ps = alter (set_image_url url) post_id (staged_posts d post_id req post)
      else ps = staged_posts d post_id req post
  | None => ps = staged_posts d post_id req post
  end.

(** ** What step 3 of update_post rejects before it reaches the database

    [json.loads] raises on a text that is no JSON document, and [in_]
    raises on a decoded value that is true and no list (see [in_ids]). *)
Definition rejected_ids (L : Lib) (removed_ids_json : string) : option Exn :=
  match json_loads L removed_ids_json with
  | None => Some JSONDecodeError
  | Some v =>
      if json_truthy v then
        match v with
        | JArr _ | JObj _ => None
        | _ => Some ArgumentError
        end
      else None
  end.

(** ** [unique=True] of [User.username] *)
Definition usernames_unique (st : Store) : Prop :=
  ∀ i j u v, users st !! i = Some u → users st !! j = Some v →
             User.username u = User.username v → i = j.

(** ** Steps that do not commit

    [frame r s s'] relates the states before and after a step with outcome
    [r] that neither commits nor touches the rows of posts: the committed
    rows and the posts of the session are the same, what was printed is
    still there, and an exception is recorded exactly when the step ends
    with one. *)
Definition frame {A} (r : Exn + A) (s s' : State) : Prop :=
  db s' = db s
  ∧ posts (session s') = posts (session s)
  ∧ stdout s `suffix_of` stdout s'
  ∧ raised s' = match r with inl e => e :: raised s | inr _ => raised s end.

Definition plain {A} (m : M A) : Prop := ∀ s r s', m s = (r, s') → frame r s s'.

(** ** Steps that return

    An environment in which the media store and the backend do not fail,
    and computations that return (with a result in [P]) from every state. *)
Definition healthy (E : Env) : Prop :=
  commit_error E = None
  ∧ (∀ file, ∃ url, cloudinary_upload E file = inr url)
  ∧ (∀ path, file_save E path = None).

Definition returns {A} (P : A → Prop) (m : M A) : Prop :=
  ∀ s, ∃ a s', m s = (inr a, s') ∧ P a.

(** ** Running a handler step by step *)

Ltac run_step :=
  unfold bind, ret, raise, try_except, get_or_404, get_session, set_session,
    set_disk, print, json_get, modify_post, add_image, add_user,
    commit, rollback, read_clock;
  cbn [db session disk ticks stdout raised].

Ltac run := unfold serve, start, teardown; repeat (progress run_step).

(** * The rest of app.py and the migration script *)

(** ** The database URL (module level of app.py) *)

Fixpoint string_drop (n : nat) (s : string) : string :=
  match n, s with
  | O, _ => s
  | S n', String _ s' => string_drop n' s'
  | S _, EmptyString => EmptyString
  end.

(** [s.replace(old, new, 1)] *)
Fixpoint replace_first (old new s : string) : string :=
  if String.prefix old s then new +:+ string_drop (String.length old) s
  else match s with
       | EmptyString => EmptyString
       | String c s' => String c (replace_first old new s')
       end.

(** [db_url] as app.py computes it from [os.getenv('DATABASE_URL', default)],
    where [default] is the sqlite URL of instance/travel.db. *)
Definition db_url (DATABASE_URL : option string) (default_url : string) : string :=
  let db_url := default default_url DATABASE_URL in
  if truthy db_url && String.prefix "postgres://" db_url
  then replace_first "postgres://" "postgresql://" db_url
  else db_url.

(** ** Replies of the endpoints whose JSON body is none of [Body] *)

Inductive Payload :=
  | Uploaded (url : string)               (* {"url": url} *)
  | Created (id : Z)                      (* {"message": "OK", "id": id} *)
  | CommentCreated (c : CommentDict)      (* new_comment.to_dict() *)
  | Plain (b : Body).

Record Reply := mkReply { code : Z; payload : Payload }.

(** ** Values bound to columns

    What a flush makes of a Python value bound to a column.  A string for a
    Text column and an integer for an Integer column are stored as they
    are, [None] violates [nullable=False]; what happens to any other value,
    and to a form string bound to an Integer column, is the backend's
    (PostgreSQL casts or raises, SQLite applies its affinity rules).  The
    rows of the model hold integers in integer columns, so a backend that
    stores a text there is outside the model for such a value.

    [query_integer] is what the driver raises for an integer outside 64
    bits that a query compares a column with: SQLite's raises
    [OverflowError], PostgreSQL's raises nothing. *)
Record Columns := mkColumns {
  as_text : Json → Exn + string;
  as_integer : Json → Exn + Z;
  form_integer : string → Exn + Z;
  query_integer : Z → option Exn }.

Definition not_null : Exn := DatabaseError "NOT NULL constraint failed".

Definition bind_text (C : Columns) (v : Json) : Exn + string :=
  match v with
  | JStr s => inr s
  | JNull => inl not_null
  | _ => as_text C v
  end.

Definition bind_integer (C : Columns) (v : Json) : Exn + Z :=
  match v with
  | JNum z => inr z
  | JNull => inl not_null
  | _ => as_integer C v
  end.

(** An integer as the parameter of a query. *)
Definition bind_query (C : Columns) (z : Z) : Exn + Z :=
  if int64 z then inr z
  else match query_integer C z with
       | Some e => inl e
       | None => inr z
       end.

Definition put_comment (cid : Z) (c : Comment.t) (st : Store) : Store :=
  mkStore (users st) (posts st) (post_images st) (<[cid := c]> (comments st)).

Definition insert_post (pid : Z) (p : Post.t) (st : Store) : Store :=
  mkStore (users st) (<[pid := p]> (posts st)) (post_images st) (comments st).

(** [data[key]] on a JSON body whose values are not only strings. *)
Definition body_get (data : gmap string Json) (key : string) : M Json :=
  match data !! key with
  | Some v => ret v
  | None => raise (KeyError key)
  end.

(** An [Exn + A] as a step. *)
Definition lift {A} (r : Exn + A) : M A :=
  match r with
  | inl e => raise e
  | inr a => ret a
  end.

(** The primary key the next row of a table gets. *)
Definition next_post_id : M Z :=
  λ s, (inr (next_id (posts (db s)) (posts (session s))), s).

Definition next_comment_id : M Z :=
  λ s, (inr (next_id (comments (db s)) (comments (session s))), s).

(** ** The other handlers *)

Section MoreHandlers.
Context (L : Lib) (E : Env) (C : Columns).

(** GET /api/users/<user_id>/posts *)
Definition get_user_posts (user_id : Z) : M Response :=
  try_except
    (user_id <- lift (bind_query C user_id) ;;
     st <- get_session ;;
     let posts :=
       merge_sort newest_first
         (filter (λ kp, Post.user_id kp.2 = user_id) (map_to_list (posts st))) in
     ret (mkResponse 200 (PostList (to_dict st false <$> posts))))
    (λ e, ret (mkResponse 500 (ErrorOf e))).

(** POST /api/upload *)
Definition upload_image (req : Request) : M Reply :=
  match files_get (files req) "file" with
  | None => ret (mkReply 400 (Plain (Message "No file")))
  | Some file =>
      url <- smart_upload L E file ;;
      match url with
      | Some u =>
          if truthy u then ret (mkReply 200 (Uploaded u))
          else ret (mkReply 500 (Plain (Message "Upload failed")))
      | None => ret (mkReply 500 (Plain (Message "Upload failed")))
      end
  end.

(** POST /api/posts/<post_id>/comments.  The row is written by the flush
    of the commit: there the values are bound, [created_at] takes its
    default and the row gets its id. *)
Definition add_comment (post_id : Z) (data : gmap string Json) : M Reply :=
  text <- body_get data "text" ;;
  user_id <- body_get data "user_id" ;;
  text <- lift (bind_text C text) ;;
  user_id <- lift (bind_integer C user_id) ;;
  created_at <- read_clock E ;;
  cid <- next_comment_id ;;
  let new_comment := Comment.mk text user_id post_id created_at in
  set_session (put_comment cid new_comment) ;;
  commit E ;;
  st <- get_session ;;
  ret (mkReply 201 (CommentCreated (comment_to_dict st (cid, new_comment)))).

(** The flush of [new_post]: the three required columns are bound, the two
    timestamps take their defaults. *)
Definition flush_new_post (pid : Z) (title content user_id : option string)
    (image_url : option string) : M unit :=
  match title, content, user_id with
  | Some title, Some content, Some user_id =>
      user_id <- lift (form_integer C user_id) ;;
      created_at <- read_clock E ;;
      updated_at <- read_clock E ;;
      set_session (insert_post pid
        (Post.mk title content image_url user_id created_at updated_at))
  | _, _, _ => raise not_null
  end.

(** POST /api/posts *)
Definition create_post (req : Request) : M Reply :=
  try_except
    (pid <- next_post_id ;;
     image_url <- match files_get (files req) "image" with
                  | Some file => smart_upload L E file
                  | None => ret None
                  end ;;
     append_gallery_images L E pid (files_getlist (files req) "images") ;;
     flush_new_post pid (form req !! "title") (form req !! "content")
                    (form req !! "user_id") image_url ;;
     commit E ;;
     ret (mkReply 201 (Created pid)))
    (λ e, rollback ;; ret (mkReply 500 (Plain (ErrorOf e)))).

(** Flask around a handler of these endpoints, as [serve]. *)
Definition serve_reply (h : M Reply) (d : Store) (fs : gset string) : Reply * State :=
  match h (start d fs) with
  | (inr r, s) => (r, teardown s)
  | (inl NotFound, s) => (mkReply 404 (Plain (Unhandled NotFound)), teardown s)
  | (inl e, s) => (mkReply 500 (Plain (Unhandled e)), teardown s)
  end.

End MoreHandlers.

(** ** Columns for the examples: a backend that casts decimal form strings
    and refuses every other value of the wrong type *)
Module DemoColumns.

Definition columns : Columns :=
  mkColumns (λ _, inl (DatabaseError "invalid input for text"))
            (λ _, inl (DatabaseError "invalid input for integer"))
            (λ s, match Demo.decimal s with
                  | Some z => inr z
                  | None => inl (DatabaseError "invalid input for integer")
                  end)
            (λ _, Some OverflowError).

(** An environment in which neither media store nor backend fails. *)
Definition env : Env :=
  mkEnv None (λ file, inr ("https://cdn.example/" +:+ filename file)) (λ _, None)
        (λ n, 1000 + Z.of_nat n) "NaCl" (λ _, inl ArgumentError) None.

End DemoColumns.

(** * Notions used by the properties of the rest *)

(** ** Invariants of the database and the session *)

Definition on_stores (J : Store → Store → Prop) : State → Prop :=
  λ s, J (db s) (session s).

Definition keeps {A} (I : State → Prop) (m : M A) : Prop :=
  ∀ s r s', I s → m s = (r, s') → I s'.

(** What update_post may change in a store that held [d]: nothing of the
    users, the comments and the other posts; of the post itself neither
    the owner nor the creation time; no image of another post; and the
    images it adds belong to the post. *)
Definition update_frame (d : Store) (post_id : Z) (post : Post.t) (x : Store) : Prop :=
  users x = users d
  ∧ comments x = comments d
  ∧ (∀ k, k ≠ post_id → posts x !! k = posts d !! k)
  ∧ (∃ p, posts x !! post_id = Some p
          ∧ Post.user_id p = Post.user_id post
          ∧ Post.created_at p = Post.created_at post)
  ∧ (∀ i img, post_images d !! i = Some img → PostImage.post_id img ≠ post_id →
              post_images x !! i = Some img)
  ∧ (∀ i img, post_images x !! i = Some img →
              post_images d !! i = Some img ∨ PostImage.post_id img = post_id).

(** No image and no comment without its post. *)
Definition no_orphans (x : Store) : Prop :=
  (∀ i img, post_images x !! i = Some img → is_Some (posts x !! PostImage.post_id img))
  ∧ (∀ i c, comments x !! i = Some c → is_Some (posts x !! Comment.post_id c)).

(** ** Running the handlers of the rest step by step *)

Ltac run_more :=
  unfold serve_reply;
  repeat (progress (unfold body_get, lift, next_comment_id, next_post_id; run)).

(** ** create_post: what the new post adds to a store that held [d] *)

Definition create_frame (d : Store) (post_id : Z) (x : Store) : Prop :=
  users x = users d
  ∧ posts x = posts d
  ∧ comments x = comments d
  ∧ (∀ i img, post_images d !! i = Some img → post_images x !! i = Some img)
  ∧ (∀ i img, post_images x !! i = Some img →
              post_images d !! i = Some img ∨ PostImage.post_id img = post_id).

(** The hosted media store never answers with an empty URL. *)
Definition urls_nonempty (E : Env) : Prop :=
  ∀ file url, cloudinary_upload E file = inr url → url ≠ "".

(** ** migrate.py

    The script copies the table [post] of the local SQLite file into the
    PostgreSQL database.  Of that database the model keeps the table
    [post] and the sequence behind its [id]; [None] stands for a database
    in which the table does not exist yet.  Everything the script does
    there happens in one transaction, which is committed at the end or
    discarded when the connection is closed without a commit. *)

Record PgPost := mkPgPost { pg_rows : gmap Z Post.t; pg_next_id : Z }.

Inductive PgStatement :=
  | CreateTableIfNotExists
  | TruncateRestartIdentity
  | InsertPost (id : Z) (p : Post.t).

(** What can go wrong outside the script. *)
Record Faults := mkFaults {
  sqlite_connect_error : option Exn;
  pg_connect_error : option Exn;
  pg_execute_error : PgStatement → option Exn;
  sqlite_select_error : option Exn;
  pg_commit_error : option Exn }.

(** The last line the script prints. *)
Inductive MigrationReport :=
  | Moved (n : nat)           (* "搬家成功！已同步 n 条数据" *)
  | NothingFound              (* "本地数据库没找到文章数据" *)
  | MoveFailed (e : Exn).     (* "搬家失败，原因: e" *)

Definition guard (err : option Exn) : Exn + unit :=
  match err with
  | Some e => inl e
  | None => inr ()
  end.

(** One INSERT with its id given; the primary key refuses an id that is
    taken. *)
Definition pg_insert (F : Faults) (kp : Z * Post.t) (t : PgPost) : Exn + PgPost :=
  match pg_execute_error F (InsertPost kp.1 kp.2) with
  | Some e => inl e
  | None =>
      match pg_rows t !! kp.1 with
      | Some _ => inl (DatabaseError "duplicate key value")
      | None => inr (mkPgPost (<[kp.1 := kp.2]> (pg_rows t)) (pg_next_id t))
      end
  end.

(** A raised exception ends the [try] block. *)
Definition and_then {A B : Type} (r : Exn + A) (k : A → Exn + B) : Exn + B :=
  match r with
  | inl e => inl e
  | inr a => k a
  end.

(** for p in posts: INSERT *)
Fixpoint pg_insert_all (F : Faults) (posts : list (Z * Post.t)) (t : PgPost) : Exn + PgPost :=
  match posts with
  | [] => inr t
  | kp :: rest => and_then (pg_insert F kp t) (pg_insert_all F rest)
  end.

(** The body of the [try] of start_migration: what is printed at the end
    and, when the transaction was committed, the new state of the table. *)
Definition migration_body (F : Faults) (local : gmap Z Post.t) (cloud : option PgPost)
    : Exn + (MigrationReport * option PgPost) :=
  and_then (guard (sqlite_connect_error F)) (λ _,
  and_then (guard (pg_connect_error F)) (λ _,
  and_then (guard (pg_execute_error F CreateTableIfNotExists)) (λ _,
  let table := default (mkPgPost ∅ 1) cloud in
  and_then (guard (sqlite_select_error F)) (λ _,
  let posts := map_to_list local in
  if bool_decide (posts = []) then inr (NothingFound, None)
  else
    and_then (guard (pg_execute_error F TruncateRestartIdentity)) (λ _,
    let table := mkPgPost ∅ 1 in
    and_then (pg_insert_all F posts table) (λ table,
    and_then (guard (pg_commit_error F)) (λ _,
    inr (Moved (length posts), Some table)))))))).

(** start_migration(): the report and the PostgreSQL table afterwards. *)
Definition start_migration (F : Faults) (local : gmap Z Post.t) (cloud : option PgPost)
    : MigrationReport * option PgPost :=
  match migration_body F local cloud with
  | inl e => (MoveFailed e, cloud)
  | inr (report, Some table) => (report, Some table)
  | inr (report, None) => (report, cloud)
  end.

Definition no_faults : Faults := mkFaults None None (λ _, None) None None.

(** The pairs of committed rows and session rows that update_post and
    create_post move between while they run. *)
Definition update_frames (d : Store) (post_id : Z) (post : Post.t) : Store → Store → Prop :=
  λ a b, update_frame d post_id post a ∧ update_frame d post_id post b.

Definition create_frames (d : Store) (post_id : Z) : Store → Store → Prop :=
  λ a b, a = d ∧ create_frame d post_id b.

(** ** Files of the local media store

    The URLs for which remove_physical_file goes to the disk: the
    non-empty ones that do not start with [http]. *)
Definition stored_locally (url : string) : bool :=
  negb (negb (truthy url) || String.prefix "http" url).

(** The images that a [delete_image_ids] list selects for a post. *)
Definition listed (ids : list Z) (post_id : Z) (i : Z) (img : PostImage.t) : Prop :=
  i ∈ ids ∧ PostImage.post_id img = post_id.

(** * Properties *)

(** ** The stand-ins on the texts of the examples *)

Example demo_json_loads_ids : Demo.json_loads "[1,2]" = Some (JArr [JNum 1; JNum 2]).
Proof. reflexivity. Qed.

Example demo_json_loads_oops : Demo.json_loads "oops" = None.
Proof. reflexivity. Qed.

Example demo_py_int : Demo.py_int "12" = Some 12 ∧ Demo.py_int "abc" = None.
Proof. split; reflexivity. Qed.

Example like_wildcards :
  like "%a_c%" "xxabcxx" = true ∧ like "%a_c%" "xxacxx" = false ∧ ilike "PARIS, je t'aime" "%paris%" = true.
Proof. repeat split; reflexivity. Qed.

(** ** The flush at commit *)

Lemma touch_same t (committed : gmap Z Post.t) k p :
  committed !! k = Some p → touch t committed k p = p.
Proof. intros H. unfold touch. rewrite H. by rewrite decide_True. Qed.

Lemma touch_image_url t (committed : gmap Z Post.t) k p :
  Post.image_url (touch t committed k p) = Post.image_url p.
Proof. unfold touch. destruct (committed !! k); [case_decide|]; done. Qed.

Lemma flushed_posts_lookup t committed pending k :
  posts (flushed t committed pending) !! k
  = touch t (posts committed) k <$> posts pending !! k.
Proof. simpl. rewrite map_lookup_imap. by destruct (posts pending !! k). Qed.

(** A flush that finds no post changed writes the session as it is. *)
Lemma flushed_untouched t committed pending :
  (∀ k p, posts pending !! k = Some p → posts committed !! k = Some p) →
  flushed t committed pending = pending.
Proof.
  intros H. destruct pending as [us ps ims cs]. unfold flushed. simpl in *. f_equal.
  apply map_eq. intros k. rewrite map_lookup_imap.
  destruct (ps !! k) as [p|] eqn:Hk; simpl; [|done].
  f_equal. apply touch_same. auto.
Qed.

(** ** get_post_detail *)

Lemma get_post_detail_missing d fs post_id :
  posts d !! post_id = None →
  serve (get_post_detail post_id) d fs
  = (mkResponse 500 (ErrorOf NotFound), mkState d d fs 0 [] [NotFound]).
Proof.
  intros H. unfold get_post_detail. run. rewrite H. by run.
Qed.

Lemma get_post_detail_found d fs post_id post :
  posts d !! post_id = Some post →
  serve (get_post_detail post_id) d fs
  = (mkResponse 200 (PostDetail (to_dict d true (post_id, post))), start d fs).
Proof.
  intros H. unfold get_post_detail. run. rewrite H. by run.
Qed.

(** C1, at a post id that has no row: the handler answers 500, not 404.
    [get_or_404] raises NotFound inside the [try], and the
    [except Exception] clause of the handler turns it into the 500 reply. *)
Theorem get_post_detail_missing_is_500 :
  (serve (get_post_detail 7) Demo.store Demo.files_on_disk).1
  = mkResponse 500 (ErrorOf NotFound).
Proof. by rewrite get_post_detail_missing. Qed.

(** ** delete_post *)

Lemma delete_post_owner L E d fs post_id req post :
  posts d !! post_id = Some post →
  get_int L (args req) "user_id" = Some (Post.user_id post) →
  commit_error E = None →
  serve (delete_post L E post_id req) d fs
  = (mkResponse 200 (Message "Deleted"),
     let d' := delete_post_cascade post_id d in mkState d' d' fs 1 [] []).
Proof.
  intros Hp Hu Hc.
  unfold delete_post. run. rewrite Hp. run.
  rewrite Hu, bool_decide_false by naive_solver. run. rewrite Hc. run.
  rewrite flushed_untouched; [done|].
  simpl. intros k p Hk. apply lookup_delete_Some in Hk. tauto.
Qed.

(** C3: deleting a post, requested by its owner and committed by the
    backend, removes the post and leaves no image row and no comment row
    that refers to it; the rows of the other posts stay. *)
Theorem delete_post_leaves_no_orphans L E d fs post_id req post r s' :
  posts d !! post_id = Some post →
  get_int L (args req) "user_id" = Some (Post.user_id post) →
  commit_error E = None →
  serve (delete_post L E post_id req) d fs = (r, s') →
  status r = 200
  ∧ posts (db s') !! post_id = None
  ∧ (∀ i img, post_images (db s') !! i = Some img → PostImage.post_id img ≠ post_id)
  ∧ (∀ i c, comments (db s') !! i = Some c → Comment.post_id c ≠ post_id)
  ∧ (∀ k, k ≠ post_id → posts (db s') !! k = posts d !! k)
  ∧ (∀ i img, PostImage.post_id img ≠ post_id →
       post_images d !! i = Some img → post_images (db s') !! i = Some img)
  ∧ (∀ i c, Comment.post_id c ≠ post_id →
       comments d !! i = Some c → comments (db s') !! i = Some c)
  ∧ users (db s') = users d.
Proof.
  intros Hp Hu Hc Hrun. rewrite (delete_post_owner _ _ _ _ _ _ post) in Hrun by done.
  simplify_eq/=. split_and!; try done.
  - apply lookup_delete_eq.
  - intros i img Hi. by apply map_lookup_filter_Some in Hi as [_ ?].
  - intros i c Hi. by apply map_lookup_filter_Some in Hi as [_ ?].
  - intros k Hk. by apply lookup_delete_ne.
  - intros i img Hne Hi. by apply map_lookup_filter_Some.
  - intros i c Hne Hi. by apply map_lookup_filter_Some.
Qed.

Lemma delete_post_leaves_no_orphans_witness :
  let out := serve (delete_post Demo.lib Demo.env 1 (Demo.request [("user_id", "1")] [] [] []))
                   Demo.store Demo.files_on_disk in
  status out.1 = 200
  ∧ posts (db out.2) !! 1 = None
  ∧ (∀ i img, post_images (db out.2) !! i = Some img → PostImage.post_id img ≠ 1)
  ∧ (∀ i c, comments (db out.2) !! i = Some c → Comment.post_id c ≠ 1)
  ∧ (∀ k, k ≠ 1 → posts (db out.2) !! k = posts Demo.store !! k)
  ∧ (∀ i img, PostImage.post_id img ≠ 1 →
       post_images Demo.store !! i = Some img → post_images (db out.2) !! i = Some img)
  ∧ (∀ i c, Comment.post_id c ≠ 1 →
       comments Demo.store !! i = Some c → comments (db out.2) !! i = Some c)
  ∧ users (db out.2) = users Demo.store.
Proof.
  intros out.
  apply (delete_post_leaves_no_orphans Demo.lib Demo.env Demo.store Demo.files_on_disk 1
           (Demo.request [("user_id", "1")] [] [] []) Demo.paris out.1 out.2).
  - reflexivity.
  - reflexivity.
  - reflexivity.
  - apply surjective_pairing.
Defined.

(** ** update_post: the ownership check *)

Lemma update_post_denied L E d fs post_id req post :
  posts d !! post_id = Some post →
  get_int L (form req) "user_id" ≠ Some (Post.user_id post) →
  serve (update_post L E post_id req) d fs
  = (mkResponse 403 (Message "Permission denied"), start d fs).
Proof.
  intros Hp Hu. unfold update_post. run. rewrite Hp. run.
  by rewrite bool_decide_true by done.
Qed.

Lemma update_post_missing L E d fs post_id req :
  posts d !! post_id = None →
  serve (update_post L E post_id req) d fs
  = (mkResponse 404 (Unhandled NotFound), mkState d d fs 0 [] [NotFound]).
Proof. intros Hp. unfold update_post. run. rewrite Hp. by run. Qed.

(** C4: when the [user_id] of the form is not the owner of the post (or is
    missing, or is no integer), update_post answers 403 and nothing has
    happened: the post, its images, the whole database and the files are
    as before. *)
Theorem update_post_non_owner_forbidden L E d fs post_id req post r s' :
  posts d !! post_id = Some post →
  get_int L (form req) "user_id" ≠ Some (Post.user_id post) →
  serve (update_post L E post_id req) d fs = (r, s') →
  r = mkResponse 403 (Message "Permission denied")
  ∧ posts (db s') !! post_id = Some post
  ∧ post_images (db s') = post_images d
  ∧ db s' = d
  ∧ disk s' = fs.
Proof.
  intros Hp Hu Hrun. rewrite (update_post_denied _ _ _ _ _ _ post) in Hrun by done.
  by simplify_eq/=.
Qed.

Lemma update_post_non_owner_forbidden_witness :
  let req := Demo.request [] [("user_id", "2"); ("title", "Mine now"); ("delete_cover", "true");
                              ("delete_image_ids", "[1,2]")] [] [] in
  let out := serve (update_post Demo.lib Demo.env 1 req) Demo.store Demo.files_on_disk in
  out.1 = mkResponse 403 (Message "Permission denied")
  ∧ posts (db out.2) !! 1 = Some Demo.paris
  ∧ post_images (db out.2) = post_images Demo.store
  ∧ db out.2 = Demo.store
  ∧ disk out.2 = Demo.files_on_disk.
Proof.
  intros req out.
  apply (update_post_non_owner_forbidden Demo.lib Demo.env Demo.store Demo.files_on_disk 1
           req Demo.paris out.1 out.2).
  - reflexivity.
  - vm_compute. discriminate.
  - apply surjective_pairing.
Defined.

(** ** delete_comment *)

Lemma delete_comment_allowed L E d fs comment_id req c p :
  comments d !! comment_id = Some c →
  posts d !! Comment.post_id c = Some p →
  get_int L (args req) "user_id" ∈ [Some (Comment.user_id c); Some (Post.user_id p)] →
  commit_error E = None →
  serve (delete_comment L E comment_id req) d fs
  = (mkResponse 200 (Message "Deleted"),
     let d' := delete_comment_row comment_id d in mkState d' d' fs 1 [] []).
Proof.
  intros Hc Hp Hu Hok. unfold delete_comment. run. rewrite Hc. run. rewrite Hp. run.
  rewrite bool_decide_true by done. run. rewrite Hok. run.
  by rewrite flushed_untouched.
Qed.

Lemma delete_comment_denied L E d fs comment_id req c p :
  comments d !! comment_id = Some c →
  posts d !! Comment.post_id c = Some p →
  get_int L (args req) "user_id" ∉ [Some (Comment.user_id c); Some (Post.user_id p)] →
  serve (delete_comment L E comment_id req) d fs
  = (mkResponse 403 (Message "Denied"), start d fs).
Proof.
  intros Hc Hp Hu. unfold delete_comment. run. rewrite Hc. run. rewrite Hp. run.
  by rewrite bool_decide_false by done.
Qed.

(** C5: for a comment whose post exists, delete_comment succeeds exactly
    when the [user_id] of the query is the author of the comment or the
    owner of the post.  Then the comment row is deleted and nothing else
    changes; in every other case the answer is 403 and the database is as
    before.  (Success supposes that the backend accepts the commit.) *)
Theorem delete_comment_authorization L E d fs comment_id req c p r s' :
  comments d !! comment_id = Some c →
  posts d !! Comment.post_id c = Some p →
  commit_error E = None →
  serve (delete_comment L E comment_id req) d fs = (r, s') →
  let authorized :=
    get_int L (args req) "user_id" = Some (Comment.user_id c)
    ∨ get_int L (args req) "user_id" = Some (Post.user_id p) in
  (status r = 200 ↔ authorized)
  ∧ (authorized →
       r = mkResponse 200 (Message "Deleted")
       ∧ comments (db s') = delete comment_id (comments d)
       ∧ posts (db s') = posts d ∧ post_images (db s') = post_images d
       ∧ users (db s') = users d)
  ∧ (¬ authorized →
       r = mkResponse 403 (Message "Denied") ∧ db s' = d).
Proof.
  intros Hc Hp Hok Hrun authorized.
  assert (Hauth : authorized ↔
    get_int L (args req) "user_id" ∈ [Some (Comment.user_id c); Some (Post.user_id p)]).
  { unfold authorized. rewrite !elem_of_cons, elem_of_nil. tauto. }
  destruct (decide (get_int L (args req) "user_id"
                    ∈ [Some (Comment.user_id c); Some (Post.user_id p)])) as [Hin|Hout].
  - rewrite (delete_comment_allowed _ _ _ _ _ _ c p) in Hrun by done.
    simplify_eq/=. rewrite Hauth. tauto.
  - rewrite (delete_comment_denied _ _ _ _ _ _ c p) in Hrun by done.
    simplify_eq/=. rewrite Hauth. split_and!; [split; [done|tauto] | tauto | done].
Qed.

(** Bob's comment 1 on Alice's post 1: Alice, the post owner, may delete
    it; user 3 may not. *)
Lemma delete_comment_authorization_witness :
  let run uid := serve (delete_comment Demo.lib Demo.env 1
                          (Demo.request [("user_id", uid)] [] [] []))
                       Demo.store Demo.files_on_disk in
  (status (run "1").1 = 200 ∧ comments (db (run "1").2) !! 1 = None)
  ∧ (status (run "3").1 = 403 ∧ db (run "3").2 = Demo.store).
Proof.
  intros run. split.
  - destruct (delete_comment_authorization Demo.lib Demo.env Demo.store Demo.files_on_disk 1
                (Demo.request [("user_id", "1")] [] [] [])
                (Comment.mk "Nice" 2 1 11) Demo.paris (run "1").1 (run "1").2)
      as (_ & Hyes & _).
    + reflexivity.
    + reflexivity.
    + reflexivity.
    + apply surjective_pairing.
    + destruct Hyes as (-> & -> & _); [by right|].
      split; [reflexivity | apply lookup_delete_eq].
  - destruct (delete_comment_authorization Demo.lib Demo.env Demo.store Demo.files_on_disk 1
                (Demo.request [("user_id", "3")] [] [] [])
                (Comment.mk "Nice" 2 1 11) Demo.paris (run "3").1 (run "3").2)
      as (_ & _ & Hno).
    + reflexivity.
    + reflexivity.
    + reflexivity.
    + apply surjective_pairing.
    + destruct Hno as (-> & ->); [|done].
      vm_compute. intros [?|?]; discriminate.
Defined.

(** C5 as stated does not hold of every existing comment.  add_comment
    stores a comment on post 77, which does not exist; the author of that
    comment then asks for its deletion and is not answered with success. *)
Lemma delete_comment_author_refused :
  ¬ (∀ L E d fs comment_id req c r s',
       comments d !! comment_id = Some c →
       commit_error E = None →
       get_int L (args req) "user_id" = Some (Comment.user_id c) →
       serve (delete_comment L E comment_id req) d fs = (r, s') →
       status r = 200).
Proof.
  intros Hclaim.
  pose (added := serve_reply (add_comment Demo.env DemoColumns.columns 77
                                {[ "text" := JStr "First!"; "user_id" := JNum 9 ]})
                             Demo.store Demo.files_on_disk).
  assert (Hadded : code added.1 = 201) by (vm_compute; reflexivity).
  pose (req := Demo.request [("user_id", "9")] [] [] []).
  pose (out := serve (delete_comment Demo.lib Demo.env 4 req)
                     (db added.2) (disk added.2)).
  assert (H200 : status out.1 = 200).
  { apply (Hclaim Demo.lib Demo.env (db added.2) (disk added.2) 4 req
                  (Comment.mk "First!" 9 77 1000) out.1 out.2).
    - vm_compute. reflexivity.
    - reflexivity.
    - reflexivity.
    - apply surjective_pairing. }
  vm_compute in H200. discriminate.
Qed.

(** C9, for a comment whose post exists: a delete_comment request whose
    query has no [user_id], or one that [int] rejects, is answered 403 and
    leaves the comment (and the whole database) in place: [None] is neither
    of the two user ids, which are columns that are never null. *)
Theorem delete_comment_without_user_id L E d fs comment_id req c p r s' :
  comments d !! comment_id = Some c →
  posts d !! Comment.post_id c = Some p →
  (args req !! "user_id" = None
   ∨ ∃ v, args req !! "user_id" = Some v ∧ py_int L v = None) →
  serve (delete_comment L E comment_id req) d fs = (r, s') →
  r = mkResponse 403 (Message "Denied")
  ∧ comments (db s') !! comment_id = Some c
  ∧ db s' = d.
Proof.
  intros Hc Hp Harg Hrun.
  assert (Hnone : get_int L (args req) "user_id" = None).
  { unfold get_int. destruct Harg as [Ha|(v & Ha & Hv)]; rewrite Ha; [done|exact Hv]. }
  rewrite (delete_comment_denied _ _ _ _ _ _ c p) in Hrun; [by simplify_eq/=|done..|].
  rewrite Hnone, !elem_of_cons, elem_of_nil. intros [?|[?|[]]]; discriminate.
Qed.

Lemma delete_comment_without_user_id_witness :
  let run args := serve (delete_comment Demo.lib Demo.env 2 (Demo.request args [] [] []))
                        Demo.store Demo.files_on_disk in
  ((run []).1 = mkResponse 403 (Message "Denied")
   ∧ comments (db (run []).2) !! 2 = Some (Comment.mk "Thanks" 1 1 12)
   ∧ db (run []).2 = Demo.store)
  ∧ ((run [("user_id", "me")]).1 = mkResponse 403 (Message "Denied")
     ∧ comments (db (run [("user_id", "me")]).2) !! 2 = Some (Comment.mk "Thanks" 1 1 12)
     ∧ db (run [("user_id", "me")]).2 = Demo.store).
Proof.
  intros run. split.
  - apply (delete_comment_without_user_id Demo.lib Demo.env Demo.store Demo.files_on_disk 2
             (Demo.request [] [] [] []) (Comment.mk "Thanks" 1 1 12) Demo.paris).
    + reflexivity.
    + reflexivity.
    + left. reflexivity.
    + apply surjective_pairing.
  - apply (delete_comment_without_user_id Demo.lib Demo.env Demo.store Demo.files_on_disk 2
             (Demo.request [("user_id", "me")] [] [] []) (Comment.mk "Thanks" 1 1 12) Demo.paris).
    + reflexivity.
    + reflexivity.
    + right. exists "me". split; reflexivity.
    + apply surjective_pairing.
Defined.

(** C9 as stated does not hold of every existing comment either: a request
    without [user_id] for the comment that add_comment stored on the
    missing post 77 is not answered 403. *)
Lemma delete_comment_without_user_id_not_403 :
  ¬ (∀ L E d fs comment_id req c r s',
       comments d !! comment_id = Some c →
       args req !! "user_id" = None →
       serve (delete_comment L E comment_id req) d fs = (r, s') →
       status r = 403).
Proof.
  intros Hclaim.
  pose (added := serve_reply (add_comment Demo.env DemoColumns.columns 77
                                {[ "text" := JStr "First!"; "user_id" := JNum 9 ]})
                             Demo.store Demo.files_on_disk).
  pose (req := Demo.request [] [] [] []).
  pose (out := serve (delete_comment Demo.lib Demo.env 4 req)
                     (db added.2) (disk added.2)).
  assert (H403 : status out.1 = 403).
  { apply (Hclaim Demo.lib Demo.env (db added.2) (disk added.2) 4 req
                  (Comment.mk "First!" 9 77 1000) out.1 out.2).
    - vm_compute. reflexivity.
    - reflexivity.
    - apply surjective_pairing. }
  vm_compute in H403. discriminate.
Qed.

(** ** register and login *)

Lemma by_id_elem_of {A} (m : gmap Z A) k x : (k, x) ∈ by_id m ↔ m !! k = Some x.
Proof. unfold by_id. rewrite merge_sort_Permutation. apply elem_of_map_to_list. Qed.

Lemma by_id_nil {A} (m : gmap Z A) : by_id m = [] ↔ m = ∅.
Proof.
  unfold by_id. split.
  - intros H. apply map_to_list_empty_iff, Permutation_nil_r.
    by rewrite <- H, merge_sort_Permutation.
  - intros ->. by rewrite map_to_list_empty.
Qed.

Lemma find_user_Some st name uid u :
  find_user st name = Some (uid, u) → users st !! uid = Some u ∧ User.username u = name.
Proof.
  unfold find_user. intros H. apply head_Some_elem_of in H.
  apply by_id_elem_of, map_lookup_filter_Some in H. tauto.
Qed.

Lemma find_user_None st name :
  find_user st name = None ↔ ∀ uid u, users st !! uid = Some u → User.username u ≠ name.
Proof.
  unfold find_user. rewrite head_None, by_id_nil, map_empty_filter.
  unfold map_Forall. simpl. done.
Qed.

Lemma foldr_max_ge (l : list Z) k : k ∈ l → k ≤ foldr Z.max 0 l.
Proof. induction 1; simpl; lia. Qed.

Lemma max_key_ge {A} (m : gmap Z A) k : is_Some (m !! k) → k ≤ max_key m.
Proof.
  intros [x Hx]. apply foldr_max_ge, list_elem_of_fmap.
  exists (k, x). split; [done|]. by apply elem_of_map_to_list.
Qed.

Lemma next_id_fresh {A} (committed pending : gmap Z A) :
  committed !! next_id committed pending = None
  ∧ pending !! next_id committed pending = None.
Proof.
  split; apply eq_None_not_Some; intros H%max_key_ge; unfold next_id in H; lia.
Qed.

Lemma register_taken L E d fs req name :
  json req !! "username" = Some name →
  is_Some (find_user d name) →
  serve (register L E req) d fs
  = (mkResponse 400 (Message "User already exists"), start d fs).
Proof.
  intros Hn Hf. unfold register. run. rewrite Hn. run. by rewrite bool_decide_true.
Qed.

Lemma register_fresh L E d fs req name pw :
  json req !! "username" = Some name →
  json req !! "password" = Some pw →
  find_user d name = None →
  commit_error E = None →
  serve (register L E req) d fs
  = (mkResponse 201 (Message "Registration successful"),
     let d' := put_user (next_id (users d) (users d))
                 (User.mk name (generate_password_hash L (gen_salt E) pw)) d in
     mkState d' d' fs 1 [] []).
Proof.
  intros Hn Hp Hf Hok. unfold register. run. rewrite Hn. run.
  rewrite bool_decide_false by (rewrite Hf; by intros [? ?]).
  rewrite Hp. run. rewrite Hok. run. by rewrite flushed_untouched.
Qed.

(** C6: registering a username that some user row already carries is
    answered 400 and changes nothing, so the stored row keeps its password
    hash.  Registering a fresh username (the backend accepting the commit)
    is answered 201 and adds one user row under a new id, whose password
    field is what [generate_password_hash] returns for the password, and
    leaves every other row as it was. *)
Theorem register_conflict_or_hashed L E d fs req name r s' :
  json req !! "username" = Some name →
  serve (register L E req) d fs = (r, s') →
  ((∃ uid u, users d !! uid = Some u ∧ User.username u = name) →
     r = mkResponse 400 (Message "User already exists") ∧ db s' = d)
  ∧ ((∀ uid u, users d !! uid = Some u → User.username u ≠ name) →
     ∀ pw, json req !! "password" = Some pw → commit_error E = None →
     r = mkResponse 201 (Message "Registration successful")
     ∧ ∃ uid, users d !! uid = None
         ∧ users (db s')
           = <[uid := User.mk name (generate_password_hash L (gen_salt E) pw)]> (users d)
         ∧ posts (db s') = posts d
         ∧ post_images (db s') = post_images d
         ∧ comments (db s') = comments d).
Proof.
  intros Hn Hrun. split.
  - intros (uid & u & Hu & Hname).
    rewrite (register_taken _ _ _ _ _ name) in Hrun; [by simplify_eq/=|done|].
    destruct (find_user d name) eqn:Hf; [done|].
    rewrite find_user_None in Hf. by destruct (Hf uid u).
  - intros Hfresh pw Hp Hok. apply find_user_None in Hfresh.
    rewrite (register_fresh _ _ _ _ _ name pw) in Hrun by done.
    simplify_eq/=. split; [done|].
    exists (next_id (users d) (users d)). split_and!; try done.
    apply next_id_fresh.
Qed.

(** Registering "alice" again is refused; registering "carol" stores the
    hash of her password. *)
Lemma register_conflict_or_hashed_witness :
  let run name pw := serve (register Demo.lib Demo.env
                              (Demo.request [] [] [] [("username", name); ("password", pw)]))
                           Demo.store Demo.files_on_disk in
  ((run "alice" "rabbit").1 = mkResponse 400 (Message "User already exists")
   ∧ db (run "alice" "rabbit").2 = Demo.store)
  ∧ ((run "carol" "s3cret").1 = mkResponse 201 (Message "Registration successful")
     ∧ ∃ uid, users Demo.store !! uid = None
         ∧ users (db (run "carol" "s3cret").2)
           = <[uid := User.mk "carol" (Demo.generate_password_hash "NaCl" "s3cret")]>
               (users Demo.store)
         ∧ posts (db (run "carol" "s3cret").2) = posts Demo.store
         ∧ post_images (db (run "carol" "s3cret").2) = post_images Demo.store
         ∧ comments (db (run "carol" "s3cret").2) = comments Demo.store).
Proof.
  intros run. split.
  - destruct (register_conflict_or_hashed Demo.lib Demo.env Demo.store Demo.files_on_disk
                (Demo.request [] [] [] [("username", "alice"); ("password", "rabbit")])
                "alice" (run "alice" "rabbit").1 (run "alice" "rabbit").2) as [Htaken _].
    + reflexivity.
    + apply surjective_pairing.
    + apply Htaken. exists 1, Demo.alice. split; reflexivity.
  - destruct (register_conflict_or_hashed Demo.lib Demo.env Demo.store Demo.files_on_disk
                (Demo.request [] [] [] [("username", "carol"); ("password", "s3cret")])
                "carol" (run "carol" "s3cret").1 (run "carol" "s3cret").2) as [_ Hfresh].
    + reflexivity.
    + apply surjective_pairing.
    + apply (Hfresh (proj1 (find_user_None Demo.store "carol") eq_refl) "s3cret");
        reflexivity.
Defined.

Lemma login_found L d fs req name pw uid user :
  json req !! "username" = Some name →
  json req !! "password" = Some pw →
  find_user d name = Some (uid, user) →
  serve (login L req) d fs
  = (if check_password_hash L (User.password user) pw
     then mkResponse 200 (LoginOk uid (User.username user))
     else mkResponse 401 (Message "Invalid credentials"),
     start d fs).
Proof.
  intros Hname Hpw Hf. unfold login. run. rewrite Hname. run. rewrite Hf, Hpw. run.
  by destruct (check_password_hash _ _ _).
Qed.

Lemma login_unknown L d fs req name :
  json req !! "username" = Some name →
  find_user d name = None →
  serve (login L req) d fs
  = (mkResponse 401 (Message "Invalid credentials"), start d fs).
Proof. intros Hname Hf. unfold login. run. rewrite Hname. run. by rewrite Hf. Qed.

(** C7: for a request with a username and a password, login answers 200
    only when a user row with that username exists whose stored hash
    [check_password_hash] accepts for the password, and the reply then
    carries the id and the username of that row; when no such row exists
    the answer is 401, and no other answer is possible.  Nothing is
    written. *)
Theorem login_only_with_verified_hash L d fs req name pw r s' :
  json req !! "username" = Some name →
  json req !! "password" = Some pw →
  serve (login L req) d fs = (r, s') →
  let verified uid u :=
    users d !! uid = Some u ∧ User.username u = name
    ∧ check_password_hash L (User.password u) pw = true in
  (status r = 200 → ∃ uid u, verified uid u ∧ r = mkResponse 200 (LoginOk uid name))
  ∧ ((¬ ∃ uid u, verified uid u) → r = mkResponse 401 (Message "Invalid credentials"))
  ∧ (status r ≠ 200 → r = mkResponse 401 (Message "Invalid credentials"))
  ∧ db s' = d.
Proof.
  intros Hname Hpw Hrun verified.
  destruct (find_user d name) as [[uid u]|] eqn:Hf.
  - rewrite (login_found _ _ _ _ name pw uid u) in Hrun by done.
    apply find_user_Some in Hf as [Hu Hun].
    destruct (check_password_hash L (User.password u) pw) eqn:Hck; simplify_eq/=.
    + split_and!; try done.
      * intros _. by exists uid, u.
      * intros Hno. destruct Hno. by exists uid, u.
    + split_and!; done.
  - rewrite (login_unknown _ _ _ _ name) in Hrun by done. simplify_eq/=.
    split_and!; done.
Qed.

(** Alice with her password is let in; with another password she is not. *)
Lemma login_only_with_verified_hash_witness :
  let run pw := serve (login Demo.lib
                         (Demo.request [] [] [] [("username", "alice"); ("password", pw)]))
                      Demo.store Demo.files_on_disk in
  (∃ uid u, (users Demo.store !! uid = Some u ∧ User.username u = "alice"
             ∧ check_password_hash Demo.lib (User.password u) "wonderland" = true)
            ∧ (run "wonderland").1 = mkResponse 200 (LoginOk uid "alice"))
  ∧ (run "looking glass").1 = mkResponse 401 (Message "Invalid credentials").
Proof.
  intros run. split.
  - destruct (login_only_with_verified_hash Demo.lib Demo.store Demo.files_on_disk
                (Demo.request [] [] [] [("username", "alice"); ("password", "wonderland")])
                "alice" "wonderland" (run "wonderland").1 (run "wonderland").2) as (Hok & _).
    + reflexivity.
    + reflexivity.
    + apply surjective_pairing.
    + apply Hok. reflexivity.
  - destruct (login_only_with_verified_hash Demo.lib Demo.store Demo.files_on_disk
                (Demo.request [] [] [] [("username", "alice"); ("password", "looking glass")])
                "alice" "looking glass" (run "looking glass").1 (run "looking glass").2)
      as (_ & _ & Hbad & _).
    + reflexivity.
    + reflexivity.
    + apply surjective_pairing.
    + apply Hbad. vm_compute. discriminate.
Defined.

(** With unique usernames the converse holds as well: credentials that
    verify are accepted. *)
Lemma login_accepts_verified_hash L d fs req uid u pw :
  usernames_unique d →
  json req !! "username" = Some (User.username u) →
  json req !! "password" = Some pw →
  users d !! uid = Some u →
  check_password_hash L (User.password u) pw = true →
  (serve (login L req) d fs).1 = mkResponse 200 (LoginOk uid (User.username u)).
Proof.
  intros Huniq Hname Hpw Hu Hck.
  destruct (find_user d (User.username u)) as [[uid' u']|] eqn:Hf.
  - rewrite (login_found _ _ _ _ (User.username u) pw uid' u') by done.
    apply find_user_Some in Hf as [Hu' Hun].
    assert (uid' = uid) as -> by eauto. simplify_eq. by rewrite Hck.
  - rewrite find_user_None in Hf. by destruct (Hf uid u).
Qed.

Lemma frame_refl {A} (a : A) s : frame (inr a) s s.
Proof. by repeat split. Qed.

Lemma frame_trans {A B} (a : A) (r : Exn + B) s1 s2 s3 :
  frame (inr a) s1 s2 → frame r s2 s3 → frame r s1 s3.
Proof.
  intros (Hd & Hp & Ho & Hr) (Hd' & Hp' & Ho' & Hr'). split_and!; try congruence.
  - by etrans.
  - rewrite Hr'. by destruct r; rewrite Hr.
Qed.

Lemma plain_ret {A} (a : A) : plain (ret a).
Proof. intros s r s' [= <- <-]. apply frame_refl. Qed.

Lemma plain_raise {A} e : plain (@raise A e).
Proof. intros s r s' [= <- <-]. by repeat split. Qed.

Lemma plain_bind {A B} (m : M A) (k : A → M B) :
  plain m → (∀ a, plain (k a)) → plain (bind m k).
Proof.
  intros Hm Hk s r s'. unfold bind. destruct (m s) as [[e|a] s1] eqn:Hms.
  - intros [= <- <-]. by apply (Hm _ _ _ Hms).
  - intros Hks. eapply frame_trans; [by apply (Hm _ _ _ Hms) | by apply (Hk a)].
Qed.

Lemma plain_for_each {A} (l : list A) (f : A → M unit) :
  (∀ x, plain (f x)) → plain (for_each l f).
Proof.
  intros Hf. induction l as [|x l IH]; simpl; [apply plain_ret|].
  apply plain_bind; auto.
Qed.

Lemma plain_set_disk f : plain (set_disk f).
Proof. intros s r s' [= <- <-]. by repeat split. Qed.

Lemma plain_print ev : plain (print ev).
Proof. intros s r s' [= <- <-]. repeat split. by apply suffix_cons_r. Qed.

Lemma plain_read_clock E : plain (read_clock E).
Proof. intros s r s' [= <- <-]. by repeat split. Qed.

Lemma plain_delete_image i : plain (set_session (delete_image i)).
Proof. intros s r s' [= <- <-]. by repeat split. Qed.

Lemma plain_add_image i : plain (add_image i).
Proof. intros s r s' [= <- <-]. by repeat split. Qed.

Lemma plain_get_session (k : Store → M unit) : (∀ st, plain (k st)) → plain (bind get_session k).
Proof. intros Hk. apply plain_bind; [|done]. intros s r s' [= <- <-]. apply frame_refl. Qed.

Lemma plain_remove_physical_file url : plain (remove_physical_file url).
Proof.
  unfold remove_physical_file. destruct (_ || _); [apply plain_ret | apply plain_set_disk].
Qed.

Lemma plain_smart_upload L E file : plain (smart_upload L E file).
Proof.
  unfold smart_upload. destruct (negb _); [apply plain_ret|].
  destruct (getenv_truthy _).
  - destruct (cloudinary_upload E file); [apply plain_raise | apply plain_ret].
  - apply plain_bind; [apply plain_read_clock|]. intros t.
    destruct (file_save E _); [apply plain_raise|].
    apply plain_bind; [apply plain_set_disk|]. intros _. apply plain_ret.
Qed.

Lemma plain_append_gallery_images L E post_id gallery_files :
  plain (append_gallery_images L E post_id gallery_files).
Proof.
  apply plain_for_each. intros file.
  apply plain_bind; [apply plain_smart_upload|]. intros [u|]; [|apply plain_ret].
  destruct (truthy u); [apply plain_add_image | apply plain_ret].
Qed.

Lemma plain_remove_gallery_images L E post_id removed_ids_json :
  plain (remove_gallery_images L E post_id removed_ids_json).
Proof.
  unfold remove_gallery_images.
  destruct (json_loads L _) as [v|]; [|apply plain_raise].
  destruct (json_truthy v); [|apply plain_ret].
  destruct (in_ids E v) as [e|ids]; [apply plain_raise|].
  apply plain_get_session. intros st.
  apply plain_bind; [|intros _; apply plain_print].
  apply plain_for_each. intros img.
  apply plain_bind; [apply plain_remove_physical_file|]. intros _. apply plain_delete_image.
Qed.

(** ** update_post: the steps after the ownership check *)

Lemma bind_inv {A B} (m : M A) (k : A → M B) s r s' :
  bind m k s = (r, s') →
  (∃ e, m s = (inl e, s') ∧ r = inl e)
  ∨ (∃ a s1, m s = (inr a, s1) ∧ k a s1 = (r, s')).
Proof.
  unfold bind. destruct (m s) as [[e|a] s1]; intros H.
  - left. exists e. by simplify_eq.
  - right. by exists a, s1.
Qed.

Lemma serve_inv h d fs r s' :
  serve h d fs = (r, s') →
  ∃ out s, h (start d fs) = (out, s) ∧ s' = teardown s
           ∧ match out with inr r0 => r = r0 | inl _ => status r ≠ 200 end.
Proof.
  unfold serve. destruct (h (start d fs)) as [[e|r0] s]; intros H.
  - exists (inl e), s. by destruct e; simplify_eq/=.
  - exists (inr r0), s. by simplify_eq.
Qed.

(** What [smart_upload] returns depends on the state through the clock only. *)
Lemma smart_upload_value L E file s s0 :
  ticks s = ticks s0 → (smart_upload L E file s).1 = (smart_upload L E file s0).1.
Proof.
  intros Ht. unfold smart_upload. destruct (negb _); [done|].
  destruct (getenv_truthy _).
  - by destruct (cloudinary_upload E file).
  - run. rewrite Ht. by destruct (file_save E _).
Qed.

(** For a file with a name, [smart_upload] returns a URL or raises. *)
Lemma smart_upload_named L E file s url :
  truthy (filename file) = true →
  (smart_upload L E file s).1 = inr url → is_Some url.
Proof.
  intros Hn. unfold smart_upload. rewrite Hn. cbn [negb].
  destruct (getenv_truthy _).
  - destruct (cloudinary_upload E file); run; intros [= <-]; eauto.
  - run. destruct (file_save E _); run; intros [= <-]; eauto.
Qed.

(** Step 3 inside its [try]: it always returns, keeps the database and the
    posts, and an exception it met is printed. *)
Lemma gallery_try L E post_id removed_ids_json s r s' :
  try_except (remove_gallery_images L E post_id removed_ids_json)
             (λ e, print (PrintGalleryFailed e)) s = (r, s') →
  r = inr ()
  ∧ db s' = db s
  ∧ posts (session s') = posts (session s)
  ∧ (raised s' = raised s
     ∨ ∃ e, raised s' = e :: raised s ∧ PrintGalleryFailed e ∈ stdout s').
Proof.
  unfold try_except.
  destruct (remove_gallery_images L E post_id removed_ids_json s) as [[e|[]] s1] eqn:Hrm;
    apply plain_remove_gallery_images in Hrm as (Hd & Hp & _ & Hr).
  - unfold print. intros [= <- <-]. cbn [db session raised stdout].
    split_and!; try done. right. exists e. split; [done|]. apply list_elem_of_here.
  - intros [= <- <-]. split_and!; try done. by left.
Qed.

(** The commit inside its [try]. *)
Lemma commit_try E s r s' :
  try_except (commit E ;; ret (mkResponse 200 (Message "Update successful")))
             (λ e, rollback ;; ret (mkResponse 500 (ServerError e))) s = (r, s') →
  match commit_error E with
  | None =>
      r = inr (mkResponse 200 (Message "Update successful"))
      ∧ db s' = flushed (now E (ticks s)) (db s) (session s)
      ∧ raised s' = raised s ∧ stdout s' = stdout s
  | Some e =>
      r = inr (mkResponse 500 (ServerError e)) ∧ db s' = db s
  end.
Proof.
  run. destruct (commit_error E) as [e|]; run; intros [= <- <-]; by cbn.
Qed.

(** The new cover. *)
Lemma cover_step L E post_id (cover : option FileStorage) s r s' :
  match cover with
  | Some file =>
      if truthy (filename file) then
        url <- smart_upload L E file ;; modify_post post_id (set_image_url url)
      else ret ()
  | None => ret ()
  end s = (r, s') →
  db s' = db s
  ∧ stdout s `suffix_of` stdout s'
  ∧ match r with
    | inl e => True
    | inr _ =>
        raised s' = raised s
        ∧ match cover with
          | Some file =>
              if truthy (filename file) then
                ∃ url, (smart_upload L E file s).1 = inr url
                       ∧ posts (session s')
                         = alter (set_image_url url) post_id (posts (session s))
              else posts (session s') = posts (session s)
          | None => posts (session s') = posts (session s)
          end
    end.
Proof.
  destruct cover as [file|]; [destruct (truthy (filename file))|].
  - intros H. apply bind_inv in H as [(e & Hup & ->) | (url & s1 & Hup & Hmod)].
    + by apply plain_smart_upload in Hup as (? & _ & ? & _).
    + pose proof Hup as Hfr. apply plain_smart_upload in Hfr as (? & Hp & ? & ?).
      unfold modify_post, set_session in Hmod. simplify_eq/=.
      split_and!; try done. exists url. rewrite Hup. split; [done|]. by rewrite Hp.
  - by intros [= <- <-].
  - by intros [= <- <-].
Qed.

(** An update by the owner ends in one of two ways: a failure reply with
    the database as it was, or the success reply after the one commit,
    which writes the session. *)
Lemma update_post_authorized L E d fs post_id req post r s' :
  posts d !! post_id = Some post →
  get_int L (form req) "user_id" = Some (Post.user_id post) →
  serve (update_post L E post_id req) d fs = (r, s') →
  (status r ≠ 200 ∧ db s' = d)
  ∨ (r = mkResponse 200 (Message "Update successful")
     ∧ commit_error E = None
     ∧ (raised s' = [] ∨ ∃ e, raised s' = [e] ∧ PrintGalleryFailed e ∈ stdout s')
     ∧ ∃ t pending,
         db s' = flushed t d pending
         ∧ staged_with_cover L E d fs post_id req post (posts pending)).
Proof.
  intros Hp Hu Hrun. apply serve_inv in Hrun as (out & s & Hrun & -> & Hout).
  unfold update_post in Hrun.
  apply bind_inv in Hrun as [(e & Hget & ->) | (post' & s0 & Hget & Hrun)];
    revert Hget; run; rewrite Hp; intros Hget; [done|].
  injection Hget as <- <-.
  rewrite Hu, bool_decide_false in Hrun by (intros Hne; by apply Hne).
  apply bind_inv in Hrun as [(e & Hm & ->) | ([] & s1 & Hm & Hrun)]; [done|].
  apply bind_inv in Hrun as [(e & Hm' & ->) | ([] & s2 & Hm' & Hrun)]; [done|].
  apply bind_inv in Hrun as [(e & Hdc & ->) | ([] & s3 & Hdc & Hrun)].
  { by destruct (bool_decide _). }
  assert (Hs3 : db s3 = d ∧ ticks s3 = 0%nat ∧ raised s3 = [] ∧ stdout s3 = []
                ∧ posts (session s3) = staged_posts d post_id req post).
  { unfold staged_posts. revert Hm Hm' Hdc. run. intros. simplify_eq.
    destruct (bool_decide _); by simplify_eq/=. }
  clear Hm Hm' Hdc. destruct Hs3 as (Hdb3 & Ht3 & Hr3 & Ho3 & Hp3).
  apply bind_inv in Hrun as [(e & Hcov & ->) | ([] & s4 & Hcov & Hrun)].
  { left. split; [done|]. apply cover_step in Hcov as (? & _). by simplify_eq/=. }
  apply cover_step in Hcov as (Hdb4 & Ho4 & Hr4 & Hp4).
  apply bind_inv in Hrun as [(e & Hgal & ->) | ([] & s5 & Hgal & Hrun)].
  { by apply gallery_try in Hgal as (? & _). }
  apply gallery_try in Hgal as (_ & Hdb5 & Hp5 & Hr5).
  apply bind_inv in Hrun as [(e & Happ & ->) | ([] & s6 & Happ & Hrun)].
  { left. split; [done|]. apply plain_append_gallery_images in Happ as (? & _).
    simpl. congruence. }
  apply plain_append_gallery_images in Happ as (Hdb6 & Hp6 & Ho6 & Hr6).
  apply commit_try in Hrun. destruct (commit_error E) as [e|].
  - left. destruct Hrun as (-> & Hdb7). subst r. split; [done|]. simpl. congruence.
  - right. destruct Hrun as (-> & Hdb7 & Hr7 & Ho7). subst r. split_and!; try done.
    + simpl. rewrite Hr7, Hr6. destruct Hr5 as [Hr5|(e & Hr5 & He)].
      * left. congruence.
      * right. exists e. split; [congruence|]. rewrite Ho7.
        destruct Ho6 as [l ->]. apply elem_of_app. by right.
    + exists (now E (ticks s6)), (session s6). simpl. split; [congruence|].
      rewrite Hp6, Hp5. unfold staged_with_cover.
      destruct (files_get (files req) "image") as [file|]; [|congruence].
      destruct (truthy (filename file)); [|congruence].
      destruct Hp4 as (url & Hup & Hp4). exists url.
      rewrite <- (smart_upload_value L E file s3 (start d fs)) by done.
      split; [done|]. congruence.
Qed.

(** Alice updates the title of her post and sends [oops] as
    [delete_image_ids]: [json.loads] raises, the exception is printed, the
    new title is committed and the reply is the success reply. *)
Example update_post_bad_ids_run :
  let req := Demo.request [] [("user_id", "1"); ("title", "Paris in spring");
                              ("delete_image_ids", "oops")] [] [] in
  let out := serve (update_post Demo.lib Demo.env 1 req) Demo.store Demo.files_on_disk in
  out.1 = mkResponse 200 (Message "Update successful")
  ∧ raised out.2 = [JSONDecodeError]
  ∧ stdout out.2 = [PrintGalleryFailed JSONDecodeError]
  ∧ Post.title <$> posts (db out.2) !! 1 = Some "Paris in spring"
  ∧ Post.title <$> posts Demo.store !! 1 = Some "Paris".
Proof. repeat split; vm_compute; reflexivity. Qed.

(** With a backend that refuses the commit, Alice's update of her post is
    answered 500 and the database is as before. *)
Example update_post_commit_refused_run :
  let req := Demo.request [] [("user_id", "1"); ("title", "Paris in spring")] [] [] in
  let out := serve (update_post Demo.lib Demo.env_down 1 req) Demo.store Demo.files_on_disk in
  out.1 = mkResponse 500 (ServerError (DatabaseError "connection lost"))
  ∧ db out.2 = Demo.store.
Proof. split; vm_compute; reflexivity. Qed.

(** C2 as stated does not hold: an exception during an update does not
    always end in a failure reply with the database unchanged. *)
Lemma update_post_exception_not_rolled_back :
  ¬ (∀ L E d fs post_id req r s',
       serve (update_post L E post_id req) d fs = (r, s') →
       raised s' ≠ [] →
       status r ≠ 200 ∧ db s' = d).
Proof.
  intros Hclaim.
  pose (req := Demo.request [] [("user_id", "1"); ("title", "Paris in spring");
                                ("delete_image_ids", "oops")] [] []).
  pose (out := serve (update_post Demo.lib Demo.env 1 req) Demo.store Demo.files_on_disk).
  destruct (Hclaim Demo.lib Demo.env Demo.store Demo.files_on_disk 1 req out.1 out.2)
    as [Hstatus _].
  - apply surjective_pairing.
  - vm_compute. discriminate.
  - apply Hstatus. vm_compute. reflexivity.
Qed.

(** ** update_post: success in a healthy environment *)

Lemma returns_ret {A} (P : A → Prop) a : P a → returns P (ret a).
Proof. intros Ha s. by exists a, s. Qed.

Lemma returns_bind {A B} (P : B → Prop) (m : M A) (k : A → M B) :
  returns (λ _, True) m → (∀ a, returns P (k a)) → returns P (bind m k).
Proof.
  intros Hm Hk s. destruct (Hm s) as (a & s1 & Hms & _).
  destruct (Hk a s1) as (b & s2 & Hks & Hb). exists b, s2.
  unfold bind. by rewrite Hms.
Qed.

Lemma returns_for_each {A} (l : list A) (f : A → M unit) :
  (∀ x, returns (λ _, True) (f x)) → returns (λ _, True) (for_each l f).
Proof.
  intros Hf. induction l as [|x l IH]; simpl; [by apply returns_ret|].
  apply returns_bind; auto.
Qed.

Lemma returns_modify_post post_id f : returns (λ _, True) (modify_post post_id f).
Proof. intros s. by eexists _, _. Qed.

Lemma returns_smart_upload L E file :
  healthy E → returns (λ _, True) (smart_upload L E file).
Proof.
  intros (_ & Hcloud & Hsave) s. unfold smart_upload.
  destruct (negb _); [by eexists _, _|]. destruct (getenv_truthy _).
  - destruct (Hcloud file) as [url ->]. by eexists _, _.
  - run. rewrite Hsave. by eexists _, _.
Qed.

Lemma returns_gallery_try L E post_id removed_ids_json :
  returns (λ _, True)
    (try_except (remove_gallery_images L E post_id removed_ids_json)
                (λ e, print (PrintGalleryFailed e))).
Proof.
  intros s. unfold try_except.
  destruct (remove_gallery_images L E post_id removed_ids_json s) as [[e|[]] s1].
  - by eexists _, _.
  - by eexists _, _.
Qed.

Lemma returns_append_gallery_images L E post_id gallery_files :
  healthy E → returns (λ _, True) (append_gallery_images L E post_id gallery_files).
Proof.
  intros HE. apply returns_for_each. intros file.
  apply returns_bind; [by apply returns_smart_upload|].
  intros [u|]; [destruct (truthy u)|]; try by apply returns_ret.
  intros s. by eexists _, _.
Qed.

Lemma bind_ok {A B} (m : M A) (k : A → M B) s a s1 :
  m s = (inr a, s1) → bind m k s = k a s1.
Proof. intros H. unfold bind. by rewrite H. Qed.

Lemma get_or_404_found {A} (table : Store → gmap Z A) ident s row :
  table (session s) !! ident = Some row → get_or_404 table ident s = (inr row, s).
Proof. intros H. unfold get_or_404. run. by rewrite H. Qed.

Lemma returns_commit_try E :
  healthy E →
  returns (λ r, r = mkResponse 200 (Message "Update successful"))
    (try_except (commit E ;; ret (mkResponse 200 (Message "Update successful")))
                (λ e, rollback ;; ret (mkResponse 500 (ServerError e)))).
Proof. intros (Hc & _) s. run. rewrite Hc. by eexists _, _. Qed.

(** In a healthy environment every update by the owner succeeds. *)
Lemma update_post_owner_succeeds L E d fs post_id req post :
  healthy E →
  posts d !! post_id = Some post →
  get_int L (form req) "user_id" = Some (Post.user_id post) →
  (serve (update_post L E post_id req) d fs).1
  = mkResponse 200 (Message "Update successful").
Proof.
  intros HE Hp Hu. unfold serve, update_post.
  rewrite (bind_ok _ _ _ post (start d fs)) by (by apply get_or_404_found).
  rewrite Hu, bool_decide_false by (intros Hne; by apply Hne).
  match goal with |- context [ ?m (start d fs) ] =>
    assert (Hret : returns (λ r, r = mkResponse 200 (Message "Update successful")) m)
  end.
  { repeat (apply returns_bind; [|intros ?]).
    - apply returns_modify_post.
    - apply returns_modify_post.
    - destruct (bool_decide _); [apply returns_modify_post | by apply returns_ret].
    - destruct (files_get _ _) as [file|]; [destruct (truthy _)|]; try by apply returns_ret.
      apply returns_bind; [by apply returns_smart_upload|]. intros ?.
      apply returns_modify_post.
    - apply returns_gallery_try.
    - by apply returns_append_gallery_images.
    - by apply returns_commit_try. }
  destruct (Hret (start d fs)) as (r & s' & -> & ->). reflexivity.
Qed.

(** ** update_post: delete_cover together with a new cover *)




Example update_post_new_cover_run :
  let file := mkFile "eiffel.png" "pixels" in
  let req := Demo.request [] [("user_id", "1"); ("delete_cover", "true")]
                          [("image", file)] [] in
  let out := serve (update_post Demo.lib Demo.env 1 req) Demo.store Demo.files_on_disk in
  Post.image_url <$> posts (db out.2) !! 1 = Some (Some "/static/uploads/1000_eiffel.png")
  ∧ "static/uploads/1000_eiffel.png" ∈ disk out.2.
Proof. split; [vm_compute; reflexivity | by vm_compute]. Qed.

(** ** get_posts: the search *)




Lemma lower_app a b : lower (a +:+ b) = lower a +:+ lower b.
Proof. induction a as [|c a IH]; [done|]. simpl. by rewrite IH. Qed.




#[global] Instance newest_first_total : Total newest_first.
Proof. intros a b. unfold newest_first. lia. Qed.

#[global] Instance newest_first_trans : Transitive newest_first.
Proof. intros a b c. unfold newest_first. lia. Qed.



(** C8, at the search term [_]: no title and no content of the two posts
    contains an underscore, yet both posts are listed, because LIKE reads
    the underscore of the term as "any one character". *)
Theorem get_posts_underscore_lists_all :
  (serve (get_posts (Demo.request [("q", "_")] [] [] [])) Demo.store Demo.files_on_disk).1
  = mkResponse 200
      (PostList (to_dict Demo.store false <$> [(2, Demo.rome); (1, Demo.paris)]))
  ∧ spec_contains_ci "_" (Post.title Demo.rome) = false
  ∧ spec_contains_ci "_" (Post.content Demo.rome) = false
  ∧ spec_contains_ci "_" (Post.title Demo.paris) = false
  ∧ spec_contains_ci "_" (Post.content Demo.paris) = false.
Proof. repeat split; vm_compute; reflexivity. Qed.

Example get_posts_paris :
  (serve (get_posts (Demo.request [("q", "PARIS")] [] [] [])) Demo.store Demo.files_on_disk).1
  = mkResponse 200 (PostList (to_dict Demo.store false <$> [(1, Demo.paris)])).
Proof. vm_compute. reflexivity. Qed.

Example get_posts_no_term :
  (serve (get_posts (Demo.request [] [] [] [])) Demo.store Demo.files_on_disk).1
  = mkResponse 200
      (PostList (to_dict Demo.store false <$> [(2, Demo.rome); (1, Demo.paris)])).
Proof. vm_compute. reflexivity. Qed.

(** * The rest of app.py *)

(** ** The database URL *)

Lemma replace_first_prefix old new s :
  String.prefix old s = true →
  replace_first old new s = new +:+ string_drop (String.length old) s.
Proof. intros H. destruct s; cbn [replace_first]; by rewrite H. Qed.

(** X1: the database URL handed to SQLAlchemy never starts with
    [postgres://]: a URL with that scheme gets the scheme [postgresql://]
    and keeps the rest, every other URL (and the sqlite default when
    DATABASE_URL is unset) is taken as it is. *)
Theorem db_url_scheme DATABASE_URL default_url :
  let given := default default_url DATABASE_URL in
  String.prefix "postgres://" (db_url DATABASE_URL default_url) = false
  ∧ db_url DATABASE_URL default_url
    = if String.prefix "postgres://" given
      then "postgresql://" +:+ string_drop 11 given
      else given.
Proof.
  intros given. unfold db_url. fold given.
  destruct (String.prefix "postgres://" given) eqn:Hp.
  - assert (Ht : truthy given = true).
    { apply bool_decide_eq_true. intros ->. discriminate. }
    rewrite Ht. cbn [andb]. rewrite replace_first_prefix by done.
    split; reflexivity.
  - rewrite andb_false_r. by rewrite Hp.
Qed.

Example db_url_render :
  db_url (Some "postgres://u:pw@host/blog") "sqlite:///instance/travel.db"
  = "postgresql://u:pw@host/blog"
  ∧ db_url None "sqlite:///instance/travel.db" = "sqlite:///instance/travel.db".
Proof. split; reflexivity. Qed.

(** ** smart_upload and upload_image *)

(** [smart_upload] leaves the database and the session alone, removes no
    file, and does nothing at all for a file without a name. *)
Lemma smart_upload_effect L E file s r s' :
  smart_upload L E file s = (r, s') →
  db s' = db s ∧ session s' = session s ∧ disk s ⊆ disk s'
  ∧ (filename file = "" → r = inr None ∧ s' = s).
Proof.
  unfold smart_upload, truthy.
  destruct (decide (filename file = "")) as [Hn|Hn].
  - rewrite bool_decide_false by (intros Hne; by apply Hne). cbn [negb].
    intros [= <- <-]. by split_and!.
  - rewrite bool_decide_true by done. cbn [negb]. destruct (getenv_truthy _).
    + destruct (cloudinary_upload E file); run; intros [= <- <-]; by split_and!.
    + run. destruct (file_save E _); run; intros [= <- <-]; split_and!; try done.
      cbn. set_solver.
Qed.

Lemma serve_reply_inv h d fs r s' :
  serve_reply h d fs = (r, s') →
  ∃ out s, h (start d fs) = (out, s) ∧ s' = teardown s
           ∧ match out with inr r0 => r = r0 | inl _ => code r ≠ 200 ∧ code r ≠ 201 end.
Proof.
  unfold serve_reply. destruct (h (start d fs)) as [[e|r0] s]; intros H.
  - exists (inl e), s. by destruct e; simplify_eq/=.
  - exists (inr r0), s. by simplify_eq.
Qed.

(** X2: upload_image never writes to the database and removes no file.
    Without a part named [file] it answers 400; a part without a file name
    is answered 500 "Upload failed" and stores nothing; the answer is 200
    only for a named file, with the URL [smart_upload] returned for it. *)
Theorem upload_image_replies L E req d fs r s' :
  serve_reply (upload_image L E req) d fs = (r, s') →
  db s' = d
  ∧ fs ⊆ disk s'
  ∧ (files_get (files req) "file" = None →
       r = mkReply 400 (Plain (Message "No file")) ∧ disk s' = fs)
  ∧ (∀ file, files_get (files req) "file" = Some file → filename file = "" →
       r = mkReply 500 (Plain (Message "Upload failed")) ∧ disk s' = fs)
  ∧ (code r = 200 →
       ∃ file u, files_get (files req) "file" = Some file ∧ filename file ≠ ""
                 ∧ (smart_upload L E file (start d fs)).1 = inr (Some u)
                 ∧ payload r = Uploaded u).
Proof.
  intros Hrun. apply serve_reply_inv in Hrun as (out & s & Hrun & -> & Hout).
  unfold upload_image in Hrun.
  destruct (files_get (files req) "file") as [file|] eqn:Hf.
  - apply bind_inv in Hrun as [(e & Hup & ->) | (url & s1 & Hup & Hret)].
    + pose proof (smart_upload_effect _ _ _ _ _ _ Hup) as (Hdb & _ & Hdisk & Hempty).
      split_and!; try done.
      * intros file' [= <-] Hn. by destruct (Hempty Hn).
      * intros Hc. by destruct Hout.
    + pose proof (smart_upload_effect _ _ _ _ _ _ Hup) as (Hdb & _ & Hdisk & Hempty).
      assert (Hs : db s = d ∧ disk s = disk s1 ∧ out = inr r
                   ∧ (code r = 200 → ∃ u, url = Some u ∧ payload r = Uploaded u)
                   ∧ (url = None → r = mkReply 500 (Plain (Message "Upload failed")))).
      { unfold ret in Hret.
        destruct url as [u|]; [destruct (truthy u)|]; simplify_eq/=;
          split_and!; try done; intros _; by exists u. }
      destruct Hs as (Hdbs & Hds & -> & H200 & Hnone). cbn [teardown db disk].
      rewrite Hdbs, Hds. split_and!; try done.
      * intros file' [= <-] Hn. destruct (Hempty Hn) as [[= ->] ->]. by split; [apply Hnone|].
      * intros Hcode. destruct (H200 Hcode) as (u & -> & Hpay). exists file, u.
        split_and!; try done.
        -- intros Hn. by destruct (Hempty Hn).
        -- by rewrite Hup.
  - unfold ret in Hrun. simplify_eq/=. by split_and!.
Qed.

Lemma upload_image_replies_witness :
  let file := mkFile "map.png" "pixels" in
  let out := serve_reply (upload_image Demo.lib Demo.env (Demo.request [] [] [("file", file)] []))
                         Demo.store Demo.files_on_disk in
  db out.2 = Demo.store
  ∧ Demo.files_on_disk ⊆ disk out.2
  ∧ (code out.1 = 200 →
       ∃ file' u, Some file = Some file' ∧ filename file' ≠ ""
                  ∧ (smart_upload Demo.lib Demo.env file'
                       (start Demo.store Demo.files_on_disk)).1 = inr (Some u)
                  ∧ payload out.1 = Uploaded u).
Proof.
  intros file out.
  destruct (upload_image_replies Demo.lib Demo.env
              (Demo.request [] [] [("file", file)] []) Demo.store Demo.files_on_disk
              out.1 out.2) as (Hdb & Hdisk & _ & _ & Hok).
  - apply surjective_pairing.
  - split_and!; [exact Hdb | exact Hdisk | exact Hok].
Defined.

Example upload_image_runs :
  (serve_reply (upload_image Demo.lib Demo.env
                  (Demo.request [] [] [("file", mkFile "map.png" "pixels")] []))
               Demo.store Demo.files_on_disk).1
  = mkReply 200 (Uploaded "/static/uploads/1000_map.png")
  ∧ (serve_reply (upload_image Demo.lib Demo.env
                    (Demo.request [] [] [("file", mkFile "" "")] []))
                 Demo.store Demo.files_on_disk).1
    = mkReply 500 (Plain (Message "Upload failed"))
  ∧ (serve_reply (upload_image Demo.lib Demo.env (Demo.request [] [] [] []))
                 Demo.store Demo.files_on_disk).1
    = mkReply 400 (Plain (Message "No file")).
Proof. repeat split; vm_compute; reflexivity. Qed.

(** ** get_user_posts *)

(** X3: for a user id within 64 bits get_user_posts answers 200, with the
    posts of that user and no other, each once, newest first; for a user
    without posts (or an id no user has) the list is empty.  Nothing is
    written. *)
Theorem get_user_posts_listing C user_id d fs :
  int64 user_id = true →
  ∃ rows,
    serve (get_user_posts C user_id) d fs
    = (mkResponse 200 (PostList (to_dict d false <$> rows)), start d fs)
    ∧ StronglySorted newest_first rows
    ∧ NoDup rows
    ∧ (∀ k p, (k, p) ∈ rows ↔ posts d !! k = Some p ∧ Post.user_id p = user_id)
    ∧ ((∀ k p, posts d !! k = Some p → Post.user_id p ≠ user_id) → rows = []).
Proof.
  intros Hrange. unfold get_user_posts, bind_query, lift. rewrite Hrange. run.
  set (rows := merge_sort newest_first _). exists rows. split; [reflexivity|].
  assert (Hin : ∀ k p, (k, p) ∈ rows ↔ posts d !! k = Some p ∧ Post.user_id p = user_id).
  { intros k p. unfold rows.
    rewrite merge_sort_Permutation, list_elem_of_filter, elem_of_map_to_list.
    simpl. tauto. }
  assert (Hsorted : StronglySorted newest_first rows).
  { apply StronglySorted_merge_sort; apply _. }
  assert (Hnodup : NoDup rows).
  { unfold rows. rewrite merge_sort_Permutation. apply NoDup_filter, NoDup_map_to_list. }
  clearbody rows. split_and!; try done.
  intros Hnone. destruct rows as [|[k p] rows]; [done|].
  destruct (proj1 (Hin k p)) as [Hk Hu]; [apply list_elem_of_here|].
  by destruct (Hnone k p).
Qed.

(** Bob has one post, user 9 has none. *)
Lemma get_user_posts_listing_witness :
  (∃ rows,
     serve (get_user_posts DemoColumns.columns 2) Demo.store Demo.files_on_disk
     = (mkResponse 200 (PostList (to_dict Demo.store false <$> rows)),
        start Demo.store Demo.files_on_disk)
     ∧ StronglySorted newest_first rows
     ∧ NoDup rows
     ∧ (∀ k p, (k, p) ∈ rows ↔ posts Demo.store !! k = Some p ∧ Post.user_id p = 2)
     ∧ ((∀ k p, posts Demo.store !! k = Some p → Post.user_id p ≠ 2) → rows = [])).
Proof.
  apply (get_user_posts_listing DemoColumns.columns 2 Demo.store Demo.files_on_disk).
  reflexivity.
Defined.

(** An id that the driver refuses is answered 500 with the driver's
    exception; nothing is written. *)
Lemma get_user_posts_refused C user_id e d fs :
  int64 user_id = false →
  query_integer C user_id = Some e →
  serve (get_user_posts C user_id) d fs
  = (mkResponse 500 (ErrorOf e), mkState d d fs 0 [] [e]).
Proof.
  intros Hrange Hq. unfold get_user_posts, bind_query, lift. rewrite Hrange, Hq.
  by run.
Qed.

Example get_user_posts_runs :
  (serve (get_user_posts DemoColumns.columns 2) Demo.store Demo.files_on_disk).1
  = mkResponse 200 (PostList (to_dict Demo.store false <$> [(2, Demo.rome)]))
  ∧ (serve (get_user_posts DemoColumns.columns 9) Demo.store Demo.files_on_disk).1
    = mkResponse 200 (PostList [])
  ∧ (serve (get_user_posts DemoColumns.columns (2 ^ 63)) Demo.store Demo.files_on_disk).1
    = mkResponse 500 (ErrorOf OverflowError).
Proof. split_and!; vm_compute; reflexivity. Qed.

(** ** register: uniqueness of usernames, and login afterwards *)

(** Every run of register either leaves the database as it was, with a
    reply other than 201, or adds the one new user row. *)
Lemma register_outcomes L E req d fs r s' :
  serve (register L E req) d fs = (r, s') →
  (status r ≠ 201 ∧ db s' = d)
  ∨ ∃ name pw,
      json req !! "username" = Some name ∧ json req !! "password" = Some pw
      ∧ find_user d name = None ∧ commit_error E = None
      ∧ r = mkResponse 201 (Message "Registration successful")
      ∧ db s' = put_user (next_id (users d) (users d))
                  (User.mk name (generate_password_hash L (gen_salt E) pw)) d.
Proof.
  destruct (json req !! "username") as [name|] eqn:Hn.
  - destruct (find_user d name) as [found|] eqn:Hf.
    + rewrite (register_taken _ _ _ _ _ name) by (rewrite ?Hf; eauto).
      intros [= <- <-]. by left.
    + destruct (json req !! "password") as [pw|] eqn:Hp.
      * destruct (commit_error E) as [e|] eqn:Hc.
        -- unfold register. run. rewrite Hn. run.
           rewrite bool_decide_false by (rewrite Hf; by intros [? ?]).
           rewrite Hp. run. rewrite Hc. run. destruct e; intros [= <- <-]; by left.
        -- rewrite (register_fresh _ _ _ _ _ name pw) by done.
           intros [= <- <-]. right. by exists name, pw.
      * unfold register. run. rewrite Hn. run.
        rewrite bool_decide_false by (rewrite Hf; by intros [? ?]).
        rewrite Hp. run. intros [= <- <-]. by left.
  - unfold register. run. rewrite Hn. run. intros [= <- <-]. by left.
Qed.

(** X4: register keeps usernames unique: whatever the request and whatever
    the backend does at the commit, a database in which no two users share
    a username is again one afterwards. *)
Theorem register_keeps_usernames_unique L E req d fs r s' :
  usernames_unique d →
  serve (register L E req) d fs = (r, s') →
  usernames_unique (db s').
Proof.
  intros Hu Hrun.
  destruct (register_outcomes _ _ _ _ _ _ _ Hrun)
    as [[_ ->]|(name & pw & _ & _ & Hf & _ & _ & ->)]; [done|].
  rewrite find_user_None in Hf.
  destruct (next_id_fresh (users d) (users d)) as [Hfresh _].
  intros i j u v. cbn [put_user users]. rewrite !lookup_insert_Some.
  intros [[<- <-]|[Hi Hui]] [[<- <-]|[Hj Hvj]] Hname; cbn in Hname.
  - done.
  - by destruct (Hf j v).
  - by destruct (Hf i u).
  - by eapply Hu.
Qed.

Lemma demo_usernames_unique : usernames_unique Demo.store.
Proof.
  intros i j u v. unfold Demo.store. cbn [users].
  rewrite !lookup_insert_Some, !lookup_singleton_Some.
  intros [[<- <-]|[? [<- <-]]] [[<- <-]|[? [<- <-]]]; by vm_compute.
Qed.

Lemma register_keeps_usernames_unique_witness :
  usernames_unique
    (db (serve (register Demo.lib Demo.env
                  (Demo.request [] [] [] [("username", "carol"); ("password", "s3cret")]))
               Demo.store Demo.files_on_disk).2).
Proof.
  eapply (register_keeps_usernames_unique Demo.lib Demo.env).
  - exact demo_usernames_unique.
  - apply surjective_pairing.
Defined.

(** X5: after a successful registration, login with the same username and
    password succeeds and names the new user, provided the library's check
    accepts the hashes the library generates. *)
Theorem register_then_login L E req d fs r s' :
  (∀ pw, check_password_hash L (generate_password_hash L (gen_salt E) pw) pw = true) →
  serve (register L E req) d fs = (r, s') →
  status r = 201 →
  ∃ uid name,
    json req !! "username" = Some name
    ∧ users d !! uid = None
    ∧ (serve (login L req) (db s') (disk s')).1 = mkResponse 200 (LoginOk uid name).
Proof.
  intros Hlib Hrun Hok.
  destruct (register_outcomes _ _ _ _ _ _ _ Hrun)
    as [[Hne _]|(name & pw & Hn & Hp & Hf & _ & _ & Hdb)]; [done|].
  set (uid := next_id (users d) (users d)) in *.
  set (new_user := User.mk name (generate_password_hash L (gen_salt E) pw)) in *.
  exists uid, name. split; [done|]. split; [apply next_id_fresh|].
  destruct (find_user (db s') name) as [[uid' u']|] eqn:Hfound.
  - rewrite (login_found _ _ _ _ name pw uid' u') by done.
    apply find_user_Some in Hfound as [Hu' Hname].
    rewrite Hdb in Hu'. cbn [put_user users] in Hu'.
    apply lookup_insert_Some in Hu' as [[<- <-]|[_ Hold]].
    + cbn. by rewrite Hlib.
    + rewrite find_user_None in Hf. by destruct (Hf uid' u').
  - rewrite find_user_None in Hfound. destruct (Hfound uid new_user); [|done].
    rewrite Hdb. cbn [put_user users]. apply lookup_insert_eq.
Qed.

Lemma register_then_login_witness :
  let req := Demo.request [] [] [] [("username", "carol"); ("password", "s3cret")] in
  let out := serve (register Demo.lib Demo.env req) Demo.store Demo.files_on_disk in
  ∃ uid name,
    json req !! "username" = Some name
    ∧ users Demo.store !! uid = None
    ∧ (serve (login Demo.lib req) (db out.2) (disk out.2)).1
      = mkResponse 200 (LoginOk uid name).
Proof.
  intros req out.
  apply (register_then_login Demo.lib Demo.env req Demo.store Demo.files_on_disk out.1).
  - intros pw. by apply bool_decide_eq_true.
  - apply surjective_pairing.
  - reflexivity.
Defined.

(** ** Invariants, step by step *)

Section Keeps.
Context (J : Store → Store → Prop).

Lemma keeps_ret {A} (a : A) : keeps (on_stores J) (ret a).
Proof. by intros s r s' HI [= <- <-]. Qed.

Lemma keeps_raise {A} e : keeps (on_stores J) (@raise A e).
Proof. by intros s r s' HI [= <- <-]. Qed.

Lemma keeps_lift {A} (x : Exn + A) : keeps (on_stores J) (lift x).
Proof. destruct x; [apply keeps_raise | apply keeps_ret]. Qed.

Lemma keeps_bind {A B} (m : M A) (k : A → M B) :
  keeps (on_stores J) m → (∀ a, keeps (on_stores J) (k a)) →
  keeps (on_stores J) (bind m k).
Proof.
  intros Hm Hk s r s' HI Hrun.
  apply bind_inv in Hrun as [(e & Hms & ->) | (a & s1 & Hms & Hks)].
  - by eapply Hm.
  - eapply Hk; [|done]. by eapply Hm.
Qed.

Lemma keeps_try {A} (m : M A) (h : Exn → M A) :
  keeps (on_stores J) m → (∀ e, keeps (on_stores J) (h e)) →
  keeps (on_stores J) (try_except m h).
Proof.
  intros Hm Hh s r s' HI. unfold try_except.
  destruct (m s) as [[e|a] s1] eqn:Hms.
  - intros Hrun. eapply Hh; [|done]. by eapply Hm.
  - intros [= <- <-]. by eapply Hm.
Qed.

Lemma keeps_for_each {A} (l : list A) (f : A → M unit) :
  (∀ x, x ∈ l → keeps (on_stores J) (f x)) → keeps (on_stores J) (for_each l f).
Proof.
  induction l as [|x l IH]; intros Hf; simpl; [apply keeps_ret|].
  apply keeps_bind.
  - apply Hf, list_elem_of_here.
  - intros _. apply IH. intros y Hy. by apply Hf, list_elem_of_further.
Qed.

Lemma keeps_set_disk f : keeps (on_stores J) (set_disk f).
Proof. by intros s r s' HI [= <- <-]. Qed.

Lemma keeps_print ev : keeps (on_stores J) (print ev).
Proof. by intros s r s' HI [= <- <-]. Qed.

Lemma keeps_read_clock E : keeps (on_stores J) (read_clock E).
Proof. by intros s r s' HI [= <- <-]. Qed.

Lemma keeps_remove_physical_file url : keeps (on_stores J) (remove_physical_file url).
Proof.
  unfold remove_physical_file. destruct (_ || _); [apply keeps_ret | apply keeps_set_disk].
Qed.

Lemma keeps_smart_upload L E file : keeps (on_stores J) (smart_upload L E file).
Proof.
  intros s r s' HI Hrun. apply smart_upload_effect in Hrun as (Hdb & Hs & _).
  unfold on_stores. by rewrite Hdb, Hs.
Qed.

Lemma keeps_set_session f :
  (∀ a b, J a b → J a (f b)) → keeps (on_stores J) (set_session f).
Proof. intros Hf s r s' HI [= <- <-]. by apply Hf. Qed.

Lemma keeps_rollback : (∀ a b, J a b → J a a) → keeps (on_stores J) rollback.
Proof. intros Hr s r s' HI [= <- <-]. by eapply Hr. Qed.

Lemma keeps_commit E :
  (∀ t a b, J a b → J (flushed t a b) (flushed t a b)) →
  keeps (on_stores J) (commit E).
Proof.
  intros Hc s r s' HI. unfold commit. destruct (commit_error E).
  - by intros [= <- <-].
  - intros [= <- <-]. by apply Hc.
Qed.

(** Around a handler: from the committed rows at the start to the
    committed rows at the end. *)
Lemma keeps_serve h d fs r s' :
  (∀ a b, J a b → J a a) → keeps (on_stores J) h → J d d →
  serve h d fs = (r, s') → J (db s') (db s').
Proof.
  intros Hr Hh Hd Hrun. apply serve_inv in Hrun as (out & s & Hrun & -> & _).
  cbn [teardown db]. apply (Hr _ (session s)). by apply (Hh (start d fs) out s).
Qed.

Lemma keeps_serve_reply h d fs r s' :
  (∀ a b, J a b → J a a) → keeps (on_stores J) h → J d d →
  serve_reply h d fs = (r, s') → J (db s') (db s').
Proof.
  intros Hr Hh Hd Hrun. apply serve_reply_inv in Hrun as (out & s & Hrun & -> & _).
  cbn [teardown db]. apply (Hr _ (session s)). by apply (Hh (start d fs) out s).
Qed.

End Keeps.

(** ** update_post: what it leaves alone *)

Lemma keeps_get_or_404 (J : Store → Store → Prop) {A} (table : Store → gmap Z A) ident :
  keeps (on_stores J) (get_or_404 table ident).
Proof.
  intros s r s' HI. unfold get_or_404. run.
  destruct (table (session s) !! ident); by intros [= <- <-].
Qed.

Lemma touch_user_id t (committed : gmap Z Post.t) k p :
  Post.user_id (touch t committed k p) = Post.user_id p
  ∧ Post.created_at (touch t committed k p) = Post.created_at p.
Proof. unfold touch. destruct (committed !! k); [case_decide|]; done. Qed.

Section UpdateFrame.
Context (d : Store) (post_id : Z) (post : Post.t).

Local Abbreviation J := (update_frames d post_id post).

Lemma update_frame_start : posts d !! post_id = Some post → J d d.
Proof.
  intros Hp. assert (update_frame d post_id post d); [|done].
  split_and!; try done; eauto.
Qed.

Lemma update_frame_alter f x :
  (∀ p, Post.user_id (f p) = Post.user_id p ∧ Post.created_at (f p) = Post.created_at p) →
  update_frame d post_id post x →
  update_frame d post_id post
    (mkStore (users x) (alter f post_id (posts x)) (post_images x) (comments x)).
Proof.
  intros Hf (Hu & Hc & Hother & (p & Hp & Ho & Ht) & Hkeep & Hnew).
  split_and!; try done; cbn.
  - intros k Hk. rewrite lookup_alter_ne by done. by apply Hother.
  - exists (f p). rewrite lookup_alter_eq, Hp. destruct (Hf p) as [-> ->]. done.
Qed.

Lemma update_frame_delete_image j x :
  (∀ img, post_images d !! j = Some img → PostImage.post_id img = post_id) →
  update_frame d post_id post x →
  update_frame d post_id post (delete_image j x).
Proof.
  intros Hown (Hu & Hc & Hother & Hp & Hkeep & Hnew).
  split_and!; try done; cbn.
  - intros i img Hi Hforeign. rewrite lookup_delete_ne; [by apply Hkeep|].
    intros <-. by apply Hforeign, Hown.
  - intros i img Hi. apply lookup_delete_Some in Hi as [_ Hi]. by apply Hnew.
Qed.

Lemma update_frame_put_image k u x :
  post_images d !! k = None ∨ (∀ img, post_images d !! k = Some img →
                                      PostImage.post_id img = post_id) →
  update_frame d post_id post x →
  update_frame d post_id post (put_image k (PostImage.mk u post_id) x).
Proof.
  intros Hk (Hu & Hc & Hother & Hp & Hkeep & Hnew).
  split_and!; try done; cbn.
  - intros i img Hi Hforeign. rewrite lookup_insert_ne; [by apply Hkeep|].
    intros <-. destruct Hk as [Hk|Hk]; [congruence|]. by apply Hforeign, Hk.
  - intros i img Hi. apply lookup_insert_Some in Hi as [[_ <-]|[_ Hi]]; [by right|].
    by apply Hnew.
Qed.

Lemma update_frame_flushed t a b : J a b → J (flushed t a b) (flushed t a b).
Proof.
  intros [(_ & _ & Hother_a & _) (Hu & Hc & Hother & (p & Hp & Ho & Ht) & Hkeep & Hnew)].
  assert (update_frame d post_id post (flushed t a b)); [|done].
  split_and!; try done.
  - intros k Hk. rewrite flushed_posts_lookup, Hother by done.
    destruct (posts d !! k) as [q|] eqn:Hq; [|done]. cbn. f_equal.
    apply touch_same. by rewrite Hother_a.
  - exists (touch t (posts a) post_id p). rewrite flushed_posts_lookup, Hp.
    destruct (touch_user_id t (posts a) post_id p) as [-> ->]. done.
Qed.

Lemma update_frame_keeps_modify f :
  (∀ p, Post.user_id (f p) = Post.user_id p ∧ Post.created_at (f p) = Post.created_at p) →
  keeps (on_stores J) (modify_post post_id f).
Proof.
  intros Hf. apply keeps_set_session. intros a b [Ha Hb]. split; [done|].
  by apply update_frame_alter.
Qed.

Lemma update_frame_keeps_add_image u :
  keeps (on_stores J) (add_image (PostImage.mk u post_id)).
Proof.
  intros s r s' [Ha Hb] [= <- <-]. split; [done|]. cbn.
  apply update_frame_put_image; [|done]. right. intros img Hi.
  destruct (decide (PostImage.post_id img = post_id)) as [|Hforeign]; [done|].
  destruct Ha as (_ & _ & _ & _ & Hkeep & _).
  pose proof (Hkeep _ _ Hi Hforeign) as Hdb.
  destruct (next_id_fresh (post_images (db s)) (post_images (session s))) as [Hfresh _].
  congruence.
Qed.

Lemma update_frame_keeps_remove L E removed_ids_json :
  keeps (on_stores J) (remove_gallery_images L E post_id removed_ids_json).
Proof.
  unfold remove_gallery_images.
  destruct (json_loads L _) as [v|]; [|apply keeps_raise].
  destruct (json_truthy v); [|apply keeps_ret].
  destruct (in_ids E v) as [e|ids]; [apply keeps_raise|].
  intros s r s' HI Hrun. unfold bind at 1, get_session in Hrun.
  refine (keeps_bind J _ _ _ _ s r s' HI Hrun); [|intros _; apply keeps_print].
  apply keeps_for_each. intros [j img] Hj. cbn [fst snd].
  apply by_id_elem_of, map_lookup_filter_Some in Hj as (Hsess & _ & Hown). cbn in Hown.
  apply keeps_bind; [apply keeps_remove_physical_file|]. intros _.
  apply keeps_set_session. intros a b [Ha Hb]. split; [done|].
  apply update_frame_delete_image; [|done]. intros img' Hd.
  destruct (decide (PostImage.post_id img' = post_id)) as [|Hforeign]; [done|].
  destruct HI as [_ (_ & _ & _ & _ & Hkeep & _)].
  pose proof (Hkeep _ _ Hd Hforeign). congruence.
Qed.

Lemma update_frame_keeps_update_post L E req :
  keeps (on_stores J) (update_post L E post_id req).
Proof.
  unfold update_post. apply keeps_bind; [apply keeps_get_or_404|]. intros post'.
  destruct (bool_decide _); [apply keeps_ret|].
  repeat (apply keeps_bind; [|intros ?]).
  - by apply update_frame_keeps_modify.
  - by apply update_frame_keeps_modify.
  - destruct (bool_decide _); [by apply update_frame_keeps_modify | apply keeps_ret].
  - destruct (files_get _ _) as [file|]; [destruct (truthy _)|]; try apply keeps_ret.
    apply keeps_bind; [apply keeps_smart_upload|]. intros url.
    by apply update_frame_keeps_modify.
  - apply keeps_try; [apply update_frame_keeps_remove|]. intros e. apply keeps_print.
  - apply keeps_for_each. intros file _.
    apply keeps_bind; [apply keeps_smart_upload|]. intros [u|]; [|apply keeps_ret].
    destruct (truthy u); [apply update_frame_keeps_add_image | apply keeps_ret].
  - apply keeps_try.
    + apply keeps_bind; [|intros _; apply keeps_ret].
      apply keeps_commit. intros t x y. apply update_frame_flushed.
    + intros e. apply keeps_bind; [|intros _; apply keeps_ret].
      apply keeps_rollback. by intros x y [Hx _].
Qed.

End UpdateFrame.

Lemma update_post_keeps_frame L E d fs post_id req post r s' :
  posts d !! post_id = Some post →
  serve (update_post L E post_id req) d fs = (r, s') →
  update_frame d post_id post (db s').
Proof.
  intros Hp Hrun.
  refine (proj1 (keeps_serve _ _ d fs r s' _ (update_frame_keeps_update_post d post_id post L E req)
                   (update_frame_start d post_id post Hp) Hrun)).
  by intros a b [Ha _].
Qed.

(** X6: whatever an update_post request carries and whoever sends it, it
    leaves the users, the comments, every other post and the images of
    every other post as they were; the post itself keeps its owner and its
    creation time; and every image row that is new belongs to the post. *)
Theorem update_post_frame L E d fs post_id req post r s' :
  posts d !! post_id = Some post →
  serve (update_post L E post_id req) d fs = (r, s') →
  update_frame d post_id post (db s').
Proof. apply update_post_keeps_frame. Qed.

Lemma update_post_frame_witness :
  let req := Demo.request [] [("user_id", "1"); ("title", "Paris in spring");
                              ("delete_image_ids", "[1,3]")]
                          [("images", mkFile "seine.png" "pixels")] [] in
  update_frame Demo.store 1 Demo.paris
    (db (serve (update_post Demo.lib Demo.env 1 req) Demo.store Demo.files_on_disk).2).
Proof.
  intros req.
  eapply (update_post_frame Demo.lib Demo.env Demo.store Demo.files_on_disk 1 req).
  - reflexivity.
  - apply surjective_pairing.
Defined.

(** Alice removes images 1 and 3 from her post 1: image 1 is hers and goes,
    image 3 belongs to post 2 and stays; the new image gets id 4. *)
Example update_post_gallery_run :
  let req := Demo.request [] [("user_id", "1"); ("delete_image_ids", "[1,3]")]
                          [("images", mkFile "seine.png" "pixels")] [] in
  let out := serve (update_post Demo.lib Demo.env 1 req) Demo.store Demo.files_on_disk in
  by_id (post_images (db out.2))
  = [(2, PostImage.mk "/static/uploads/b.jpg" 1);
      (3, PostImage.mk "https://cdn.example/c.jpg" 2);
      (4, PostImage.mk "/static/uploads/1000_seine.png" 1)]
  ∧ "static/uploads/a.jpg" ∉ disk out.2.
Proof. split; [vm_compute; reflexivity | by vm_compute]. Qed.

(** ** add_comment *)

Lemma add_comment_stored E C d fs post_id data tv uv text user_id :
  data !! "text" = Some tv →
  data !! "user_id" = Some uv →
  bind_text C tv = inr text →
  bind_integer C uv = inr user_id →
  commit_error E = None →
  serve_reply (add_comment E C post_id data) d fs
  = (let cid := next_id (comments d) (comments d) in
     let c := Comment.mk text user_id post_id (now E 0) in
     let d' := put_comment cid c d in
     (mkReply 201 (CommentCreated (comment_to_dict d' (cid, c))),
      mkState d' d' fs 2 [] [])).
Proof.
  intros Ht Hu Hbt Hbu Hc. unfold add_comment. run_more. rewrite Ht. run_more.
  rewrite Hu. run_more. rewrite Hbt. run_more. rewrite Hbu. run_more.
  rewrite Hc. run_more. by rewrite flushed_untouched.
Qed.

(** X7: add_comment checks nothing itself.  For a body with a text and an
    integer user_id, and a backend that accepts the commit, it answers 201
    and stores the comment under a new id with the post_id of the URL,
    whether or not a post or a user with these ids exists; the reply names
    the author "Anonymous" when there is no such user.  No other row
    changes. *)
Theorem add_comment_stores_unchecked E C d fs post_id data text user_id r s' :
  data !! "text" = Some (JStr text) →
  data !! "user_id" = Some (JNum user_id) →
  commit_error E = None →
  serve_reply (add_comment E C post_id data) d fs = (r, s') →
  ∃ cid t,
    comments d !! cid = None
    ∧ comments (db s') = <[cid := Comment.mk text user_id post_id t]> (comments d)
    ∧ users (db s') = users d ∧ posts (db s') = posts d
    ∧ post_images (db s') = post_images d
    ∧ r = mkReply 201 (CommentCreated
          (mkCommentDict cid text user_id
             (match users d !! user_id with
              | Some u => User.username u
              | None => "Anonymous"
              end) t)).
Proof.
  intros Ht Hu Hc Hrun.
  rewrite (add_comment_stored _ _ _ _ _ _ (JStr text) (JNum user_id) text user_id)
    in Hrun by done.
  simplify_eq/=. exists (next_id (comments d) (comments d)), (now E 0).
  split_and!; try done. apply next_id_fresh.
Qed.

(** A comment on post 77, which does not exist, by user 9, who does not
    exist either. *)
Lemma add_comment_stores_unchecked_witness :
  let data : gmap string Json := {[ "text" := JStr "First!"; "user_id" := JNum 9 ]} in
  let out := serve_reply (add_comment Demo.env DemoColumns.columns 77 data)
                         Demo.store Demo.files_on_disk in
  ∃ cid t,
    comments Demo.store !! cid = None
    ∧ comments (db out.2) = <[cid := Comment.mk "First!" 9 77 t]> (comments Demo.store)
    ∧ users (db out.2) = users Demo.store ∧ posts (db out.2) = posts Demo.store
    ∧ post_images (db out.2) = post_images Demo.store
    ∧ out.1 = mkReply 201 (CommentCreated
          (mkCommentDict cid "First!" 9
             (match users Demo.store !! 9 with
              | Some u => User.username u
              | None => "Anonymous"
              end) t)).
Proof.
  intros data out.
  apply (add_comment_stores_unchecked Demo.env DemoColumns.columns Demo.store
           Demo.files_on_disk 77 data "First!" 9 out.1 out.2).
  - reflexivity.
  - reflexivity.
  - reflexivity.
  - apply surjective_pairing.
Defined.

(** X8: add_comment needs both keys and usable values: a body without
    [text] or without [user_id], or with [null] for the text, or with a
    string as text and [null] for the user_id, is answered 500 and nothing
    is stored. *)
Theorem add_comment_incomplete E C d fs post_id data r s' :
  data !! "text" = None ∨ data !! "user_id" = None
  ∨ data !! "text" = Some JNull
  ∨ (∃ text, data !! "text" = Some (JStr text) ∧ data !! "user_id" = Some JNull) →
  serve_reply (add_comment E C post_id data) d fs = (r, s') →
  code r = 500 ∧ db s' = d.
Proof.
  intros Hbad. unfold add_comment. run_more.
  destruct (data !! "text") as [tv|] eqn:Ht; run_more;
    [|intros [= <- <-]; by split].
  destruct (data !! "user_id") as [uv|] eqn:Hu; run_more;
    [|intros [= <- <-]; by split].
  destruct Hbad as [?|[?|[Hnull|(text & Htext & Hnull)]]]; try done; simplify_eq.
  - run_more. intros [= <- <-]. by split.
  - run_more. intros [= <- <-]. by split.
Qed.

Lemma add_comment_incomplete_witness :
  let data : gmap string Json := {[ "text" := JStr "First!" ]} in
  let out := serve_reply (add_comment Demo.env DemoColumns.columns 1 data)
                         Demo.store Demo.files_on_disk in
  code out.1 = 500 ∧ db out.2 = Demo.store.
Proof.
  intros data out.
  apply (add_comment_incomplete Demo.env DemoColumns.columns Demo.store
           Demo.files_on_disk 1 data out.1 out.2).
  - right. left. reflexivity.
  - apply surjective_pairing.
Defined.

(** X9: a comment whose post row is missing cannot be deleted through
    delete_comment: every request, also one by its author, is answered 500
    and leaves the database as it was, since reading the owner of the
    missing post raises. *)
Theorem delete_comment_orphan L E d fs comment_id req c r s' :
  comments d !! comment_id = Some c →
  posts d !! Comment.post_id c = None →
  serve (delete_comment L E comment_id req) d fs = (r, s') →
  r = mkResponse 500 (Unhandled AttributeError)
  ∧ db s' = d
  ∧ comments (db s') !! comment_id = Some c.
Proof.
  intros Hc Hp. unfold delete_comment. run. rewrite Hc. run. rewrite Hp. run.
  intros [= <- <-]. by split_and!.
Qed.

(** The comment on the missing post 77, once stored, stays: its author
    asks for its deletion in vain. *)
Lemma delete_comment_orphan_witness :
  let d := put_comment 4 (Comment.mk "First!" 9 77 1000) Demo.store in
  let out := serve (delete_comment Demo.lib Demo.env 4
                      (Demo.request [("user_id", "9")] [] [] []))
                   d Demo.files_on_disk in
  out.1 = mkResponse 500 (Unhandled AttributeError)
  ∧ db out.2 = d
  ∧ comments (db out.2) !! 4 = Some (Comment.mk "First!" 9 77 1000).
Proof.
  intros d out.
  apply (delete_comment_orphan Demo.lib Demo.env d Demo.files_on_disk 4
           (Demo.request [("user_id", "9")] [] [] []) (Comment.mk "First!" 9 77 1000)).
  - reflexivity.
  - reflexivity.
  - apply surjective_pairing.
Defined.

(** X10: adding a comment to an existing post and deleting it again as its
    author gives back the database as it was before the two requests. *)
Theorem add_then_delete_comment L E E' C d fs post_id data text user_id req p r s' :
  posts d !! post_id = Some p →
  data !! "text" = Some (JStr text) →
  data !! "user_id" = Some (JNum user_id) →
  get_int L (args req) "user_id" = Some user_id →
  commit_error E = None →
  commit_error E' = None →
  serve_reply (add_comment E C post_id data) d fs = (r, s') →
  ∃ cid, payload r = CommentCreated
                       (comment_to_dict (db s') (cid, Comment.mk text user_id post_id (now E 0)))
    ∧ serve (delete_comment L E' cid req) (db s') (disk s')
      = (mkResponse 200 (Message "Deleted"), mkState d d fs 1 [] []).
Proof.
  intros Hp Ht Hu Hreq Hc Hc' Hrun.
  rewrite (add_comment_stored _ _ _ _ _ _ (JStr text) (JNum user_id) text user_id)
    in Hrun by done.
  simplify_eq/=. set (cid := next_id (comments d) (comments d)).
  exists cid. split; [done|].
  rewrite (delete_comment_allowed _ _ _ _ _ _
             (Comment.mk text user_id post_id (now E 0)) p); try done.
  - cbn. f_equal.
    assert (delete_comment_row cid
              (put_comment cid (Comment.mk text user_id post_id (now E 0)) d) = d) as ->;
      [|done].
    destruct d as [us ps ims cs]. unfold delete_comment_row, put_comment. cbn. f_equal.
    apply delete_insert_id. apply (next_id_fresh cs cs).
  - cbn. apply lookup_insert_eq.
  - rewrite Hreq. apply list_elem_of_here.
Qed.

Lemma add_then_delete_comment_witness :
  let data : gmap string Json := {[ "text" := JStr "Bravo"; "user_id" := JNum 2 ]} in
  let req := Demo.request [("user_id", "2")] [] [] [] in
  let out := serve_reply (add_comment Demo.env DemoColumns.columns 1 data)
                         Demo.store Demo.files_on_disk in
  ∃ cid, payload out.1
         = CommentCreated (comment_to_dict (db out.2) (cid, Comment.mk "Bravo" 2 1 1000))
    ∧ serve (delete_comment Demo.lib Demo.env cid req) (db out.2) (disk out.2)
      = (mkResponse 200 (Message "Deleted"),
         mkState Demo.store Demo.store Demo.files_on_disk 1 [] []).
Proof.
  intros data req out.
  apply (add_then_delete_comment Demo.lib Demo.env Demo.env DemoColumns.columns Demo.store
           Demo.files_on_disk 1 data "Bravo" 2 req Demo.paris out.1 out.2).
  - reflexivity.
  - reflexivity.
  - reflexivity.
  - reflexivity.
  - reflexivity.
  - reflexivity.
  - apply surjective_pairing.
Defined.

(** ** get_post_detail: what the reply holds *)

Lemma comments_of_elem_of st post_id cid c :
  (cid, c) ∈ comments_of st post_id
  ↔ comments st !! cid = Some c ∧ Comment.post_id c = post_id.
Proof.
  unfold comments_of. rewrite by_id_elem_of, map_lookup_filter_Some. cbn. tauto.
Qed.

Lemma images_of_elem_of st post_id i img :
  (i, img) ∈ images_of st post_id
  ↔ post_images st !! i = Some img ∧ PostImage.post_id img = post_id.
Proof.
  unfold images_of. rewrite by_id_elem_of, map_lookup_filter_Some. cbn. tauto.
Qed.

(** X11: for a post that exists, get_post_detail answers 200 with the
    fields of the post, the name of its owner ("Unknown" when there is no
    such user), exactly the images of this post as pairs of id and URL,
    and exactly the comments of this post. *)
Theorem get_post_detail_contents d fs post_id post :
  posts d !! post_id = Some post →
  ∃ pd cs,
    (serve (get_post_detail post_id) d fs).1 = mkResponse 200 (PostDetail pd)
    ∧ (serve (get_post_detail post_id) d fs).2 = start d fs
    ∧ pd_id pd = post_id ∧ pd_title pd = Post.title post
    ∧ pd_content pd = Post.content post ∧ pd_image_url pd = Post.image_url post
    ∧ pd_user_id pd = Post.user_id post
    ∧ pd_author pd = match users d !! Post.user_id post with
                     | Some u => User.username u
                     | None => "Unknown"
                     end
    ∧ (∀ i url, (i, url) ∈ pd_images pd ↔
         ∃ img, post_images d !! i = Some img ∧ PostImage.post_id img = post_id
                ∧ PostImage.url img = url)
    ∧ pd_comments pd = Some cs
    ∧ (∀ cd, cd ∈ cs ↔
         ∃ cid c, comments d !! cid = Some c ∧ Comment.post_id c = post_id
                  ∧ cd = comment_to_dict d (cid, c)).
Proof.
  intros Hp. rewrite (get_post_detail_found _ _ _ post) by done.
  exists (to_dict d true (post_id, post)), (comment_to_dict d <$> comments_of d post_id).
  cbn [fst snd to_dict pd_id pd_title pd_content pd_image_url pd_user_id
       pd_author pd_images pd_comments].
  split_and!; try reflexivity.
  - intros i url. rewrite list_elem_of_fmap. split.
    + intros ([i' img] & [= -> ->] & Hin). apply images_of_elem_of in Hin as [? ?].
      by exists img.
    + intros (img & Hi & Hpost & <-). exists (i, img). split; [done|].
      by apply images_of_elem_of.
  - intros cd. rewrite list_elem_of_fmap. split.
    + intros ([cid c] & -> & Hin). apply comments_of_elem_of in Hin as [? ?].
      by exists cid, c.
    + intros (cid & c & Hc & Hpost & ->). exists (cid, c). split; [done|].
      by apply comments_of_elem_of.
Qed.

Lemma get_post_detail_contents_witness :
  ∃ pd cs,
    (serve (get_post_detail 1) Demo.store Demo.files_on_disk).1
    = mkResponse 200 (PostDetail pd)
    ∧ (serve (get_post_detail 1) Demo.store Demo.files_on_disk).2
      = start Demo.store Demo.files_on_disk
    ∧ pd_id pd = 1 ∧ pd_title pd = "Paris"
    ∧ pd_content pd = "A week in France"
    ∧ pd_image_url pd = Some "/static/uploads/p.jpg"
    ∧ pd_user_id pd = 1
    ∧ pd_author pd = "alice"
    ∧ (∀ i url, (i, url) ∈ pd_images pd ↔
         ∃ img, post_images Demo.store !! i = Some img ∧ PostImage.post_id img = 1
                ∧ PostImage.url img = url)
    ∧ pd_comments pd = Some cs
    ∧ (∀ cd, cd ∈ cs ↔
         ∃ cid c, comments Demo.store !! cid = Some c ∧ Comment.post_id c = 1
                  ∧ cd = comment_to_dict Demo.store (cid, c)).
Proof.
  apply (get_post_detail_contents Demo.store Demo.files_on_disk 1 Demo.paris).
  reflexivity.
Defined.

(** X12: a comment that add_comment stored on an existing post is among
    the comments get_post_detail then shows for that post, as the very
    dictionary add_comment replied with. *)
Theorem add_comment_shows_in_detail E C d fs post_id data text user_id p r s' :
  posts d !! post_id = Some p →
  data !! "text" = Some (JStr text) →
  data !! "user_id" = Some (JNum user_id) →
  commit_error E = None →
  serve_reply (add_comment E C post_id data) d fs = (r, s') →
  ∃ cd pd cs,
    r = mkReply 201 (CommentCreated cd)
    ∧ (serve (get_post_detail post_id) (db s') (disk s')).1
      = mkResponse 200 (PostDetail pd)
    ∧ pd_comments pd = Some cs
    ∧ cd ∈ cs.
Proof.
  intros Hp Ht Hu Hc Hrun.
  rewrite (add_comment_stored _ _ _ _ _ _ (JStr text) (JNum user_id) text user_id)
    in Hrun by done.
  simplify_eq/=.
  set (cid := next_id (comments d) (comments d)).
  set (c := Comment.mk text user_id post_id (now E 0)).
  rewrite (get_post_detail_found _ _ _ p) by done.
  eexists _, _, _. split_and!; try reflexivity.
  cbn [to_dict pd_comments]. apply list_elem_of_fmap. exists (cid, c). split; [done|].
  apply comments_of_elem_of. split; [|done]. cbn. apply lookup_insert_eq.
Qed.

Lemma add_comment_shows_in_detail_witness :
  let data : gmap string Json := {[ "text" := JStr "Bravo"; "user_id" := JNum 2 ]} in
  let out := serve_reply (add_comment Demo.env DemoColumns.columns 1 data)
                         Demo.store Demo.files_on_disk in
  ∃ cd pd cs,
    out.1 = mkReply 201 (CommentCreated cd)
    ∧ (serve (get_post_detail 1) (db out.2) (disk out.2)).1
      = mkResponse 200 (PostDetail pd)
    ∧ pd_comments pd = Some cs
    ∧ cd ∈ cs.
Proof.
  intros data out.
  apply (add_comment_shows_in_detail Demo.env DemoColumns.columns Demo.store
           Demo.files_on_disk 1 data "Bravo" 2 Demo.paris out.1 out.2).
  - reflexivity.
  - reflexivity.
  - reflexivity.
  - reflexivity.
  - apply surjective_pairing.
Defined.

(** ** delete_post and delete_comment: the refusals *)

Lemma delete_post_denied L E d fs post_id req post :
  posts d !! post_id = Some post →
  get_int L (args req) "user_id" ≠ Some (Post.user_id post) →
  serve (delete_post L E post_id req) d fs
  = (mkResponse 403 (Message "Permission denied"), start d fs).
Proof.
  intros Hp Hu. unfold delete_post. run. rewrite Hp. run.
  by rewrite bool_decide_true by done.
Qed.

Lemma delete_post_missing L E d fs post_id req :
  posts d !! post_id = None →
  serve (delete_post L E post_id req) d fs
  = (mkResponse 404 (Unhandled NotFound), mkState d d fs 0 [] [NotFound]).
Proof. intros Hp. unfold delete_post. run. rewrite Hp. by run. Qed.

Lemma delete_comment_missing L E d fs comment_id req :
  comments d !! comment_id = None →
  serve (delete_comment L E comment_id req) d fs
  = (mkResponse 404 (Unhandled NotFound), mkState d d fs 0 [] [NotFound]).
Proof. intros Hc. unfold delete_comment. run. rewrite Hc. by run. Qed.

(** X13: delete_post by anyone but the owner of the post (also without a
    [user_id], or with one that is no integer) is answered 403 and deletes
    nothing: the post, its images, its comments and the files stay. *)
Theorem delete_post_non_owner_forbidden L E d fs post_id req post r s' :
  posts d !! post_id = Some post →
  get_int L (args req) "user_id" ≠ Some (Post.user_id post) →
  serve (delete_post L E post_id req) d fs = (r, s') →
  r = mkResponse 403 (Message "Permission denied")
  ∧ db s' = d
  ∧ posts (db s') !! post_id = Some post
  ∧ disk s' = fs.
Proof.
  intros Hp Hu Hrun. rewrite (delete_post_denied _ _ _ _ _ _ post) in Hrun by done.
  by simplify_eq/=.
Qed.

Lemma delete_post_non_owner_forbidden_witness :
  let run args := serve (delete_post Demo.lib Demo.env 1 (Demo.request args [] [] []))
                        Demo.store Demo.files_on_disk in
  ((run [("user_id", "2")]).1 = mkResponse 403 (Message "Permission denied")
   ∧ db (run [("user_id", "2")]).2 = Demo.store
   ∧ posts (db (run [("user_id", "2")]).2) !! 1 = Some Demo.paris
   ∧ disk (run [("user_id", "2")]).2 = Demo.files_on_disk)
  ∧ ((run []).1 = mkResponse 403 (Message "Permission denied")
     ∧ db (run []).2 = Demo.store
     ∧ posts (db (run []).2) !! 1 = Some Demo.paris
     ∧ disk (run []).2 = Demo.files_on_disk).
Proof.
  intros run. split.
  - apply (delete_post_non_owner_forbidden Demo.lib Demo.env Demo.store Demo.files_on_disk 1
             (Demo.request [("user_id", "2")] [] [] []) Demo.paris).
    + reflexivity.
    + vm_compute. discriminate.
    + apply surjective_pairing.
  - apply (delete_post_non_owner_forbidden Demo.lib Demo.env Demo.store Demo.files_on_disk 1
             (Demo.request [] [] [] []) Demo.paris).
    + reflexivity.
    + vm_compute. discriminate.
    + apply surjective_pairing.
Defined.

(** X14: the three handlers that look their row up outside any [try]
    answer 404 for an id within 64 bits that has no row, whatever else the
    request holds, and change nothing: delete_post and update_post for a
    post id, delete_comment for a comment id. *)
Theorem missing_row_is_404 L E d fs post_id comment_id req :
  int64 post_id = true →
  int64 comment_id = true →
  posts d !! post_id = None →
  comments d !! comment_id = None →
  let gone := (mkResponse 404 (Unhandled NotFound), mkState d d fs 0 [] [NotFound]) in
  serve (delete_post L E post_id req) d fs = gone
  ∧ serve (update_post L E post_id req) d fs = gone
  ∧ serve (delete_comment L E comment_id req) d fs = gone.
Proof.
  intros _ _ Hp Hc gone. unfold gone. split_and!.
  - by apply delete_post_missing.
  - by apply update_post_missing.
  - by apply delete_comment_missing.
Qed.

Lemma missing_row_is_404_witness :
  let req := Demo.request [("user_id", "1")] [("user_id", "1"); ("title", "Ghost")] [] [] in
  let gone := (mkResponse 404 (Unhandled NotFound),
               mkState Demo.store Demo.store Demo.files_on_disk 0 [] [NotFound]) in
  serve (delete_post Demo.lib Demo.env 7 req) Demo.store Demo.files_on_disk = gone
  ∧ serve (update_post Demo.lib Demo.env 7 req) Demo.store Demo.files_on_disk = gone
  ∧ serve (delete_comment Demo.lib Demo.env 8 req) Demo.store Demo.files_on_disk = gone.
Proof.
  intros req gone.
  apply (missing_row_is_404 Demo.lib Demo.env Demo.store Demo.files_on_disk 7 8 req);
    reflexivity.
Defined.

(** Every run of delete_post leaves the database as it was or removes the
    post with its images and comments; the files stay in either case. *)
Lemma delete_post_outcomes L E d fs post_id req r s' :
  serve (delete_post L E post_id req) d fs = (r, s') →
  disk s' = fs
  ∧ ((status r ≠ 200 ∧ db s' = d)
     ∨ (r = mkResponse 200 (Message "Deleted")
        ∧ is_Some (posts d !! post_id)
        ∧ db s' = delete_post_cascade post_id d)).
Proof.
  destruct (posts d !! post_id) as [post|] eqn:Hp.
  - destruct (decide (get_int L (args req) "user_id" = Some (Post.user_id post)))
      as [Hu|Hu].
    + destruct (commit_error E) as [e|] eqn:Hc.
      * unfold delete_post. run. rewrite Hp. run.
        rewrite Hu, bool_decide_false by (intros Hne; by apply Hne).
        run. rewrite Hc. run. destruct e; intros [= <- <-]; split; try done; by left.
      * rewrite (delete_post_owner _ _ _ _ _ _ post) by done.
        intros [= <- <-]. split; [done|]. right. by split_and!.
    + rewrite (delete_post_denied _ _ _ _ _ _ post) by done.
      intros [= <- <-]. split; [done|]. by left.
  - rewrite delete_post_missing by done. intros [= <- <-]. split; [done|]. by left.
Qed.

(** X15: deleting a post twice: once delete_post has succeeded, the same
    request again is answered 404 and changes nothing more. *)
Theorem delete_post_twice L E E' d fs post_id req r s' :
  serve (delete_post L E post_id req) d fs = (r, s') →
  status r = 200 →
  serve (delete_post L E' post_id req) (db s') (disk s')
  = (mkResponse 404 (Unhandled NotFound),
     mkState (db s') (db s') (disk s') 0 [] [NotFound]).
Proof.
  intros Hrun Hok.
  destruct (delete_post_outcomes _ _ _ _ _ _ _ _ Hrun) as [_ [[Hne _]|(_ & _ & Hdb)]]; [done|].
  apply delete_post_missing. rewrite Hdb. apply lookup_delete_eq.
Qed.

Lemma delete_post_twice_witness :
  let req := Demo.request [("user_id", "1")] [] [] [] in
  let out := serve (delete_post Demo.lib Demo.env 1 req) Demo.store Demo.files_on_disk in
  serve (delete_post Demo.lib Demo.env 1 req) (db out.2) (disk out.2)
  = (mkResponse 404 (Unhandled NotFound),
     mkState (db out.2) (db out.2) (disk out.2) 0 [] [NotFound]).
Proof.
  intros req out.
  apply (delete_post_twice Demo.lib Demo.env Demo.env Demo.store Demo.files_on_disk 1 req
           out.1).
  - apply surjective_pairing.
  - reflexivity.
Defined.

(** X16: delete_post removes rows only.  Whatever the outcome, no file is
    removed: after a successful deletion the files of the cover and of the
    images of the post are still on the disk, with no row left that names
    them. *)
Theorem delete_post_leaves_files L E d fs post_id req r s' :
  serve (delete_post L E post_id req) d fs = (r, s') →
  disk s' = fs
  ∧ (status r = 200 →
       ∀ i img, post_images d !! i = Some img → PostImage.post_id img = post_id →
                post_images (db s') !! i = None
                ∧ (lstrip_slash (PostImage.url img) ∈ fs →
                   lstrip_slash (PostImage.url img) ∈ disk s')).
Proof.
  intros Hrun.
  destruct (delete_post_outcomes _ _ _ _ _ _ _ _ Hrun)
    as [Hdisk [[Hne _]|(_ & _ & Hdb)]]; (split; [done|]); [done|].
  intros _ i img Hi Hpost. split; [|by rewrite Hdisk].
  rewrite Hdb. cbn. apply map_lookup_filter_None. right. intros img' Hi'. cbn.
  intros Hne. simplify_eq.
Qed.

Lemma delete_post_leaves_files_witness :
  let out := serve (delete_post Demo.lib Demo.env 1 (Demo.request [("user_id", "1")] [] [] []))
                   Demo.store Demo.files_on_disk in
  disk out.2 = Demo.files_on_disk
  ∧ (status out.1 = 200 →
       ∀ i img, post_images Demo.store !! i = Some img → PostImage.post_id img = 1 →
                post_images (db out.2) !! i = None
                ∧ (lstrip_slash (PostImage.url img) ∈ Demo.files_on_disk →
                   lstrip_slash (PostImage.url img) ∈ disk out.2)).
Proof.
  intros out.
  apply (delete_post_leaves_files Demo.lib Demo.env Demo.store Demo.files_on_disk 1
           (Demo.request [("user_id", "1")] [] [] []) out.1 out.2).
  apply surjective_pairing.
Defined.

(** ** create_post *)

Section CreateFrame.
Context (L : Lib) (E : Env) (d : Store) (post_id : Z).

Local Abbreviation J := (create_frames d post_id).

Lemma create_frame_start : J d d.
Proof. split; [done|]. split_and!; try done. intros; by left. Qed.

Lemma create_frame_keeps_append gallery_files :
  keeps (on_stores J) (append_gallery_images L E post_id gallery_files).
Proof.
  apply keeps_for_each. intros file _.
  apply keeps_bind; [apply keeps_smart_upload|]. intros [u|]; [|apply keeps_ret].
  destruct (truthy u); [|apply keeps_ret].
  intros s r s' [Ha (Hu & Hp & Hc & Hold & Hnew)] [= <- <-]. split; [done|].
  cbn. rewrite Ha in *. split_and!; try done; cbn.
  - intros i img Hi. rewrite lookup_insert_ne; [by apply Hold|].
    intros <-. destruct (next_id_fresh (post_images d) (post_images (session s))).
    congruence.
  - intros i img Hi. apply lookup_insert_Some in Hi as [[_ <-]|[_ Hi]]; [by right|].
    by apply Hnew.
Qed.

End CreateFrame.

Lemma smart_upload_truthy L E file s u s' :
  urls_nonempty E →
  smart_upload L E file s = (inr (Some u), s') → truthy u = true.
Proof.
  intros Hurls. unfold smart_upload. destruct (negb _); [by intros [= <-]|].
  destruct (getenv_truthy _).
  - destruct (cloudinary_upload E file) as [e|url] eqn:Hc; run; intros [= <- <-].
    apply bool_decide_eq_true. by eapply Hurls.
  - run. destruct (file_save E _); run; intros [= <- <-]. by apply bool_decide_eq_true.
Qed.

(** One image row for each file that has a name. *)
Lemma append_gallery_images_count L E post_id gallery_files s s' :
  urls_nonempty E →
  append_gallery_images L E post_id gallery_files s = (inr (), s') →
  size (post_images (session s'))
  = (size (post_images (session s))
     + length (filter (λ file, filename file ≠ "") gallery_files))%nat.
Proof.
  intros Hurls. unfold append_gallery_images.
  revert s. induction gallery_files as [|file files IH]; intros s; cbn [for_each].
  - intros [= <-]. cbn. lia.
  - intros Hrun. apply bind_inv in Hrun as [(e & _ & [=]) | ([] & s1 & Hstep & Hrest)].
    apply IH in Hrest. rewrite Hrest. clear Hrest IH.
    apply bind_inv in Hstep as [(e & _ & [=]) | (url & s0 & Hup & Hadd)].
    pose proof (smart_upload_effect _ _ _ _ _ _ Hup) as (_ & Hsess & _ & Hempty).
    rewrite filter_cons. destruct (decide (filename file = "")) as [Hn|Hn].
    + destruct (Hempty Hn) as [[= ->] ->]. unfold ret in Hadd. simplify_eq.
      rewrite decide_False by (intros Hne; by apply Hne). lia.
    + rewrite decide_True by done. cbn [length].
      assert (Htr : truthy (filename file) = true) by (by apply bool_decide_eq_true).
      assert (Hsome : is_Some url).
      { eapply (smart_upload_named L E file s); [done|]. by rewrite Hup. }
      destruct Hsome as [u ->].
      rewrite (smart_upload_truthy _ _ _ _ _ _ Hurls Hup) in Hadd.
      unfold add_image, set_session in Hadd. simplify_eq. cbn.
      rewrite map_size_insert_None; [rewrite Hsess; lia|].
      apply next_id_fresh.
Qed.

Lemma append_gallery_images_disk L E post_id gallery_files s r s' :
  append_gallery_images L E post_id gallery_files s = (r, s') → disk s ⊆ disk s'.
Proof.
  unfold append_gallery_images.
  revert s. induction gallery_files as [|file files IH]; intros s; cbn [for_each].
  - by intros [= <- <-].
  - intros Hrun.
    assert (Hstep : ∀ out s1,
      (new_url <- smart_upload L E file ;;
       match new_url with
       | Some u => if truthy u then add_image (PostImage.mk u post_id) else ret ()
       | None => ret ()
       end) s = (out, s1) → disk s ⊆ disk s1).
    { intros out s1 H.
      apply bind_inv in H as [(e & Hup & ->) | (url & s0 & Hup & Hadd)];
        pose proof (smart_upload_effect _ _ _ _ _ _ Hup) as (_ & _ & Hdisk & _); [done|].
      destruct url as [u|]; [destruct (truthy u)|];
        unfold add_image, set_session, ret in Hadd; by simplify_eq. }
    apply bind_inv in Hrun as [(e & Hs & ->) | ([] & s1 & Hs & Hrest)].
    + by eapply Hstep.
    + etrans; [by eapply Hstep | by eapply IH].
Qed.

Lemma flush_new_post_inv E C post_id title content user_id image_url s r s' :
  flush_new_post E C post_id title content user_id image_url s = (r, s') →
  db s' = db s ∧ disk s' = disk s
  ∧ match r with
    | inl _ => session s' = session s
    | inr _ =>
        ∃ title' content' uid_s uid t1 t2,
          title = Some title' ∧ content = Some content' ∧ user_id = Some uid_s
          ∧ form_integer C uid_s = inr uid
          ∧ session s'
            = insert_post post_id (Post.mk title' content' image_url uid t1 t2) (session s)
    end.
Proof.
  unfold flush_new_post.
  destruct title as [title'|], content as [content'|], user_id as [uid_s|];
    try (run_more; by intros [= <- <-]).
  run_more. destruct (form_integer C uid_s) as [e|uid] eqn:Hint; run_more;
    intros [= <- <-]; split_and!; try done.
  by eexists _, _, _, _, _, _.
Qed.

Lemma commit_inv E s r s' :
  commit E s = (r, s') →
  disk s' = disk s
  ∧ match commit_error E with
    | Some e => r = inl e ∧ db s' = db s
    | None => r = inr () ∧ db s' = flushed (now E (ticks s)) (db s) (session s)
    end.
Proof. unfold commit. destruct (commit_error E); run; by intros [= <- <-]. Qed.

Lemma flushed_insert_post t d b post_id p :
  posts b = posts d → posts d !! post_id = None →
  posts (flushed t d (insert_post post_id p b)) = <[post_id := p]> (posts d).
Proof.
  intros Hb Hfresh. apply map_eq. intros k. rewrite flushed_posts_lookup. cbn.
  rewrite Hb. destruct (decide (k = post_id)) as [->|Hk].
  - rewrite lookup_insert_eq. cbn. unfold touch. by rewrite Hfresh.
  - rewrite lookup_insert_ne by done.
    destruct (posts d !! k) as [q|] eqn:Hq; [|done]. cbn. f_equal. by apply touch_same.
Qed.

(** The body of the [try] of create_post, from the start of the request. *)
Lemma create_post_body L E C req d fs out s1 :
  let post_id := next_id (posts d) (posts d) in
  (pid <- next_post_id ;;
   image_url <- match files_get (files req) "image" with
                | Some file => smart_upload L E file
                | None => ret None
                end ;;
   append_gallery_images L E pid (files_getlist (files req) "images") ;;
   flush_new_post E C pid (form req !! "title") (form req !! "content")
                  (form req !! "user_id") image_url ;;
   commit E ;;
   ret (mkReply 201 (Created pid))) (start d fs) = (out, s1) →
  fs ⊆ disk s1
  ∧ (∀ file, files_get (files req) "image" = Some file →
             disk (smart_upload L E file (start d fs)).2 ⊆ disk s1)
  ∧ match out with
    | inl _ => db s1 = d
    | inr r =>
        ∃ title content uid_s uid image_url t1 t2,
          form req !! "title" = Some title ∧ form req !! "content" = Some content
          ∧ form req !! "user_id" = Some uid_s ∧ form_integer C uid_s = inr uid
          ∧ commit_error E = None
          ∧ match files_get (files req) "image" with
            | Some file => (smart_upload L E file (start d fs)).1 = inr image_url
            | None => image_url = None
            end
          ∧ r = mkReply 201 (Created post_id)
          ∧ posts (db s1)
            = <[post_id := Post.mk title content image_url uid t1 t2]> (posts d)
          ∧ users (db s1) = users d ∧ comments (db s1) = comments d
          ∧ (∀ i img, post_images d !! i = Some img → post_images (db s1) !! i = Some img)
          ∧ (∀ i img, post_images (db s1) !! i = Some img →
                      post_images d !! i = Some img ∨ PostImage.post_id img = post_id)
          ∧ (urls_nonempty E →
             size (post_images (db s1))
             = (size (post_images d)
                + length (filter (λ file, filename file ≠ "")
                                 (files_getlist (files req) "images")))%nat)
    end.
Proof.
  intros post_id Hrun.
  apply bind_inv in Hrun as [(e & [=] & _) | (pid & s0 & [= <- <-] & Hrun)].
  fold post_id in Hrun.
  (* the cover *)
  apply bind_inv in Hrun as [(e & Hcov & ->) | (image_url & s2 & Hcov & Hrun)].
  { destruct (files_get (files req) "image") as [file|]; [|by unfold ret in Hcov].
    split_and!.
    - by apply smart_upload_effect in Hcov as (? & _ & ? & _).
    - intros file' [= <-]. by rewrite Hcov.
    - by apply smart_upload_effect in Hcov as (? & _ & ? & _). }
  assert (Hs2 : db s2 = d ∧ session s2 = d ∧ fs ⊆ disk s2
                ∧ (∀ file, files_get (files req) "image" = Some file →
                           disk (smart_upload L E file (start d fs)).2 = disk s2)
                ∧ match files_get (files req) "image" with
                  | Some file => (smart_upload L E file (start d fs)).1 = inr image_url
                  | None => image_url = None
                  end).
  { destruct (files_get (files req) "image") as [file|].
    - rewrite Hcov. pose proof Hcov as Heff.
      apply smart_upload_effect in Heff as (? & ? & ? & _). split_and!; try done.
      intros file' [= <-]. by rewrite Hcov.
    - unfold ret in Hcov. by simplify_eq. }
  clear Hcov. destruct Hs2 as (Hdb2 & Hsess2 & Hdisk2 & Hcovdisk & Hcover).
  (* the gallery *)
  apply bind_inv in Hrun as [(e & Happ & ->) | ([] & s3 & Happ & Hrun)].
  { pose proof (append_gallery_images_disk _ _ _ _ _ _ _ Happ) as Hdisk3.
    split_and!; [by etrans | intros file Hf; by rewrite (Hcovdisk file Hf) |].
    eapply (create_frame_keeps_append L E d post_id) in Happ as [? _]; [done|].
    unfold on_stores. rewrite Hdb2, Hsess2. apply create_frame_start. }
  pose proof (append_gallery_images_disk _ _ _ _ _ _ _ Happ) as Hdisk3.
  pose proof (λ Hurls, append_gallery_images_count _ _ _ _ _ _ Hurls Happ) as Hcount.
  eapply (create_frame_keeps_append L E d post_id) in Happ as [Hdb3 Hframe];
    [|unfold on_stores; rewrite Hdb2, Hsess2; apply create_frame_start].
  destruct Hframe as (Hu3 & Hp3 & Hc3 & Hold3 & Hnew3).
  (* the flush and the commit *)
  apply bind_inv in Hrun as [(e & Hfl & ->) | ([] & s4 & Hfl & Hrun)].
  { apply flush_new_post_inv in Hfl as (Hdb4 & Hdisk4 & _).
    split_and!; [rewrite Hdisk4; by etrans
                | intros file Hf; by rewrite (Hcovdisk file Hf), Hdisk4
                | congruence]. }
  apply flush_new_post_inv in Hfl
    as (Hdb4 & Hdisk4 & title & content & uid_s & uid & t1 & t2 & Ht & Hc & Hu & Hint & Hs4).
  apply bind_inv in Hrun as [(e & Hcm & ->) | ([] & s5 & Hcm & Hrun)].
  { apply commit_inv in Hcm as (Hdisk5 & Hcm).
    split_and!; [rewrite Hdisk5, Hdisk4; by etrans
                | intros file Hf; by rewrite (Hcovdisk file Hf), Hdisk5, Hdisk4 |].
    destruct (commit_error E); destruct Hcm as [? Hdb5]; [congruence | done]. }
  apply commit_inv in Hcm as (Hdisk5 & Hcm). unfold ret in Hrun.
  injection Hrun as <- <-.
  split_and!; [rewrite Hdisk5, Hdisk4; by etrans
              | intros file Hf; by rewrite (Hcovdisk file Hf), Hdisk5, Hdisk4 |].
  destruct (commit_error E) as [e|] eqn:Hce; destruct Hcm as [? Hdb5]; [done|].
  exists title, content, uid_s, uid, image_url, t1, t2.
  rewrite Hdb5, Hdb4, Hdb3, Hs4.
  assert (Hfresh : posts d !! post_id = None) by apply next_id_fresh.
  split_and!; try done.
  - by apply flushed_insert_post.
  - cbn. intros Hurls. by rewrite Hcount, Hsess2.
Qed.

(** Every run of create_post either answers 500 and leaves the database as
    it was, or answers 201 after committing the new post with its images. *)
Lemma create_post_outcomes L E C req d fs r s' :
  serve_reply (create_post L E C req) d fs = (r, s') →
  let post_id := next_id (posts d) (posts d) in
  fs ⊆ disk s'
  ∧ (∀ file, files_get (files req) "image" = Some file →
             disk (smart_upload L E file (start d fs)).2 ⊆ disk s')
  ∧ ((code r = 500 ∧ db s' = d)
     ∨ ∃ title content uid_s uid image_url t1 t2,
         form req !! "title" = Some title ∧ form req !! "content" = Some content
         ∧ form req !! "user_id" = Some uid_s ∧ form_integer C uid_s = inr uid
         ∧ commit_error E = None
         ∧ match files_get (files req) "image" with
           | Some file => (smart_upload L E file (start d fs)).1 = inr image_url
           | None => image_url = None
           end
         ∧ r = mkReply 201 (Created post_id)
         ∧ posts (db s')
           = <[post_id := Post.mk title content image_url uid t1 t2]> (posts d)
         ∧ users (db s') = users d ∧ comments (db s') = comments d
         ∧ (∀ i img, post_images d !! i = Some img → post_images (db s') !! i = Some img)
         ∧ (∀ i img, post_images (db s') !! i = Some img →
                     post_images d !! i = Some img ∨ PostImage.post_id img = post_id)
         ∧ (urls_nonempty E →
            size (post_images (db s'))
            = (size (post_images d)
               + length (filter (λ file, filename file ≠ "")
                                (files_getlist (files req) "images")))%nat)).
Proof.
  intros Hrun post_id.
  apply serve_reply_inv in Hrun as (out & s & Hrun & -> & Hout).
  unfold create_post, try_except in Hrun.
  match type of Hrun with context [ let (_, _) := ?m ?s0 in _ ] =>
    destruct (m s0) as [[e|rep] s1] eqn:Hinner end;
    apply create_post_body in Hinner as (Hdisk & Hcov & Hbody).
  - revert Hrun. run. intros [= <- <-]. subst r. cbn. split_and!; [done..|]. by left.
  - simplify_eq. cbn [teardown db disk]. split_and!; [done..|]. right. exact Hbody.
Qed.

(** X17: a successful create_post (201) has committed exactly this: one
    new post under a fresh id, which the reply names, with the title, the
    content and the user_id of the form, the URL of the uploaded cover (or
    none) and the two timestamps; and new image rows, all of which belong
    to the new post, one for each gallery file with a name when the media
    store returns no empty URL.  Every row that was there is unchanged. *)
Theorem create_post_creates L E C req d fs r s' :
  serve_reply (create_post L E C req) d fs = (r, s') →
  code r = 201 →
  ∃ post_id title content uid_s uid image_url t1 t2,
    posts d !! post_id = None
    ∧ r = mkReply 201 (Created post_id)
    ∧ form req !! "title" = Some title ∧ form req !! "content" = Some content
    ∧ form req !! "user_id" = Some uid_s ∧ form_integer C uid_s = inr uid
    ∧ match files_get (files req) "image" with
      | Some file => (smart_upload L E file (start d fs)).1 = inr image_url
      | None => image_url = None
      end
    ∧ posts (db s') = <[post_id := Post.mk title content image_url uid t1 t2]> (posts d)
    ∧ users (db s') = users d ∧ comments (db s') = comments d
    ∧ (∀ i img, post_images d !! i = Some img → post_images (db s') !! i = Some img)
    ∧ (∀ i img, post_images (db s') !! i = Some img →
                post_images d !! i = Some img ∨ PostImage.post_id img = post_id)
    ∧ (urls_nonempty E →
       size (post_images (db s'))
       = (size (post_images d)
          + length (filter (λ file, filename file ≠ "")
                           (files_getlist (files req) "images")))%nat).
Proof.
  intros Hrun Hok.
  destruct (create_post_outcomes _ _ _ _ _ _ _ _ Hrun)
    as (_ & _ & [[Hbad _]|(title & content & uid_s & uid & image_url & t1 & t2 & H)]).
  { rewrite Hok in Hbad. discriminate. }
  exists (next_id (posts d) (posts d)), title, content, uid_s, uid, image_url, t1, t2.
  destruct H as (? & ? & ? & ? & _ & ? & ? & ? & ? & ? & ? & ? & ?).
  split_and!; try done. apply next_id_fresh.
Qed.

Lemma demo_urls_nonempty : urls_nonempty Demo.env.
Proof. intros file url. discriminate. Qed.

(** Bob posts "Lisbon" with a cover and two gallery files. *)
Lemma create_post_creates_witness :
  let req := Demo.request []
               [("title", "Lisbon"); ("content", "Trams"); ("user_id", "2")]
               [("image", mkFile "tram.png" "pixels");
                ("images", mkFile "a.png" "pixels"); ("images", mkFile "b.png" "pixels")] [] in
  let out := serve_reply (create_post Demo.lib Demo.env DemoColumns.columns req)
                         Demo.store Demo.files_on_disk in
  ∃ post_id title content uid_s uid image_url t1 t2,
    posts Demo.store !! post_id = None
    ∧ out.1 = mkReply 201 (Created post_id)
    ∧ form req !! "title" = Some title ∧ form req !! "content" = Some content
    ∧ form req !! "user_id" = Some uid_s
    ∧ form_integer DemoColumns.columns uid_s = inr uid
    ∧ match files_get (files req) "image" with
      | Some file => (smart_upload Demo.lib Demo.env file
                        (start Demo.store Demo.files_on_disk)).1 = inr image_url
      | None => image_url = None
      end
    ∧ posts (db out.2)
      = <[post_id := Post.mk title content image_url uid t1 t2]> (posts Demo.store)
    ∧ users (db out.2) = users Demo.store ∧ comments (db out.2) = comments Demo.store
    ∧ (∀ i img, post_images Demo.store !! i = Some img →
                post_images (db out.2) !! i = Some img)
    ∧ (∀ i img, post_images (db out.2) !! i = Some img →
                post_images Demo.store !! i = Some img ∨ PostImage.post_id img = post_id)
    ∧ (urls_nonempty Demo.env →
       size (post_images (db out.2))
       = (size (post_images Demo.store)
          + length (filter (λ file, filename file ≠ "")
                           (files_getlist (files req) "images")))%nat).
Proof.
  intros req out.
  apply (create_post_creates Demo.lib Demo.env DemoColumns.columns req Demo.store
           Demo.files_on_disk out.1 out.2).
  - apply surjective_pairing.
  - reflexivity.
Defined.

Example create_post_run :
  let req := Demo.request []
               [("title", "Lisbon"); ("content", "Trams"); ("user_id", "2")]
               [("image", mkFile "tram.png" "pixels");
                ("images", mkFile "a.png" "pixels"); ("images", mkFile "" "");
                ("images", mkFile "b.png" "pixels")] [] in
  let out := serve_reply (create_post Demo.lib Demo.env DemoColumns.columns req)
                         Demo.store Demo.files_on_disk in
  out.1 = mkReply 201 (Created 3)
  ∧ posts (db out.2) !! 3
    = Some (Post.mk "Lisbon" "Trams" (Some "/static/uploads/1000_tram.png") 2 1003 1004)
  ∧ by_id (filter (λ kv, PostImage.post_id kv.2 = 3) (post_images (db out.2)))
    = [(4, PostImage.mk "/static/uploads/1001_a.png" 3);
       (5, PostImage.mk "/static/uploads/1002_b.png" 3)].
Proof. repeat split; vm_compute; reflexivity. Qed.

(** X18: create_post is all or nothing for the database and keeps every
    file: a reply other than 201 is 500 and leaves the database as it was;
    a form without title, content or user_id always ends so; and no file
    that was on the disk is removed. *)
Theorem create_post_failure L E C req d fs r s' :
  serve_reply (create_post L E C req) d fs = (r, s') →
  (code r ≠ 201 → code r = 500 ∧ db s' = d)
  ∧ (form req !! "title" = None ∨ form req !! "content" = None
     ∨ form req !! "user_id" = None → code r = 500 ∧ db s' = d)
  ∧ fs ⊆ disk s'.
Proof.
  intros Hrun.
  destruct (create_post_outcomes _ _ _ _ _ _ _ _ Hrun)
    as (Hdisk & _ & [Hbad|(title & content & uid_s & uid & image_url & t1 & t2 & H)]).
  - by split_and!.
  - destruct H as (Ht & Hc & Hu & _ & _ & _ & -> & _).
    split_and!; [by intros Hne | | done].
    intros [?|[?|?]]; congruence.
Qed.

Lemma create_post_failure_witness :
  let req := Demo.request [] [("content", "Trams"); ("user_id", "2")]
               [("image", mkFile "tram.png" "pixels")] [] in
  let out := serve_reply (create_post Demo.lib Demo.env DemoColumns.columns req)
                         Demo.store Demo.files_on_disk in
  (code out.1 = 500 ∧ db out.2 = Demo.store) ∧ Demo.files_on_disk ⊆ disk out.2.
Proof.
  intros req out.
  destruct (create_post_failure Demo.lib Demo.env DemoColumns.columns req Demo.store
              Demo.files_on_disk out.1 out.2) as (_ & Hform & Hdisk).
  - apply surjective_pairing.
  - split; [|exact Hdisk]. apply Hform. left. reflexivity.
Defined.

(** ** Files of the local media store *)

Lemma smart_upload_local L E file s :
  getenv_truthy (CLOUDINARY_CLOUD_NAME E) = false →
  filename file ≠ "" →
  let path := "static/uploads/" +:+ strftime L (now E (ticks s)) +:+ "_"
              +:+ secure_filename L (filename file) in
  file_save E path = None →
  smart_upload L E file s
  = (inr (Some ("/" +:+ path)),
     mkState (db s) (session s) ({[ path ]} ∪ disk s) (S (ticks s)) (stdout s) (raised s)).
Proof.
  intros Hlocal Hn path Hsave. unfold smart_upload, truthy.
  rewrite bool_decide_true by done. cbn [negb]. rewrite Hlocal. run.
  fold path. by rewrite Hsave.
Qed.

(** X19: create_post stores the files before the database can refuse the
    post, and does not take them back: with the local media store, a named
    cover sent with a form that lacks its title is answered 500 with the
    database unchanged, and the cover file is on the disk afterwards. *)
Theorem create_post_refused_leaves_file L E C req d fs file r s' :
  getenv_truthy (CLOUDINARY_CLOUD_NAME E) = false →
  (∀ path, file_save E path = None) →
  files_get (files req) "image" = Some file →
  filename file ≠ "" →
  form req !! "title" = None →
  serve_reply (create_post L E C req) d fs = (r, s') →
  code r = 500 ∧ db s' = d
  ∧ ("static/uploads/" +:+ strftime L (now E 0) +:+ "_"
     +:+ secure_filename L (filename file)) ∈ disk s'.
Proof.
  intros Hlocal Hsave Hfile Hn Htitle Hrun.
  destruct (create_post_outcomes _ _ _ _ _ _ _ _ Hrun)
    as (_ & Hcov & [[Hcode Hdb]|(title & ? & ? & ? & ? & ? & ? & Ht & _)]);
    [|congruence].
  split_and!; try done. apply (Hcov file Hfile).
  rewrite smart_upload_local by done. cbn. set_solver.
Qed.

Lemma create_post_refused_leaves_file_witness :
  let file := mkFile "tram.png" "pixels" in
  let req := Demo.request [] [("content", "Trams"); ("user_id", "2")] [("image", file)] [] in
  let out := serve_reply (create_post Demo.lib Demo.env DemoColumns.columns req)
                         Demo.store Demo.files_on_disk in
  code out.1 = 500 ∧ db out.2 = Demo.store
  ∧ ("static/uploads/" +:+ strftime Demo.lib (now Demo.env 0) +:+ "_"
     +:+ secure_filename Demo.lib (filename file)) ∈ disk out.2.
Proof.
  intros file req out.
  apply (create_post_refused_leaves_file Demo.lib Demo.env DemoColumns.columns req
           Demo.store Demo.files_on_disk file out.1 out.2).
  - reflexivity.
  - reflexivity.
  - reflexivity.
  - discriminate.
  - reflexivity.
  - apply surjective_pairing.
Defined.

Lemma lstrip_slash_local path :
  lstrip_slash ("/" +:+ "static/uploads/" +:+ path) = "static/uploads/" +:+ path.
Proof. reflexivity. Qed.

(** X20: the URL that the local media store returns leads
    remove_physical_file to the very file that was saved: storing a named
    file and then removing it by its URL leaves the disk without that file
    and with every other file it had, and touches neither the database
    nor the session. *)
Theorem smart_upload_then_remove L E file s :
  getenv_truthy (CLOUDINARY_CLOUD_NAME E) = false →
  filename file ≠ "" →
  let path := "static/uploads/" +:+ strftime L (now E (ticks s)) +:+ "_"
              +:+ secure_filename L (filename file) in
  file_save E path = None →
  ∃ url s1 s2,
    smart_upload L E file s = (inr (Some url), s1)
    ∧ path ∈ disk s1
    ∧ remove_physical_file url s1 = (inr (), s2)
    ∧ disk s2 = disk s ∖ {[ path ]}
    ∧ db s2 = db s ∧ session s2 = session s.
Proof.
  intros Hlocal Hn path Hsave. eexists _, _, _.
  split; [by apply smart_upload_local|]. split; [cbn; set_solver|].
  assert (Hremove : ∀ s1, remove_physical_file ("/" +:+ path) s1
                          = set_disk (λ fs, fs ∖ {[ path ]}) s1).
  { intros s1. reflexivity. }
  rewrite Hremove. split; [reflexivity|]. cbn. split_and!; try done.
  apply set_eq. intros x. rewrite !elem_of_difference, elem_of_union. tauto.
Qed.

Lemma smart_upload_then_remove_witness :
  let file := mkFile "map.png" "pixels" in
  let s := start Demo.store Demo.files_on_disk in
  ∃ url s1 s2,
    smart_upload Demo.lib Demo.env file s = (inr (Some url), s1)
    ∧ "static/uploads/1000_map.png" ∈ disk s1
    ∧ remove_physical_file url s1 = (inr (), s2)
    ∧ disk s2 = disk s ∖ {[ "static/uploads/1000_map.png" ]}
    ∧ db s2 = db s ∧ session s2 = session s.
Proof.
  intros file s.
  apply (smart_upload_then_remove Demo.lib Demo.env file s).
  - reflexivity.
  - discriminate.
  - reflexivity.
Defined.

(** ** No image and no comment without its post *)

Lemma delete_comment_outcomes L E d fs comment_id req r s' :
  serve (delete_comment L E comment_id req) d fs = (r, s') →
  db s' = d ∨ db s' = delete_comment_row comment_id d.
Proof.
  destruct (comments d !! comment_id) as [c|] eqn:Hc.
  - destruct (posts d !! Comment.post_id c) as [p|] eqn:Hp.
    + destruct (decide (get_int L (args req) "user_id"
                        ∈ [Some (Comment.user_id c); Some (Post.user_id p)])) as [Hin|Hout].
      * destruct (commit_error E) as [e|] eqn:Hce.
        -- unfold delete_comment. run. rewrite Hc. run. rewrite Hp. run.
           rewrite bool_decide_true by done. run. rewrite Hce. run.
           destruct e; intros [= <- <-]; by left.
        -- rewrite (delete_comment_allowed _ _ _ _ _ _ c p) by done.
           intros [= <- <-]. by right.
      * rewrite (delete_comment_denied _ _ _ _ _ _ c p) by done.
        intros [= <- <-]. by left.
    + unfold delete_comment. run. rewrite Hc. run. rewrite Hp. run.
      intros [= <- <-]. by left.
  - rewrite delete_comment_missing by done. intros [= <- <-]. by left.
Qed.

Lemma no_orphans_delete_post post_id d :
  no_orphans d → no_orphans (delete_post_cascade post_id d).
Proof.
  intros [Hi Hc]. split; cbn.
  - intros i img [Himg Hne]%map_lookup_filter_Some. cbn in Hne.
    rewrite lookup_delete_ne by done. by eapply Hi.
  - intros i c [Hcm Hne]%map_lookup_filter_Some. cbn in Hne.
    rewrite lookup_delete_ne by done. by eapply Hc.
Qed.

Lemma no_orphans_update_frame d post_id post x :
  no_orphans d → update_frame d post_id post x → no_orphans x.
Proof.
  intros [Hi Hc] (Hu & Hcs & Hother & (p & Hp & _) & Hkeep & Hnew).
  assert (Hposts : ∀ k, is_Some (posts d !! k) → is_Some (posts x !! k)).
  { intros k Hk. destruct (decide (k = post_id)) as [->|Hne]; [by eexists|].
    by rewrite Hother. }
  split.
  - intros i img Himg. destruct (Hnew _ _ Himg) as [Hold| ->]; [|by eexists].
    by eapply Hposts, Hi.
  - intros i c. rewrite Hcs. intros Hcm. by eapply Hposts, Hc.
Qed.

(** X21: the handlers that write keep the database free of orphans, except
    add_comment: if every image and every comment has its post before a
    delete_post, a delete_comment, an update_post or a create_post request,
    then so it is afterwards, whatever the request holds and whatever the
    backend does at the commit. *)
Theorem writers_keep_no_orphans L E C d fs req post_id comment_id :
  no_orphans d →
  (∀ r s', serve (delete_post L E post_id req) d fs = (r, s') → no_orphans (db s'))
  ∧ (∀ r s', serve (delete_comment L E comment_id req) d fs = (r, s') → no_orphans (db s'))
  ∧ (∀ r s', serve (update_post L E post_id req) d fs = (r, s') → no_orphans (db s'))
  ∧ (∀ r s', serve_reply (create_post L E C req) d fs = (r, s') → no_orphans (db s')).
Proof.
  intros Hd. split_and!; intros r s' Hrun.
  - destruct (delete_post_outcomes _ _ _ _ _ _ _ _ Hrun) as [_ [[_ ->]|(_ & _ & ->)]];
      [done | by apply no_orphans_delete_post].
  - destruct (delete_comment_outcomes _ _ _ _ _ _ _ _ Hrun) as [->| ->]; [done|].
    destruct Hd as [Hi Hc]. split; cbn; [done|].
    intros i c [_ Hcm]%lookup_delete_Some. by eapply Hc.
  - destruct (posts d !! post_id) as [post|] eqn:Hp.
    + eapply no_orphans_update_frame; [done|]. by eapply update_post_keeps_frame.
    + rewrite update_post_missing in Hrun by done. by simplify_eq/=.
  - destruct (create_post_outcomes _ _ _ _ _ _ _ _ Hrun)
      as (_ & _ & [[_ ->]|(title & content & uid_s & uid & image_url & t1 & t2 & H)]);
      [done|].
    destruct H as (_ & _ & _ & _ & _ & _ & _ & Hposts & _ & Hcs & Hold & Hnew & _).
    destruct Hd as [Hi Hc].
    assert (Hkeep : ∀ k, is_Some (posts d !! k) → is_Some (posts (db s') !! k)).
    { intros k [q Hq]. rewrite Hposts.
      destruct (decide (next_id (posts d) (posts d) = k)) as [<-|Hne].
      - rewrite lookup_insert_eq. by eexists.
      - rewrite lookup_insert_ne by done. by eexists. }
    split.
    + intros i img Himg. destruct (Hnew _ _ Himg) as [Himg'| ->].
      * by eapply Hkeep, Hi.
      * rewrite Hposts, lookup_insert_eq. by eexists.
    + intros i c. rewrite Hcs. intros Hcm. by eapply Hkeep, Hc.
Qed.

Lemma demo_no_orphans : no_orphans Demo.store.
Proof.
  split; intros i x Hi; unfold Demo.store in Hi; cbn [post_images comments] in Hi;
    repeat (apply lookup_insert_Some in Hi as [[_ <-]|[_ Hi]]; [by eexists|]);
    apply lookup_singleton_Some in Hi as [_ <-]; by eexists.
Qed.

Lemma writers_keep_no_orphans_witness :
  let req := Demo.request [("user_id", "1")]
               [("user_id", "1"); ("title", "Paris in spring"); ("content", "Rain");
                ("delete_image_ids", "[1]")]
               [("images", mkFile "seine.png" "pixels")] [] in
  no_orphans (db (serve (delete_post Demo.lib Demo.env 1 req)
                        Demo.store Demo.files_on_disk).2)
  ∧ no_orphans (db (serve (delete_comment Demo.lib Demo.env 2 req)
                          Demo.store Demo.files_on_disk).2)
  ∧ no_orphans (db (serve (update_post Demo.lib Demo.env 1 req)
                          Demo.store Demo.files_on_disk).2)
  ∧ no_orphans (db (serve_reply (create_post Demo.lib Demo.env DemoColumns.columns req)
                                Demo.store Demo.files_on_disk).2).
Proof.
  intros req.
  destruct (writers_keep_no_orphans Demo.lib Demo.env DemoColumns.columns Demo.store
              Demo.files_on_disk req 1 2 demo_no_orphans) as (H1 & H2 & H3 & H4).
  split_and!.
  - eapply H1. apply surjective_pairing.
  - eapply H2. apply surjective_pairing.
  - eapply H3. apply surjective_pairing.
  - eapply H4. apply surjective_pairing.
Defined.

(** ** update_post: the fields *)

Lemma touch_fields t (committed : gmap Z Post.t) k p :
  Post.title (touch t committed k p) = Post.title p
  ∧ Post.content (touch t committed k p) = Post.content p.
Proof. unfold touch. destruct (committed !! k); [case_decide|]; done. Qed.

Lemma staged_posts_post d post_id req post :
  posts d !! post_id = Some post →
  staged_posts d post_id req post !! post_id
  = Some (Post.mk (default (Post.title post) (form req !! "title"))
                  (default (Post.content post) (form req !! "content"))
                  (if bool_decide (form req !! "delete_cover" = Some "true")
                   then None else Post.image_url post)
                  (Post.user_id post) (Post.created_at post) (Post.updated_at post)).
Proof.
  intros Hp. unfold staged_posts.
  destruct (bool_decide _); rewrite !lookup_alter_eq, Hp; reflexivity.
Qed.




(** ** login: exactly the valid credentials *)

(** X23: with unique usernames, login answers 200 exactly when some user
    row has the username of the request and a stored hash that the check
    accepts for the password of the request; it answers 401 otherwise, and
    so also when a password is sent under another user's name. *)
Theorem login_exactly_verified L d fs req name pw r s' :
  usernames_unique d →
  json req !! "username" = Some name →
  json req !! "password" = Some pw →
  serve (login L req) d fs = (r, s') →
  (status r = 200 ↔
     ∃ uid u, users d !! uid = Some u ∧ User.username u = name
              ∧ check_password_hash L (User.password u) pw = true)
  ∧ (status r = 200 ∨ r = mkResponse 401 (Message "Invalid credentials")).
Proof.
  intros Huniq Hname Hpw Hrun.
  destruct (find_user d name) as [[uid u]|] eqn:Hf.
  - rewrite (login_found _ _ _ _ name pw uid u) in Hrun by done.
    apply find_user_Some in Hf as [Hu Hun].
    destruct (check_password_hash L (User.password u) pw) eqn:Hck; simplify_eq/=.
    + split; [|by left]. split; [|done]. intros _. by exists uid, u.
    + split; [|by right]. split; [done|].
      intros (uid' & u' & Hu' & Hun' & Hck').
      assert (uid' = uid) as -> by (by eapply Huniq). simplify_eq. congruence.
  - rewrite (login_unknown _ _ _ _ name) in Hrun by done. simplify_eq/=.
    split; [|by right]. split; [done|].
    intros (uid' & u' & Hu' & Hun' & _). rewrite find_user_None in Hf.
    by destruct (Hf uid' u').
Qed.

(** Alice's password under Bob's name is refused. *)
Lemma login_exactly_verified_witness :
  let req := Demo.request [] [] [] [("username", "bob"); ("password", "wonderland")] in
  let out := serve (login Demo.lib req) Demo.store Demo.files_on_disk in
  (status out.1 = 200 ↔
     ∃ uid u, users Demo.store !! uid = Some u ∧ User.username u = "bob"
              ∧ check_password_hash Demo.lib (User.password u) "wonderland" = true)
  ∧ (status out.1 = 200 ∨ out.1 = mkResponse 401 (Message "Invalid credentials")).
Proof.
  intros req out.
  apply (login_exactly_verified Demo.lib Demo.store Demo.files_on_disk req
           "bob" "wonderland" out.1 out.2).
  - exact demo_usernames_unique.
  - reflexivity.
  - reflexivity.
  - apply surjective_pairing.
Defined.

(** ** get_posts: the case of the term, and terms without wildcards *)

Lemma lower_ascii_idemp c : lower_ascii (lower_ascii c) = lower_ascii c.
Proof. destruct c as [[] [] [] [] [] [] [] []]; reflexivity. Qed.

Lemma lower_idemp s : lower (lower s) = lower s.
Proof. induction s as [|c s IH]; [done|]. cbn. by rewrite lower_ascii_idemp, IH. Qed.

Lemma lower_empty s : lower s = "" ↔ s = "".
Proof. destruct s; cbn; split; intros H; done. Qed.

Lemma ilike_term_case col q1 q2 :
  lower q1 = lower q2 →
  ilike col ("%" +:+ q1 +:+ "%") = ilike col ("%" +:+ q2 +:+ "%").
Proof. intros H. unfold ilike. by rewrite !lower_app, H. Qed.

(** X24: the search of get_posts does not see the case of the term: two
    requests whose terms differ only in the case of ASCII letters get the
    same reply. *)
Theorem get_posts_term_case req1 req2 d fs q1 q2 :
  args req1 !! "q" = Some q1 →
  args req2 !! "q" = Some q2 →
  lower q1 = lower q2 →
  serve (get_posts req1) d fs = serve (get_posts req2) d fs.
Proof.
  intros H1 H2 Hq. unfold get_posts. run. rewrite H1, H2. cbn [default id].
  assert (Ht : truthy q1 = truthy q2).
  { unfold truthy. apply bool_decide_ext. rewrite <- (lower_empty q1), <- (lower_empty q2).
    by rewrite Hq. }
  rewrite Ht. destruct (truthy q2); [|done].
  assert (Hfilter :
    filter (λ kp : Z * Post.t, ilike (Post.title kp.2) ("%" +:+ q1 +:+ "%")
                               || ilike (Post.content kp.2) ("%" +:+ q1 +:+ "%"))
           (map_to_list (posts d))
    = filter (λ kp : Z * Post.t, ilike (Post.title kp.2) ("%" +:+ q2 +:+ "%")
                                 || ilike (Post.content kp.2) ("%" +:+ q2 +:+ "%"))
             (map_to_list (posts d))).
  { apply list_filter_iff. intros kp.
    by rewrite (ilike_term_case _ q1 q2), (ilike_term_case (Post.content kp.2) q1 q2). }
  by rewrite Hfilter.
Qed.

Lemma get_posts_term_case_witness :
  serve (get_posts (Demo.request [("q", "PARIS")] [] [] [])) Demo.store Demo.files_on_disk
  = serve (get_posts (Demo.request [("q", "paris")] [] [] [])) Demo.store Demo.files_on_disk.
Proof.
  apply (get_posts_term_case _ _ Demo.store Demo.files_on_disk "PARIS" "paris");
    reflexivity.
Defined.



(** ** migrate.py *)

Lemma pg_insert_all_inv F l t t' :
  NoDup l.*1 →
  pg_insert_all F l t = inr t' →
  pg_next_id t' = pg_next_id t ∧ pg_rows t' = list_to_map l ∪ pg_rows t.
Proof.
  revert t. induction l as [|[k p] l IH]; intros t Hnd Hrun.
  - cbn in Hrun. injection Hrun as <-. split; [done|].
    cbn. by rewrite (left_id_L ∅ (∪)).
  - cbn [pg_insert_all and_then] in Hrun.
    apply NoDup_cons in Hnd as [Hk Hnd]. cbn [fmap list_fmap fst] in Hk.
    unfold pg_insert in Hrun. cbn [fst snd] in Hrun.
    destruct (pg_execute_error F (InsertPost k p)); [done|].
    destruct (pg_rows t !! k) eqn:Hfree; [done|].
    apply IH in Hrun as [Hnext Hrows]; [|done].
    cbn [pg_rows pg_next_id] in Hnext, Hrows. split; [done|].
    rewrite Hrows. cbn [list_to_map foldr fst snd uncurry].
    rewrite <-insert_union_r, insert_union_l; [done|].
    by apply not_elem_of_list_to_map_1.
Qed.

Lemma pg_insert_all_ok F l t :
  (∀ st, pg_execute_error F st = None) →
  NoDup l.*1 →
  (∀ k, k ∈ l.*1 → pg_rows t !! k = None) →
  ∃ t', pg_insert_all F l t = inr t'.
Proof.
  intros Hexec. revert t. induction l as [|[k p] l IH]; intros t Hnd Hfree.
  - by eexists.
  - cbn [pg_insert_all]. unfold pg_insert. cbn [fst snd].
    apply NoDup_cons in Hnd as [Hk Hnd]. cbn [fmap list_fmap fst] in Hk.
    rewrite Hexec, (Hfree k) by (cbn; left). cbn [and_then].
    apply IH; [done|]. intros j Hj. cbn [pg_rows].
    rewrite lookup_insert_ne by (intros ->; done).
    apply Hfree. cbn. by right.
Qed.

Lemma migration_body_inv F local cloud report table :
  migration_body F local cloud = inr (report, table) →
  (report = NothingFound ∧ table = None ∧ local = ∅) ∨
  (report = Moved (size local) ∧ table = Some (mkPgPost local 1) ∧ local ≠ ∅).
Proof.
  unfold migration_body, guard, and_then.
  destruct (sqlite_connect_error F); [done|].
  destruct (pg_connect_error F); [done|].
  destruct (pg_execute_error F CreateTableIfNotExists); [done|].
  destruct (sqlite_select_error F); [done|].
  case_bool_decide as Hposts.
  - intros [= <- <-]. left. by apply map_to_list_empty_iff in Hposts.
  - destruct (pg_execute_error F TruncateRestartIdentity); [done|].
    destruct (pg_insert_all F (map_to_list local) _) as [|t'] eqn:Hins; [done|].
    destruct (pg_commit_error F); [done|].
    intros [= <- <-]. right.
    apply pg_insert_all_inv in Hins as [Hnext Hrows];
      [|apply NoDup_fst_map_to_list].
    cbn [pg_rows pg_next_id] in Hnext, Hrows.
    rewrite list_to_map_to_list, (right_id_L ∅ (∪)) in Hrows.
    split_and!.
    + by rewrite length_map_to_list.
    + destruct t'; cbn in *; by subst.
    + intros ->. by rewrite map_to_list_empty in Hposts.
Qed.

(** X26. With both databases reachable and no statement refused, the
    migration of a non-empty local table reports every local post as moved
    and leaves PostgreSQL with exactly the local posts under their local
    ids, whatever it held before; the id sequence is back at its start. *)
Theorem migration_moves_all (F : Faults) (local : gmap Z Post.t) (cloud : option PgPost) :
  sqlite_connect_error F = None →
  pg_connect_error F = None →
  (∀ st, pg_execute_error F st = None) →
  sqlite_select_error F = None →
  pg_commit_error F = None →
  local ≠ ∅ →
  start_migration F local cloud = (Moved (size local), Some (mkPgPost local 1)).
Proof.
  intros Hsqlite Hpg Hexec Hselect Hcommit Hlocal.
  destruct (pg_insert_all_ok F (map_to_list local) (mkPgPost ∅ 1) Hexec)
    as [t' Hins]; [apply NoDup_fst_map_to_list|done|].
  assert (Hbody : ∃ r, migration_body F local cloud = inr r).
  { unfold migration_body, guard, and_then.
    rewrite Hsqlite, Hpg, Hexec, Hselect.
    case_bool_decide as Hposts.
    { by apply map_to_list_empty_iff in Hposts. }
    rewrite Hexec, Hins, Hcommit. by eexists. }
  destruct Hbody as [[report table] Hbody].
  unfold start_migration. rewrite Hbody.
  apply migration_body_inv in Hbody as [(_ & _ & ?)|(-> & -> & _)]; done.
Qed.

Lemma migration_moves_all_witness :
  start_migration no_faults (posts Demo.store) None =
    (Moved (size (posts Demo.store)), Some (mkPgPost (posts Demo.store) 1)).
Proof.
  apply (migration_moves_all no_faults (posts Demo.store) None);
    try reflexivity.
  intros Hempty.
  assert (Hsome : posts Demo.store !! 1 = None) by (by rewrite Hempty).
  vm_compute in Hsome. discriminate.
Defined.

(** X27. The migration is all or nothing, whatever goes wrong: either it
    reports success and PostgreSQL holds exactly the local posts, or
    PostgreSQL is as it was before (nothing truncated, no table created)
    and no success is reported.  An empty local table is always the second
    case, and "nothing found" is printed only for an empty local table. *)
Theorem migration_all_or_nothing (F : Faults) (local : gmap Z Post.t) (cloud : option PgPost) :
  (local ≠ ∅ ∧
   start_migration F local cloud = (Moved (size local), Some (mkPgPost local 1))) ∨
  ((start_migration F local cloud).2 = cloud ∧
   (∀ n, (start_migration F local cloud).1 ≠ Moved n) ∧
   ((start_migration F local cloud).1 = NothingFound → local = ∅)).
Proof.
  unfold start_migration.
  destruct (migration_body F local cloud) as [e|[report table]] eqn:Hbody.
  - right. by cbn.
  - apply migration_body_inv in Hbody as [(-> & -> & ->)|(-> & -> & Hlocal)].
    + right. by cbn.
    + by left.
Qed.

(** ** update_post: removing gallery images *)

Lemma mapM_JNum ids :
  mapM (λ x, match x with JNum z => Some z | _ => None end) (JNum <$> ids) = Some ids.
Proof. induction ids as [|z ids IH]; [done|]. cbn. by rewrite IH. Qed.

(** The loop of step 3 over any list of image rows. *)
Lemma remove_images_loop (l : list (Z * PostImage.t)) s :
  ∃ s',
    for_each l (λ img, remove_physical_file (PostImage.url img.2) ;;
                       set_session (delete_image img.1)) s = (inr (), s')
    ∧ db s' = db s ∧ ticks s' = ticks s ∧ stdout s' = stdout s ∧ raised s' = raised s
    ∧ users (session s') = users (session s)
    ∧ posts (session s') = posts (session s)
    ∧ comments (session s') = comments (session s)
    ∧ (∀ i, post_images (session s') !! i
            = if decide (i ∈ l.*1) then None else post_images (session s) !! i)
    ∧ (∀ p, p ∈ disk s' ↔
            p ∈ disk s ∧ ∀ img, img ∈ l.*2 → stored_locally (PostImage.url img) = true →
                                p ≠ lstrip_slash (PostImage.url img)).
Proof.
  revert s. induction l as [|[k img] l IH]; intros s.
  - exists s. cbn [for_each]. split_and!; try done.
    intros p. cbn. split; [|tauto]. intros Hp. split; [done|].
    intros x Hx. by apply elem_of_nil in Hx.
  - cbn [for_each fst snd].
    set (s1 := mkState (db s) (delete_image k (session s))
                 (if stored_locally (PostImage.url img)
                  then disk s ∖ {[ lstrip_slash (PostImage.url img) ]} else disk s)
                 (ticks s) (stdout s) (raised s)).
    assert (Hstep : (remove_physical_file (PostImage.url img) ;;
                     set_session (delete_image k)) s = (inr (), s1)).
    { unfold s1, remove_physical_file, stored_locally.
      destruct (negb (truthy (PostImage.url img)) || String.prefix "http" (PostImage.url img));
        by run. }
    destruct (IH s1) as (s' & Hrun & Hdb & Ht & Ho & Hr & Hu & Hp & Hc & Himg & Hdisk).
    exists s'. unfold bind at 1. rewrite Hstep. split_and!; try done.
    + intros i. rewrite Himg. cbn [fmap list_fmap fst].
      destruct (decide (i = k)) as [->|Hne].
      * rewrite (decide_True (P := k ∈ k :: l.*1)) by apply list_elem_of_here.
        destruct (decide (k ∈ l.*1)); [done|]. cbn. apply lookup_delete_eq.
      * destruct (decide (i ∈ l.*1)) as [Hin|Hout].
        -- rewrite decide_True; [done|]. by apply list_elem_of_further.
        -- rewrite decide_False.
           ++ cbn. by rewrite lookup_delete_ne.
           ++ intros [->|Hin]%elem_of_cons; done.
    + intros p. rewrite Hdisk. cbn [fmap list_fmap snd disk s1].
      split.
      * intros [Hp1 Hrest]. split.
        -- destruct (stored_locally (PostImage.url img)); [|done].
           by apply elem_of_difference in Hp1 as [? _].
        -- intros x [->|Hx]%elem_of_cons Hloc; [|by apply Hrest].
           rewrite Hloc in Hp1. apply elem_of_difference in Hp1 as [_ Hp1].
           intros ->. apply Hp1. by apply elem_of_singleton.
      * intros [Hp0 Hall]. split.
        -- destruct (stored_locally (PostImage.url img)) eqn:Hloc; [|done].
           apply elem_of_difference. split; [done|]. intros ->%elem_of_singleton.
           apply (Hall img); [apply list_elem_of_here|done..].
        -- intros x Hx. apply Hall. by apply list_elem_of_further.
Qed.

(** Step 3 for a [delete_image_ids] that decodes to a list of integers:
    it returns, deletes from the session exactly the listed images of the
    post, and removes their local files. *)
Lemma remove_gallery_images_effect L E post_id txt ids s :
  json_loads L txt = Some (JArr (JNum <$> ids)) →
  forallb int64 ids = true →
  ∃ s',
    try_except (remove_gallery_images L E post_id txt)
               (λ e, print (PrintGalleryFailed e)) s = (inr (), s')
    ∧ db s' = db s ∧ ticks s' = ticks s ∧ raised s' = raised s
    ∧ users (session s') = users (session s)
    ∧ posts (session s') = posts (session s)
    ∧ comments (session s') = comments (session s)
    ∧ (∀ i, post_images (session s') !! i
            = match post_images (session s) !! i with
              | Some img => if decide (listed ids post_id i img) then None else Some img
              | None => None
              end)
    ∧ (∀ p, p ∈ disk s' ↔
            p ∈ disk s ∧ ∀ i img, post_images (session s) !! i = Some img →
                                  listed ids post_id i img →
                                  stored_locally (PostImage.url img) = true →
                                  p ≠ lstrip_slash (PostImage.url img)).
Proof.
  intros Hjson Hrange. unfold try_except, remove_gallery_images. rewrite Hjson.
  cbn [json_truthy]. case_bool_decide as Hnil.
  - unfold in_ids. rewrite mapM_JNum, Hrange. unfold bind at 1, get_session.
    set (l := by_id (filter _ (post_images (session s)))).
    assert (Hl : ∀ i img, (i, img) ∈ l ↔
                   post_images (session s) !! i = Some img ∧ listed ids post_id i img).
    { intros i img. unfold l. rewrite by_id_elem_of, map_lookup_filter_Some.
      unfold listed. cbn. tauto. }
    clearbody l.
    destruct (remove_images_loop l s)
      as (s1 & Hrun & Hdb & Ht & Ho & Hr & Hu & Hp & Hc & Himg & Hdisk).
    unfold bind at 1. rewrite Hrun. unfold print.
    eexists. split; [reflexivity|]. cbn [db session disk ticks stdout raised].
    split_and!; try done.
    + intros i. rewrite Himg.
      destruct (post_images (session s) !! i) as [img|] eqn:Hi.
      * destruct (decide (listed ids post_id i img)) as [Hlisted|Hnot].
        -- rewrite decide_True; [done|].
           apply list_elem_of_fmap. exists (i, img). split; [done|]. by apply Hl.
        -- rewrite decide_False; [done|].
           intros ([j x] & -> & Hjx)%list_elem_of_fmap. apply Hl in Hjx as [Hj Hlisted].
           cbn [fst] in Hi, Hnot. by simplify_eq.
      * by destruct (decide _).
    + intros p. rewrite Hdisk. split; intros [Hp0 Hall]; (split; [done|]).
      * intros i img Hi Hlisted. apply Hall.
        apply list_elem_of_fmap. exists (i, img). split; [done|]. by apply Hl.
      * intros img ([j x] & -> & Hjx)%list_elem_of_fmap. apply Hl in Hjx as [Hj Hlisted].
        by apply (Hall j).
  - exists s. split; [done|].
    assert (Hids : ids = []).
    { destruct ids; [done|]. discriminate Hnil. }
    subst ids. split_and!; try done.
    + intros i. destruct (post_images (session s) !! i) as [img|]; [|done].
      rewrite decide_False; [done|]. intros [Hin _]. by apply elem_of_nil in Hin.
    + intros p. split; [|tauto]. intros Hp. split; [done|].
      intros i img _ [Hin _]. by apply elem_of_nil in Hin.
Qed.

(** Step 4 leaves the images that the database holds where they are: a
    new image gets an id that no committed image has. *)
Lemma append_gallery_images_old L E post_id gallery_files s r s' :
  append_gallery_images L E post_id gallery_files s = (r, s') →
  db s' = db s
  ∧ ∀ i, is_Some (post_images (db s) !! i) →
         post_images (session s') !! i = post_images (session s) !! i.
Proof.
  unfold append_gallery_images.
  revert s. induction gallery_files as [|file files IH]; intros s; cbn [for_each].
  - by intros [= <- <-].
  - intros Hrun.
    assert (Hstep : ∀ out s1,
      (new_url <- smart_upload L E file ;;
       match new_url with
       | Some u => if truthy u then add_image (PostImage.mk u post_id) else ret ()
       | None => ret ()
       end) s = (out, s1) →
      db s1 = db s
      ∧ ∀ i, is_Some (post_images (db s) !! i) →
             post_images (session s1) !! i = post_images (session s) !! i).
    { intros out s1 H.
      apply bind_inv in H as [(e & Hup & ->) | (url & s0 & Hup & Hadd)];
        apply smart_upload_effect in Hup as (Hdb & Hses & _).
      - by rewrite Hdb, Hses.
      - destruct url as [u|]; [destruct (truthy u)|].
        + unfold add_image, set_session in Hadd. injection Hadd as <- <-.
          cbn [db session post_images put_image]. split; [done|].
          intros i Hi. rewrite Hdb, Hses.
          rewrite lookup_insert_ne; [done|]. intros <-.
          destruct (next_id_fresh (post_images (db s)) (post_images (session s)))
            as [Hfresh _].
          rewrite Hfresh in Hi. by destruct Hi.
        + injection Hadd as <- <-. by rewrite Hdb, Hses.
        + injection Hadd as <- <-. by rewrite Hdb, Hses. }
    apply bind_inv in Hrun as [(e & Hone & ->) | ([] & s1 & Hone & Hrest)].
    + by apply Hstep in Hone.
    + apply Hstep in Hone as [Hdb1 Hold1]. apply IH in Hrest as [Hdb2 Hold2].
      split; [congruence|]. intros i Hi. rewrite Hold2, Hold1; [done..|].
      by rewrite Hdb1.
Qed.

(** An update by the owner up to step 3: unless storing the new cover
    raised, the handler reaches step 3 with the database untouched and
    the users, images and comments of the session as committed. *)
Lemma update_post_to_gallery L E d fs post_id req post r s' :
  posts d !! post_id = Some post →
  get_int L (form req) "user_id" = Some (Post.user_id post) →
  serve (update_post L E post_id req) d fs = (r, s') →
  (status r ≠ 200 ∧ db s' = d ∧ is_Some (files_get (files req) "image"))
  ∨ ∃ s4 out s,
      db s4 = d ∧ post_images (session s4) = post_images d
      ∧ (files_get (files req) "image" = None → disk s4 = fs)
      ∧ (try_except
           (remove_gallery_images L E post_id (default "[]" (form req !! "delete_image_ids")))
           (λ e, print (PrintGalleryFailed e)) ;;
         append_gallery_images L E post_id (files_getlist (files req) "images") ;;
         try_except
           (commit E ;; ret (mkResponse 200 (Message "Update successful")))
           (λ e, rollback ;; ret (mkResponse 500 (ServerError e)))) s4 = (out, s)
      ∧ s' = teardown s
      ∧ match out with inr r0 => r = r0 | inl _ => status r ≠ 200 end.
Proof.
  intros Hp Hu Hrun. apply serve_inv in Hrun as (out & s & Hrun & -> & Hout).
  unfold update_post in Hrun.
  apply bind_inv in Hrun as [(e & Hget & ->) | (post' & s0 & Hget & Hrun)];
    revert Hget; run; rewrite Hp; intros Hget; [done|].
  injection Hget as <- <-.
  rewrite Hu, bool_decide_false in Hrun by (intros Hne; by apply Hne).
  apply bind_inv in Hrun as [(e & Hm & ->) | ([] & s1 & Hm & Hrun)]; [done|].
  apply bind_inv in Hrun as [(e & Hm' & ->) | ([] & s2 & Hm' & Hrun)]; [done|].
  apply bind_inv in Hrun as [(e & Hdc & ->) | ([] & s3 & Hdc & Hrun)].
  { by destruct (bool_decide _). }
  assert (Hs3 : db s3 = d ∧ post_images (session s3) = post_images d ∧ disk s3 = fs).
  { revert Hm Hm' Hdc. run. intros. simplify_eq.
    destruct (bool_decide _); by simplify_eq/=. }
  clear Hm Hm' Hdc. destruct Hs3 as (Hdb3 & Hi3 & Hd3).
  apply bind_inv in Hrun as [(e & Hcov & ->) | ([] & s4 & Hcov & Hrun)].
  - left. destruct (files_get (files req) "image") as [file|]; [|done].
    split; [done|]. split; [|by eexists].
    destruct (truthy (filename file)); [|done].
    apply bind_inv in Hcov as [(e' & Hup & _) | (url & s4 & _ & Hmod)]; [|done].
    apply smart_upload_effect in Hup as (Hdb & _). cbn. congruence.
  - right. exists s4, out, s. split_and!; try done.
    + destruct (files_get (files req) "image") as [file|];
        [destruct (truthy (filename file))|];
        [|unfold ret in Hcov; by simplify_eq..].
      apply bind_inv in Hcov as [(e' & _ & [=]) | (url & s' & Hup & Hmod)].
      apply smart_upload_effect in Hup as (Hdb & _).
      unfold modify_post, set_session in Hmod. simplify_eq/=. congruence.
    + destruct (files_get (files req) "image") as [file|];
        [destruct (truthy (filename file))|];
        [|unfold ret in Hcov; by simplify_eq..].
      apply bind_inv in Hcov as [(e' & _ & [=]) | (url & s' & Hup & Hmod)].
      apply smart_upload_effect in Hup as (_ & Hses & _).
      unfold modify_post, set_session in Hmod. simplify_eq/=. congruence.
    + intros Hnone. rewrite Hnone in Hcov. unfold ret in Hcov. by simplify_eq.
Qed.

(** X28: when the owner's update succeeds and [delete_image_ids] is a JSON
    list of 64-bit integers, then of the images the database held exactly
    those are gone whose id is in the list and which belong to the updated
    post; a listed id of another post's image is ignored, and every other
    image is still there unchanged, whatever else the request uploads. *)
Theorem update_post_removes_listed_images L E d fs post_id req post txt ids r s' :
  posts d !! post_id = Some post →
  get_int L (form req) "user_id" = Some (Post.user_id post) →
  form req !! "delete_image_ids" = Some txt →
  json_loads L txt = Some (JArr (JNum <$> ids)) →
  forallb int64 ids = true →
  serve (update_post L E post_id req) d fs = (r, s') →
  status r = 200 →
  ∀ i img, post_images d !! i = Some img →
           post_images (db s') !! i
           = if decide (listed ids post_id i img) then None else Some img.
Proof.
  intros Hp Hu Hform Hjson Hrange Hrun H200 i img Hi.
  apply update_post_to_gallery with (post := post) in Hrun
    as [(Hne & _)|(s4 & out & s & Hdb4 & Hi4 & _ & Hrest & -> & Hout)]; [done| |done..].
  rewrite Hform in Hrest. cbn [default id] in Hrest.
  destruct (remove_gallery_images_effect L E post_id txt ids s4 Hjson Hrange)
    as (s5 & Hgal & Hdb5 & _ & _ & _ & _ & _ & Himg5 & _).
  unfold bind at 1 in Hrest. rewrite Hgal in Hrest.
  apply bind_inv in Hrest as [(e & Happ & ->)|([] & s6 & Happ & Hcommit)]; [done|].
  apply append_gallery_images_old in Happ as [Hdb6 Hold].
  apply commit_try in Hcommit. destruct (commit_error E) as [e|].
  - destruct Hcommit as (-> & _). by subst r.
  - destruct Hcommit as (-> & Hdb7 & _). cbn [teardown db]. rewrite Hdb7.
    cbn [flushed post_images]. rewrite Hold.
    + by rewrite Himg5, Hi4, Hi.
    + rewrite Hdb5, Hdb4, Hi. by eexists.
Qed.

(** Alice lists image 1 of her post and image 3 of Bob's post. *)
Lemma update_post_removes_listed_images_witness :
  let req := Demo.request [] [("user_id", "1"); ("delete_image_ids", "[1,3]")]
                          [("images", mkFile "seine.png" "pixels")] [] in
  let out := serve (update_post Demo.lib Demo.env 1 req) Demo.store Demo.files_on_disk in
  post_images (db out.2) !! 1 = None
  ∧ post_images (db out.2) !! 2 = Some (PostImage.mk "/static/uploads/b.jpg" 1)
  ∧ post_images (db out.2) !! 3 = Some (PostImage.mk "https://cdn.example/c.jpg" 2).
Proof.
  intros req out.
  pose proof (update_post_removes_listed_images Demo.lib Demo.env Demo.store
                Demo.files_on_disk 1 req Demo.paris "[1,3]" [1; 3] out.1 out.2
                eq_refl eq_refl eq_refl eq_refl eq_refl (surjective_pairing out) eq_refl)
    as H.
  split_and!.
  - exact (H 1 (PostImage.mk "/static/uploads/a.jpg" 1) eq_refl).
  - exact (H 2 (PostImage.mk "/static/uploads/b.jpg" 1) eq_refl).
  - exact (H 3 (PostImage.mk "https://cdn.example/c.jpg" 2) eq_refl).
Defined.

(** X29: step 3 removes the files before the commit.  Take an update by
    the owner that carries no files, changes no field of the post (no
    title, no content, no [delete_cover], so that nothing is pending when
    the images are selected) and whose [delete_image_ids] is a JSON list
    of 64-bit integers.  The disk afterwards is the disk before without
    the local files of the listed images of the post ([os.remove] taken to
    succeed), whether or not the commit succeeds; if the commit fails the
    reply is 500 and the database is as before, so the rows of those
    images are still there while their files are gone. *)
Theorem update_post_files_removed_before_commit L E d fs post_id req post txt ids r s' :
  posts d !! post_id = Some post →
  get_int L (form req) "user_id" = Some (Post.user_id post) →
  form req !! "title" = None →
  form req !! "content" = None →
  form req !! "delete_cover" ≠ Some "true" →
  form req !! "delete_image_ids" = Some txt →
  json_loads L txt = Some (JArr (JNum <$> ids)) →
  forallb int64 ids = true →
  files req = [] →
  serve (update_post L E post_id req) d fs = (r, s') →
  (∀ p, p ∈ disk s' ↔
        p ∈ fs ∧ ∀ i img, post_images d !! i = Some img →
                          listed ids post_id i img →
                          stored_locally (PostImage.url img) = true →
                          p ≠ lstrip_slash (PostImage.url img))
  ∧ (∀ e, commit_error E = Some e → status r = 500 ∧ db s' = d).
Proof.
  intros Hp Hu _ _ _ Hform Hjson Hrange Hfiles Hrun.
  apply update_post_to_gallery with (post := post) in Hrun
    as [(_ & _ & Hcover)|(s4 & out & s & Hdb4 & Hi4 & Hd4 & Hrest & -> & Hout)];
    [| |done..].
  { rewrite Hfiles in Hcover. by destruct Hcover. }
  rewrite Hform, Hfiles in Hrest. cbn [default id] in Hrest.
  rewrite Hfiles in Hd4. specialize (Hd4 eq_refl).
  destruct (remove_gallery_images_effect L E post_id txt ids s4 Hjson Hrange)
    as (s5 & Hgal & Hdb5 & _ & _ & _ & _ & _ & _ & Hdisk5).
  unfold bind at 1 in Hrest. rewrite Hgal in Hrest.
  change (files_getlist [] "images") with (@nil FileStorage) in Hrest.
  unfold append_gallery_images in Hrest. cbn [for_each] in Hrest.
  assert (Hend : disk s = disk s5
                 ∧ ∀ e, commit_error E = Some e →
                        out = inr (mkResponse 500 (ServerError e)) ∧ db s = db s5).
  { revert Hrest. run. destruct (commit_error E) as [e|]; run; intros [= <- <-].
    - split; [done|]. by intros e' [= <-].
    - by split. }
  destruct Hend as [Hdisk Hfail]. split.
  - intros p. cbn [teardown disk]. by rewrite Hdisk, Hdisk5, Hd4, Hi4.
  - intros e He. apply Hfail in He as [-> Hdb]. subst r.
    split; [done|]. cbn [teardown db]. congruence.
Qed.

(** The backend is down while Alice removes image 1: the row stays, the
    file is gone. *)
Lemma update_post_files_removed_before_commit_witness :
  let req := Demo.request [] [("user_id", "1"); ("delete_image_ids", "[1]")] [] [] in
  let out := serve (update_post Demo.lib Demo.env_down 1 req)
                   Demo.store Demo.files_on_disk in
  status out.1 = 500 ∧ db out.2 = Demo.store
  ∧ "static/uploads/a.jpg" ∉ disk out.2.
Proof.
  intros req out.
  destruct (update_post_files_removed_before_commit Demo.lib Demo.env_down Demo.store
              Demo.files_on_disk 1 req Demo.paris "[1]" [1] out.1 out.2
              eq_refl eq_refl eq_refl eq_refl) as [Hdisk Hfail];
    [discriminate | reflexivity.. | apply surjective_pairing |].
  destruct (Hfail _ eq_refl) as [H500 Hdb]. split_and!; [done..|].
  intros Hin. apply Hdisk in Hin as [_ Hgone].
  apply (Hgone 1 (PostImage.mk "/static/uploads/a.jpg" 1)); try reflexivity.
  split; [apply list_elem_of_here | reflexivity].
Defined.

(** ** update_post: one commit, and what an exception does to the request *)

(** Step 3 on a [delete_image_ids] that is rejected before the database is
    reached: the exception is caught and printed, nothing else happens. *)
Lemma gallery_try_rejected L E post_id txt e s :
  rejected_ids L txt = Some e →
  try_except (remove_gallery_images L E post_id txt)
             (λ e, print (PrintGalleryFailed e)) s
  = (inr (), mkState (db s) (session s) (disk s) (ticks s)
                     (PrintGalleryFailed e :: stdout s) (e :: raised s)).
Proof.
  unfold rejected_ids, try_except, remove_gallery_images.
  destruct (json_loads L txt) as [v|]; [|by intros [= <-]].
  destruct (json_truthy v); [|done].
  destruct v; try done; by intros [= <-].
Qed.

(** C2, as the code has it.  The mutations of one update_post request reach
    the database only through the one commit at the end: whenever the
    reply is not the success reply the database is as before, and if the
    commit raises the reply is a failure.  The success reply is given only
    if every exception raised on the way was caught and printed by the
    [try] around step 3.  Such an exception does not end the request: when
    [delete_image_ids] is rejected while it is decoded, and the request
    comes from the owner and neither an upload nor the commit fails, the
    handler prints the exception, goes on, commits the title, the content
    and the cover of the request, deletes no image, and answers success. *)
Theorem update_post_single_commit L E d fs post_id req r s' :
  serve (update_post L E post_id req) d fs = (r, s') →
  (status r ≠ 200 → db s' = d)
  ∧ (∀ e, commit_error E = Some e → status r ≠ 200 ∧ db s' = d)
  ∧ (status r = 200 → ∀ e, e ∈ raised s' → PrintGalleryFailed e ∈ stdout s')
  ∧ (∀ post e,
       healthy E →
       posts d !! post_id = Some post →
       get_int L (form req) "user_id" = Some (Post.user_id post) →
       rejected_ids L (default "[]" (form req !! "delete_image_ids")) = Some e →
       r = mkResponse 200 (Message "Update successful")
       ∧ PrintGalleryFailed e ∈ stdout s'
       ∧ (∃ p, posts (db s') !! post_id = Some p
               ∧ Post.title p = default (Post.title post) (form req !! "title")
               ∧ Post.content p = default (Post.content post) (form req !! "content")
               ∧ match files_get (files req) "image" with
                 | Some file =>
                     truthy (filename file) = true →
                     (smart_upload L E file (start d fs)).1 = inr (Post.image_url p)
                 | None =>
                     Post.image_url p
                     = if bool_decide (form req !! "delete_cover" = Some "true")
                       then None else Post.image_url post
                 end)
       ∧ (∀ i img, post_images d !! i = Some img → post_images (db s') !! i = Some img)).
Proof.
  intros Hrun.
  assert (Hcases :
    (status r ≠ 200 ∧ db s' = d)
    ∨ (status r = 200 ∧ commit_error E = None
       ∧ (raised s' = [] ∨ ∃ e, raised s' = [e] ∧ PrintGalleryFailed e ∈ stdout s'))).
  { destruct (posts d !! post_id) as [post|] eqn:Hp.
    - destruct (decide (get_int L (form req) "user_id" = Some (Post.user_id post)))
        as [Hu|Hu].
      + destruct (update_post_authorized _ _ _ _ _ _ _ _ _ Hp Hu Hrun)
          as [?|(-> & ? & ? & _)]; [by left | by right].
      + rewrite (update_post_denied _ _ _ _ _ _ post) in Hrun by done.
        left. by simplify_eq/=.
    - rewrite update_post_missing in Hrun by done. left. by simplify_eq/=. }
  split_and!.
  - intros Hne. by destruct Hcases as [[_ Hdb]|(Hok & _)].
  - intros e He. destruct Hcases as [?|(_ & Hc & _)]; [done|congruence].
  - intros Hok e He. destruct Hcases as [[Hne _]|(_ & _ & [Hr|(e' & Hr & Hprinted)])];
      [done| |]; rewrite Hr in He.
    + by apply elem_of_nil in He.
    + by apply list_elem_of_singleton in He as ->.
  - intros post e HE Hp Hu Hrej.
    pose proof (update_post_owner_succeeds L E d fs post_id req post HE Hp Hu) as Hok.
    rewrite Hrun in Hok. cbn [fst] in Hok. split; [done|].
    destruct (update_post_authorized _ _ _ _ _ _ _ _ _ Hp Hu Hrun)
      as [[Hne _]|(_ & _ & _ & t & pending & Hdb & Hst)]; [by rewrite Hok in Hne|].
    apply update_post_to_gallery with (post := post) in Hrun
      as [(Hne & _)|(s4 & out & s & Hdb4 & Hi4 & _ & Hrest & -> & Hout)];
      [by rewrite Hok in Hne| |done..].
    unfold bind at 1 in Hrest.
    rewrite (gallery_try_rejected L E post_id _ e s4 Hrej) in Hrest.
    apply bind_inv in Hrest as [(e' & Happ & ->)|([] & s6 & Happ & Hcommit)].
    { by rewrite Hok in Hout. }
    pose proof (plain_append_gallery_images _ _ _ _ _ _ _ Happ) as (_ & _ & Hout6 & _).
    apply append_gallery_images_old in Happ as [Hdb6 Hold].
    cbn [db session stdout] in Hdb6, Hold, Hout6.
    apply commit_try in Hcommit. destruct HE as (Hc & _). rewrite Hc in Hcommit.
    destruct Hcommit as (_ & Hdb7 & _ & Hout7).
    split_and!.
    + cbn [teardown stdout]. rewrite Hout7. destruct Hout6 as [l ->].
      apply elem_of_app. right. apply list_elem_of_here.
    + pose proof (staged_posts_post d post_id req post Hp) as Hstaged.
      unfold staged_with_cover in Hst.
      destruct (files_get (files req) "image") as [file|].
      * destruct (truthy (filename file)) eqn:Hname.
        -- destruct Hst as (url & Hup & Hst). eexists.
           rewrite Hdb, flushed_posts_lookup, Hst, lookup_alter_eq, Hstaged.
           cbn [fmap option_fmap option_map]. split; [reflexivity|].
           rewrite touch_image_url.
           match goal with |- context [touch t ?c ?k ?q] =>
             destruct (touch_fields t c k q) as [-> ->] end.
           by cbn.
        -- eexists. rewrite Hdb, flushed_posts_lookup, Hst, Hstaged.
           cbn [fmap option_fmap option_map]. split; [reflexivity|].
           match goal with |- context [touch t ?c ?k ?q] =>
             destruct (touch_fields t c k q) as [-> ->] end.
           by cbn.
      * eexists. rewrite Hdb, flushed_posts_lookup, Hst, Hstaged.
        cbn [fmap option_fmap option_map]. split; [reflexivity|].
        rewrite touch_image_url.
        match goal with |- context [touch t ?c ?k ?q] =>
          destruct (touch_fields t c k q) as [-> ->] end.
        by cbn.
    + intros i img Hi. cbn [teardown db]. rewrite Hdb7. cbn [flushed post_images].
      rewrite Hold by (rewrite Hdb4, Hi; by eexists). by rewrite Hi4.
Qed.

(** Alice renames her post and sends [oops] as [delete_image_ids]: the
    exception is printed, the new title is committed, her images stay and
    the reply is the success reply. *)
Lemma update_post_single_commit_witness :
  let req := Demo.request [] [("user_id", "1"); ("title", "Paris in spring");
                              ("delete_image_ids", "oops")] [] [] in
  let out := serve (update_post Demo.lib DemoColumns.env 1 req)
                   Demo.store Demo.files_on_disk in
  out.1 = mkResponse 200 (Message "Update successful")
  ∧ PrintGalleryFailed JSONDecodeError ∈ stdout out.2
  ∧ (∃ p, posts (db out.2) !! 1 = Some p
          ∧ Post.title p = "Paris in spring"
          ∧ Post.content p = "A week in France"
          ∧ Post.image_url p = Some "/static/uploads/p.jpg")
  ∧ (∀ i img, post_images Demo.store !! i = Some img →
              post_images (db out.2) !! i = Some img).
Proof.
  intros req out.
  destruct (update_post_single_commit Demo.lib DemoColumns.env Demo.store
              Demo.files_on_disk 1 req out.1 out.2 (surjective_pairing out))
    as (_ & _ & _ & Hgoes).
  apply (Hgoes Demo.paris JSONDecodeError); [|reflexivity..].
  split_and!; [reflexivity| |reflexivity]. intros file. by eexists.
Defined.
